(** * Grand Central: resilience core, fan-out and semantic pattern engine

    A shallow embedding of the TypeScript sources

    - [server/services/error-handler.ts]   (module [ErrorHandler])
    - [server/services/llm-router.ts]      (module [LLMRouter])
    - [server/services/openai.ts], [claude.ts], [deepseek.ts], [grok.ts]
                                           (module [Providers])
    - [server/services/semantic-memory.ts] (module [SemanticMemory])
    - [server/storage.ts]                  (modules [Storage], [AgentStorage])
    - [server/routes.ts]                   (module [Routes])
    - [server/services/companion-simple.ts] (module [CompanionSimple])

    JavaScript numbers are IEEE 754 binary64 values and are modelled by
    Rocq's primitive floats; integer counters that the code only ever
    increments from zero are [nat]; timestamps ([Date] values) are the
    number of milliseconds since the epoch, in [Z].  A JavaScript
    exception is an explicit [JS.Throw] completion; mutable module-level
    state (the circuit breaker [Map], the [memories] array, the database
    behind [storage]) is passed explicitly. *)

From Stdlib Require Import ZArith Floats List Lia Bool Ascii Sorted Permutation.
From stdpp Require Import gmap strings list pretty.
From Equations Require Import Equations.

Open Scope string_scope.
Open Scope list_scope.
Open Scope Z_scope.

(** ** JavaScript values shared by all modules *)

Module JS.

(** An [Error] object, with the three properties the code inspects. *)
Record Error := mkError {
  message : string;
  code : option string;
  status : option Z
}.

(** [new Error(msg)] *)
Definition newError (msg : string) : Error := mkError msg None None.

(** The outcome of evaluating a block: a value, or a thrown exception. *)
Inductive Completion (T : Type) : Type :=
| Normal (v : T)
| Throw (e : Error).
Arguments Normal {T} v.
Arguments Throw {T} e.

Definition isThrow {T} (c : Completion T) : bool :=
  match c with Throw _ => true | Normal _ => false end.

(** [haystack.includes(needle)] *)
Definition includes (haystack needle : string) : bool :=
  match String.index 0 needle haystack with
  | Some _ => true
  | None => false
  end.

(** An asynchronous operation as its caller sees it: started at a given
    time (ms), it settles with a completion after some elapsed time. *)
Definition Operation (T : Type) : Type := Z -> Completion T * Z.

(** Truthiness of a string value. *)
Definition truthy (s : string) : bool := negb (bool_decide (s = "")).

(** A non-negative integer (an array length) as a number. *)
Definition numberOfNat (n : nat) : float :=
  SF2Prim (binary_normalize prec emax (Z.of_nat n) 0 false).

(** [b[i]] used as an operand of arithmetic: a missing element is
    [undefined], which converts to NaN. *)
Definition numberAt (b : list float) (i : nat) : float :=
  match b !! i with
  | Some x => x
  | None => nan
  end.

(** [a.reduce((acc, val, i) => f(acc, val, i), init)], with the index of
    the first element being [i]. *)
Fixpoint reduceFrom {A B} (f : B -> A -> nat -> B) (i : nat) (a : list A)
    (acc : B) : B :=
  match a with
  | [] => acc
  | val :: rest => reduceFrom f (S i) rest (f acc val i)
  end.

Definition reduce {A B} (f : B -> A -> nat -> B) (a : list A) (init : B) : B :=
  reduceFrom f 0 a init.

(** [Array.prototype.sort(compareFn)]: the sort is stable, and a
    comparator result that is NaN counts as zero.  [x] is the element
    that came before every element of [sorted] in the array. *)
Fixpoint sortInsert {A} (compareFn : A -> A -> float) (x : A)
    (sorted : list A) : list A :=
  match sorted with
  | [] => [x]
  | y :: rest =>
      if (0 <? compareFn x y)%float
      then y :: sortInsert compareFn x rest
      else x :: y :: rest
  end.

Definition sort {A} (compareFn : A -> A -> float) (a : list A) : list A :=
  foldr (sortInsert compareFn) [] a.

(** [a.slice(0, end)] for an integer [end]: a negative [end] counts
    from the end of the array. *)
Definition sliceTo {A} (a : list A) (end_ : Z) : list A :=
  if end_ <? 0
  then take (Z.to_nat (Z.of_nat (length a) + end_)) a
  else take (Z.to_nat end_) a.

(** [a.slice(start)] for an integer [start]: a negative [start] counts
    from the end of the array, and [-0] is [0]. *)
Definition sliceFrom {A} (a : list A) (start : Z) : list A :=
  if start <? 0
  then drop (Z.to_nat (Z.max (Z.of_nat (length a) + start) 0)) a
  else drop (Z.to_nat (Z.min start (Z.of_nat (length a)))) a.

(** [a.slice(-n)]: the last [n] elements. *)
Definition sliceLast {A} (n : nat) (a : list A) : list A :=
  drop (length a - n) a.

(** [Array.from(new Set(a))]: the first occurrence of each value, in
    order of appearance. *)
Fixpoint uniqueFrom (seen a : list string) : list string :=
  match a with
  | [] => []
  | x :: rest =>
      if bool_decide (x ∈ seen) then uniqueFrom seen rest
      else x :: uniqueFrom (x :: seen) rest
  end.

Definition unique (a : list string) : list string := uniqueFrom [] a.

(** [Math.round(x)] for a finite [x], as an integer: the floor of
    [x + 1/2], computed exactly from the binary expansion of [x]. *)
Definition Math_round (x : float) : Z :=
  match Prim2SF x with
  | S754_finite s m e =>
      let v := if s then Z.neg m else Z.pos m in
      if 0 <=? e then v * 2 ^ e
      else (2 * v + 2 ^ (- e)) / 2 ^ (- e + 1)
  | _ => 0
  end.

(** Strings are sequences of ASCII characters. *)
Definition isWhitespace (c : ascii) : bool :=
  let n := nat_of_ascii c in
  bool_decide (n = 32 \/ (9 <= n <= 13))%nat.

Definition lowerChar (c : ascii) : ascii :=
  let n := nat_of_ascii c in
  if bool_decide (65 <= n <= 90)%nat then ascii_of_nat (n + 32) else c.

Definition upperChar (c : ascii) : ascii :=
  let n := nat_of_ascii c in
  if bool_decide (97 <= n <= 122)%nat then ascii_of_nat (n - 32) else c.

(** [s.toLowerCase()] *)
Fixpoint toLowerCase (s : string) : string :=
  match s with
  | EmptyString => EmptyString
  | String c rest => String (lowerChar c) (toLowerCase rest)
  end.

(** [s.charAt(0).toUpperCase() + s.slice(1)] *)
Definition capitalize (s : string) : string :=
  match s with
  | EmptyString => EmptyString
  | String c rest => String (upperChar c) rest
  end.

(** The non-empty pieces of [s.split(/\s+/)]; [word] is the piece
    being read, reversed. *)
Fixpoint wordsFrom (word : list ascii) (s : string) : list string :=
  let flush rest :=
    match word with
    | [] => rest
    | _ => String.string_of_list_ascii (rev word) :: rest
    end in
  match s with
  | EmptyString => flush []
  | String c rest =>
      if isWhitespace c then flush (wordsFrom [] rest)
      else wordsFrom (c :: word) rest
  end.

Definition words (s : string) : list string := wordsFrom [] s.

(** [a.join(sep)] *)
Fixpoint join (sep : string) (a : list string) : string :=
  match a with
  | [] => ""
  | [x] => x
  | x :: rest => x +:+ sep +:+ join sep rest
  end.

End JS.

Import JS.

(** ** error-handler.ts *)

Module ErrorHandler.

Inductive LLMProvider := openai | claude | deepseek | grok.

#[export] Instance LLMProvider_eq_dec : EqDecision LLMProvider.
Proof. solve_decision. Defined.

Definition providerIndex (p : LLMProvider) : nat :=
  match p with openai => 0 | claude => 1 | deepseek => 2 | grok => 3 end%nat.

Definition providerOfIndex (n : nat) : LLMProvider :=
  match n with
  | O => openai
  | S O => claude
  | S (S O) => deepseek
  | _ => grok
  end.

#[export] Instance LLMProvider_countable : Countable LLMProvider.
Proof.
  apply (inj_countable' providerIndex providerOfIndex).
  intros []; reflexivity.
Defined.

(** The string a provider tag interpolates to in a template literal. *)
Definition providerName (p : LLMProvider) : string :=
  match p with
  | openai => "openai"
  | claude => "claude"
  | deepseek => "deepseek"
  | grok => "grok"
  end.

Inductive ErrorCode :=
| TIMEOUT | API_ERROR | INVALID_KEY | RATE_LIMIT | NETWORK_ERROR | UNKNOWN.

Record LLMError := mkLLMError {
  llmCode : ErrorCode;
  detail : string;
  llmErrorProvider : LLMProvider;
  degraded : bool;
  timestamp : Z;
  retryCount : option nat
}.

Inductive BreakerPhase := CLOSED | OPEN | HALF_OPEN.

Record CircuitBreakerState := mkBreaker {
  failures : nat;
  lastFailureTime : option Z;
  state : BreakerPhase
}.

(** [CIRCUIT_BREAKER_CONFIG] *)
Definition failureThreshold : nat := 3.
Definition cooldownMs : Z := 30000.
Definition halfOpenAttempts : nat := 1.

(** What happened during a run, in order; kept only so that theorems
    can count operation invocations, sleeps and fallback choices (the
    code logs each of the three to the console). *)
Inductive Event :=
| EvInvoke (provider : LLMProvider) (attempt : nat)
| EvSleep (ms : Z)
| EvFallback (failedProvider fallback : LLMProvider).

(** The process-wide state of the module: the [circuitBreakers] map,
    the wall clock read by [new Date()], and the event trace. *)
Record Runtime := mkRuntime {
  circuitBreakers : gmap LLMProvider CircuitBreakerState;
  now : Z;
  trace : list Event
}.

Definition setBreakers (m : gmap LLMProvider CircuitBreakerState)
    (rt : Runtime) : Runtime :=
  mkRuntime m (now rt) (trace rt).

Definition elapse (ms : Z) (rt : Runtime) : Runtime :=
  mkRuntime (circuitBreakers rt) (now rt + ms) (trace rt).

Definition logEvent (e : Event) (rt : Runtime) : Runtime :=
  mkRuntime (circuitBreakers rt) (now rt) (trace rt ++ [e]).

Definition freshBreaker : CircuitBreakerState := mkBreaker 0 None CLOSED.

(** [getCircuitBreaker]: creates the entry on first use. *)
Definition getCircuitBreaker (provider : LLMProvider) (rt : Runtime)
    : CircuitBreakerState * Runtime :=
  match circuitBreakers rt !! provider with
  | Some breaker => (breaker, rt)
  | None =>
      (freshBreaker,
       setBreakers (<[provider := freshBreaker]> (circuitBreakers rt)) rt)
  end.

(** Assignment to a field of the breaker object held in the map. *)
Definition putBreaker (provider : LLMProvider) (b : CircuitBreakerState)
    (rt : Runtime) : Runtime :=
  setBreakers (<[provider := b]> (circuitBreakers rt)) rt.

(** [canAttemptRequest] *)
Definition canAttemptRequest (provider : LLMProvider) (rt : Runtime)
    : bool * Runtime :=
  let '(breaker, rt) := getCircuitBreaker provider rt in
  match state breaker with
  | CLOSED => (true, rt)
  | OPEN =>
      let cooled :=
        match lastFailureTime breaker with
        | Some t => cooldownMs <? now rt - t
        | None => true (* Infinity > cooldownMs *)
        end in
      if cooled
      then (true,
            putBreaker provider
              (mkBreaker (failures breaker) (lastFailureTime breaker) HALF_OPEN)
              rt)
      else (false, rt)
  | HALF_OPEN => (true, rt)
  end.

(** [recordSuccess] *)
Definition recordSuccess (provider : LLMProvider) (rt : Runtime) : Runtime :=
  let '(breaker, rt) := getCircuitBreaker provider rt in
  putBreaker provider (mkBreaker 0 (lastFailureTime breaker) CLOSED) rt.

(** [recordFailure] *)
Definition recordFailure (provider : LLMProvider) (rt : Runtime) : Runtime :=
  let '(breaker, rt) := getCircuitBreaker provider rt in
  let failures' := S (failures breaker) in
  let state' :=
    if (failureThreshold <=? failures')%nat then OPEN else state breaker in
  putBreaker provider (mkBreaker failures' (Some (now rt)) state') rt.

(** [RETRY_CONFIG] *)
Definition maxRetries : nat := 3.
Definition baseDelayMs : Z := 1000.
Definition maxDelayMs : Z := 10000.

(** [calculateBackoffDelay] *)
Definition calculateBackoffDelay (attemptNumber : nat) : Z :=
  let delay := baseDelayMs * 2 ^ Z.of_nat attemptNumber in
  Z.min delay maxDelayMs.

(** [await sleep(ms)] *)
Definition sleep (ms : Z) (rt : Runtime) : Runtime :=
  elapse ms (logEvent (EvSleep ms) rt).

Definition circuitOpenError (provider : LLMProvider) : Error :=
  newError ("Circuit breaker OPEN for " +:+ providerName provider).

Definition retriesExhaustedError (provider : LLMProvider) : Error :=
  newError ("All retries exhausted for " +:+ providerName provider).

(** The [catch] block of the loop body in [retryWithBackoff]; the result
    is the state in which the next iteration starts. *)
Definition retryCatch (provider : LLMProvider) (attempt : nat)
    (rt : Runtime) : Runtime :=
  let rt := recordFailure provider rt in
  if (attempt <? maxRetries)%nat
  then sleep (calculateBackoffDelay attempt) rt
  else rt.

(** The [for] loop of [retryWithBackoff], with [remaining] iterations
    to go, the next one being number [attempt]. *)
Fixpoint retryLoop {T} (fn : Operation T) (provider : LLMProvider)
    (remaining attempt : nat) (lastError : option Error) (rt : Runtime)
    : Completion T * Runtime :=
  match remaining with
  | O =>
      (Throw (match lastError with
              | Some e => e
              | None => retriesExhaustedError provider
              end), rt)
  | S remaining' =>
      let '(allowed, rt) := canAttemptRequest provider rt in
      if allowed then
        let '(outcome, elapsed) := fn (now rt) in
        let rt := elapse elapsed (logEvent (EvInvoke provider attempt) rt) in
        match outcome with
        | Normal result => (Normal result, recordSuccess provider rt)
        | Throw error =>
            retryLoop fn provider remaining' (S attempt) (Some error)
              (retryCatch provider attempt rt)
        end
      else
        retryLoop fn provider remaining' (S attempt)
          (Some (circuitOpenError provider))
          (retryCatch provider attempt rt)
  end.

(** [retryWithBackoff] *)
Definition retryWithBackoff {T} (fn : Operation T) (provider : LLMProvider)
    (rt : Runtime) : Completion T * Runtime :=
  retryLoop fn provider (S maxRetries) 0 None rt.

(** [parseError] *)
Definition parseError (error : Error) (provider : LLMProvider)
    (retryCount : option nat) (rt : Runtime) : LLMError :=
  let code :=
    if includes (message error) "timeout"
       || bool_decide (JS.code error = Some "ETIMEDOUT")
    then TIMEOUT
    else if includes (message error) "API key" then INVALID_KEY
    else if includes (message error) "rate limit"
            || bool_decide (status error = Some 429)
    then RATE_LIMIT
    else if bool_decide (JS.code error = Some "ENOTFOUND")
            || bool_decide (JS.code error = Some "ECONNREFUSED")
    then NETWORK_ERROR
    else if match status error with
            | Some s => (400 <=? s) && (s <? 600)
            | None => false
            end
    then API_ERROR
    else UNKNOWN in
  let detail :=
    if truthy (message error) then message error else "Unknown error" in
  mkLLMError code detail provider true (now rt) retryCount.

(** [FALLBACK_HIERARCHY] *)
Definition FALLBACK_HIERARCHY (p : LLMProvider) : list LLMProvider :=
  match p with
  | openai => [claude; deepseek; grok]
  | claude => [openai; deepseek; grok]
  | deepseek => [openai; claude; grok]
  | grok => [openai; claude; deepseek]
  end.

(** The [for ... of] loop of [getFallbackProvider]; [&&] does not
    consult the breaker of a provider that is not available. *)
Fixpoint firstFallback (failedProvider : LLMProvider)
    (fallbacks availableProviders : list LLMProvider)
    (rt : Runtime) : option LLMProvider * Runtime :=
  match fallbacks with
  | [] => (None, rt)
  | fallback :: rest =>
      if bool_decide (fallback ∈ availableProviders) then
        let '(allowed, rt) := canAttemptRequest fallback rt in
        if allowed
        then (Some fallback, logEvent (EvFallback failedProvider fallback) rt)
        else firstFallback failedProvider rest availableProviders rt
      else firstFallback failedProvider rest availableProviders rt
  end.

(** [getFallbackProvider] *)
Definition getFallbackProvider (failedProvider : LLMProvider)
    (availableProviders : list LLMProvider) (rt : Runtime)
    : option LLMProvider * Runtime :=
  firstFallback failedProvider (FALLBACK_HIERARCHY failedProvider)
    availableProviders rt.

(** One entry of the object returned by [getCircuitBreakerStatus]; the
    ISO string of [lastFailureTime] is kept as the time it denotes. *)
Record BreakerStatus := mkBreakerStatus {
  statusState : BreakerPhase;
  failureCount : nat;
  statusLastFailureTime : option Z
}.

Definition allProviders : list LLMProvider := [openai; claude; deepseek; grok].

(** The [forEach] of [getCircuitBreakerStatus]: the properties of
    [status], in the order in which they are set. *)
Fixpoint statusOf (providers : list LLMProvider) (rt : Runtime)
    : list (string * BreakerStatus) * Runtime :=
  match providers with
  | [] => ([], rt)
  | provider :: rest =>
      let '(breaker, rt) := getCircuitBreaker provider rt in
      let '(status, rt) := statusOf rest rt in
      ((providerName provider,
        mkBreakerStatus (state breaker) (failures breaker)
          (lastFailureTime breaker)) :: status,
       rt)
  end.

(** [getCircuitBreakerStatus] *)
Definition getCircuitBreakerStatus (rt : Runtime)
    : list (string * BreakerStatus) * Runtime :=
  statusOf allProviders rt.

End ErrorHandler.

Import ErrorHandler.

(** ** llm-router.ts *)

Module LLMRouter.

(** The four provider adapters ([generateResponse] of openai.ts,
    claude.ts, deepseek.ts and grok.ts) behind one interface: for a
    provider, a user input and an API key, the remote call as an
    operation.  The assembly of the prompt from the conversation and
    the context items is part of the client. *)
Definition ProviderClients : Type :=
  LLMProvider -> string -> string -> Operation string.

Definition serviceUnavailableError (provider : LLMProvider) : Error :=
  newError ("Circuit breaker OPEN for " +:+ providerName provider
            +:+ " - service temporarily unavailable").

(** [generateLLMResponse]; the [catch] block parses and logs the error
    and throws it again. *)
Definition generateLLMResponse (clients : ProviderClients)
    (provider : LLMProvider) (userInput apiKey : string) (rt : Runtime)
    : Completion string * Runtime :=
  let '(allowed, rt) := canAttemptRequest provider rt in
  if negb allowed then (Throw (serviceUnavailableError provider), rt)
  else
    let '(outcome, rt) :=
      retryWithBackoff (clients provider userInput apiKey) provider rt in
    match outcome with
    | Normal response => (Normal response, rt)
    | Throw error => (Throw error, rt)
    end.

End LLMRouter.

(** ** openai.ts, claude.ts, deepseek.ts, grok.ts

    The four [generateResponse] adapters.  The remote service is an
    operation of the key and the prompt (the conversation history goes
    with the prompt); what it returns is the part of the response the
    adapter reads. *)

Module Providers.

(** [apiKey || process.env.<NAME>], when it is truthy. *)
Definition keyOrEnv (apiKey : string) (env : option string) : option string :=
  if truthy apiKey then Some apiKey
  else match env with
       | Some key => if truthy key then Some key else None
       | None => None
       end.

(** [content || fallback], for a [content] that may be missing. *)
Definition orElse (content : option string) (fallback : string) : string :=
  match content with
  | Some text => if truthy text then text else fallback
  | None => fallback
  end.

Definition noResponse : string := "I'm sorry, I couldn't generate a response.".

(** A chat completion call; the result is
    [response.choices[0]?.message?.content]. *)
Definition ChatCompletions : Type := string -> string -> Operation (option string).

(** openai.ts *)
Definition openaiGenerateResponse (create : ChatCompletions)
    (env : option string) (prompt apiKey : string) : Operation string :=
  fun time =>
    match keyOrEnv apiKey env with
    | None => (Throw (newError "OpenAI API key not provided"), 0)
    | Some key =>
        let '(response, elapsed) := create key prompt time in
        match response with
        | Throw error => (Throw error, elapsed)
        | Normal content => (Normal (orElse content noResponse), elapsed)
        end
    end.

(** The first block of the [content] of an Anthropic message. *)
Inductive ContentBlock :=
| TextBlock (text : string)
| OtherBlock.

(** claude.ts; the result of the call is [response.content[0]].  (Here
    and in openai.ts the error for a missing key also gets the [name]
    InvalidKeyError, a property that nothing reads.) *)
Definition claudeGenerateResponse
    (create : string -> string -> Operation (option ContentBlock))
    (env : option string) (prompt apiKey : string) : Operation string :=
  fun time =>
    match keyOrEnv apiKey env with
    | None => (Throw (newError "Claude API key not provided"), 0)
    | Some key =>
        let '(response, elapsed) := create key prompt time in
        match response with
        | Throw error => (Throw error, elapsed)
        | Normal (Some (TextBlock text)) => (Normal text, elapsed)
        | Normal _ => (Normal noResponse, elapsed)
        end
    end.

(** What deepseek.ts reads of the response of [fetch]: [ok], [status],
    and [data.choices?.[0]?.message?.content] of the parsed body. *)
Record FetchResponse := mkFetchResponse {
  ok : bool;
  status : Z;
  json : Completion (option string)
}.

Definition errorWhileGenerating : string :=
  "I encountered an error while generating a response. Please try again.".

(** The [try] block of deepseek.ts. *)
Definition deepseekTry (response : Completion FetchResponse)
    : Completion string :=
  match response with
  | Throw error => Throw error
  | Normal response =>
      if negb (ok response)
      then Throw (newError ("HTTP error! status: " +:+ pretty (status response)))
      else match json response with
           | Throw error => Throw error
           | Normal content => Normal (orElse content noResponse)
           end
  end.

(** deepseek.ts *)
Definition deepseekGenerateResponse
    (fetch : string -> string -> Operation FetchResponse)
    (env : option string) (prompt apiKey : string) : Operation string :=
  fun time =>
    match keyOrEnv apiKey env with
    | None => (Throw (newError "DeepSeek API key not provided"), 0)
    | Some key =>
        let '(response, elapsed) := fetch key prompt time in
        match deepseekTry response with
        | Normal text => (Normal text, elapsed)
        | Throw error => (Normal errorWhileGenerating, elapsed)
        end
    end.

(** grok.ts *)
Definition grokGenerateResponse (create : ChatCompletions)
    (prompt apiKey : string) : Operation string :=
  fun time =>
    if negb (truthy apiKey)
    then (Throw (newError "Grok API key is required"), 0)
    else
      let '(response, elapsed) := create apiKey prompt time in
      match response with
      | Normal content => (Normal (orElse content "No response generated"), elapsed)
      | Throw error =>
          (Throw (newError ("Grok API error: " +:+ message error)), elapsed)
      end.

(** The remote services and the environment of the process. *)
Record Remotes := mkRemotes {
  openaiCreate : ChatCompletions;
  anthropicCreate : string -> string -> Operation (option ContentBlock);
  deepseekFetch : string -> string -> Operation FetchResponse;
  grokCreate : ChatCompletions;
  OPENAI_API_KEY : option string;
  CLAUDE_API_KEY : option string;
  DEEPSEEK_API_KEY : option string
}.

(** An item of the global context, and one of the discussion context. *)
Record GlobalContextItem := mkGlobalContextItem {
  globalType : string;
  globalContent : string;
  fileName : option string
}.

Record ContextItem := mkContextItem {
  contextType : string;
  contextName : string;
  contextContent : string
}.

Definition quote : string := String "034"%char EmptyString.

Definition lineFeed : string := String "010"%char EmptyString.

(** [fullPrompt] of [generateLLMResponse] in llm-router.ts. *)
Definition fullPrompt (globalContext : list GlobalContextItem)
    (context : list ContextItem) (userInput : string) : string :=
  let globalContextString :=
    if (0 <? length globalContext)%nat then
      "Global Context:" +:+ lineFeed
      +:+ join (lineFeed +:+ lineFeed)
            (map (fun item =>
                    if bool_decide (globalType item = "file") then
                      "File " +:+ quote +:+ orElse (fileName item) "Uploaded File"
                      +:+ quote +:+ ":" +:+ lineFeed +:+ globalContent item
                    else if bool_decide (globalType item = "url") then
                      "Reference URL: " +:+ globalContent item
                    else if bool_decide (globalType item = "instruction") then
                      "Global Instructions: " +:+ globalContent item
                    else globalType item +:+ ": " +:+ globalContent item)
               globalContext)
      +:+ lineFeed +:+ lineFeed
    else "" in
  let localContextString :=
    if (0 <? length context)%nat then
      "Discussion Context:" +:+ lineFeed
      +:+ join (lineFeed +:+ lineFeed)
            (map (fun item =>
                    if bool_decide (contextType item = "file") then
                      "File " +:+ quote +:+ contextName item +:+ quote +:+ ":"
                      +:+ lineFeed +:+ contextContent item
                    else
                      "Link " +:+ quote +:+ contextName item +:+ quote +:+ ": "
                      +:+ contextContent item)
               context)
      +:+ lineFeed +:+ lineFeed
    else "" in
  globalContextString +:+ localContextString +:+ "User: " +:+ userInput.

(** The [switch] of [generateLLMResponse]: the adapter of each provider,
    given the prompt built from the user input. *)
Definition clients (remotes : Remotes) (globalContext : list GlobalContextItem)
    (context : list ContextItem) : LLMRouter.ProviderClients :=
  fun provider userInput apiKey =>
    let prompt := fullPrompt globalContext context userInput in
    match provider with
    | openai =>
        openaiGenerateResponse (openaiCreate remotes) (OPENAI_API_KEY remotes)
          prompt apiKey
    | claude =>
        claudeGenerateResponse (anthropicCreate remotes) (CLAUDE_API_KEY remotes)
          prompt apiKey
    | deepseek =>
        deepseekGenerateResponse (deepseekFetch remotes)
          (DEEPSEEK_API_KEY remotes) prompt apiKey
    | grok => grokGenerateResponse (grokCreate remotes) prompt apiKey
    end.

End Providers.

(** ** semantic-memory.ts *)

Module SemanticMemory.

Inductive Phase := plasma | gas | liquid | solid.

Record Metadata := mkMetadata {
  llm : string;
  phase : Phase;
  breathCount : Z;
  patterns : list string;
  timestamp : Z
}.

Record MemoryItem := mkMemoryItem {
  id : string;
  content : string;
  embedding : list float;
  metadata : Metadata
}.

Record Context := mkContext {
  currentPhase : Phase;
  breathNumber : Z;
  detectedPatterns : list string
}.

Record PatternResult := mkPatternResult {
  resultContent : string;
  similarity : float;
  resultMetadata : Metadata
}.

(** The embeddings endpoint: for an API key and an input text, either
    an exception or the [data] array of the response, each entry
    reduced to its [embedding]. *)
Definition EmbeddingsAPI : Type :=
  string -> string -> Completion (list (list float)).

(** The module state: the [memories] array, and the inputs that were
    sent to the embeddings endpoint so far (kept for the theorems). *)
Record Store := mkStore {
  memories : list MemoryItem;
  embedded : list string
}.

(** [cosineSimilarity] *)
Definition cosineSimilarity (a b : list float) : float :=
  let dotProduct :=
    reduce (fun sum val i => sum + val * numberAt b i)%float a 0%float in
  let magnitudeA :=
    PrimFloat.sqrt (reduce (fun sum val _ => sum + val * val)%float a 0%float) in
  let magnitudeB :=
    PrimFloat.sqrt (reduce (fun sum val _ => sum + val * val)%float b 0%float) in
  (dotProduct / (magnitudeA * magnitudeB))%float.

Definition undefinedEmbeddingError : Error :=
  newError "Cannot read properties of undefined (reading 'embedding')".

(** [(await openai.embeddings.create({ model, input })).data[0].embedding] *)
Definition createEmbedding (api : EmbeddingsAPI) (apiKey input : string)
    (st : Store) : Completion (list float) * Store :=
  let st := mkStore (memories st) (embedded st ++ [input]) in
  match api apiKey input with
  | Throw error => (Throw error, st)
  | Normal [] => (Throw undefinedEmbeddingError, st)
  | Normal (first :: _) => (Normal first, st)
  end.

(** [storeMemory], called at time [now]. *)
Definition storeMemory (api : EmbeddingsAPI) (llmId message : string)
    (context : Context) (apiKey : string) (now : Z) (st : Store)
    : Completion unit * Store :=
  let '(response, st) := createEmbedding api apiKey message st in
  match response with
  | Normal embedding =>
      let memory :=
        mkMemoryItem (llmId +:+ "-" +:+ pretty now) message embedding
          (mkMetadata llmId (currentPhase context) (breathNumber context)
             (detectedPatterns context) now) in
      (Normal tt, mkStore (memories st ++ [memory]) (embedded st))
  | Throw error => (Normal tt, st)
  end.

(** The [try] block of [findPatterns]. *)
Definition findPatternsTry (api : EmbeddingsAPI) (query apiKey : string)
    (threshold : float) (limit : Z) (st : Store)
    : Completion (list PatternResult) * Store :=
  if bool_decide (length (memories st) = 0%nat) then (Normal [], st)
  else
    let '(response, st) := createEmbedding api apiKey query st in
    match response with
    | Throw error => (Throw error, st)
    | Normal queryEmbedding =>
        let results :=
          map (fun memory =>
                 mkPatternResult (content memory)
                   (cosineSimilarity queryEmbedding (embedding memory))
                   (metadata memory))
              (memories st) in
        let filteredResults :=
          sliceTo
            (JS.sort (fun a b => similarity b - similarity a)%float
               (List.filter (fun r => threshold <=? similarity r)%float results))
            limit in
        (Normal filteredResults, st)
    end.

(** [findPatterns] *)
Definition findPatterns (api : EmbeddingsAPI) (query apiKey : string)
    (threshold : float) (limit : Z) (st : Store)
    : Completion (list PatternResult) * Store :=
  match findPatternsTry api query apiKey threshold limit st with
  | (Normal results, st) => (Normal results, st)
  | (Throw error, st) => (Normal [], st)
  end.

(** [clearMemories] *)
Definition clearMemories (st : Store) : Store := mkStore [] (embedded st).

#[global] Instance Phase_eq_dec : EqDecision Phase.
Proof. solve_decision. Defined.

(** [getMemoriesByPhase] *)
Definition getMemoriesByPhase (wanted : Phase) (st : Store) : list MemoryItem :=
  List.filter (fun m => bool_decide (phase (metadata m) = wanted)) (memories st).

(** [getRecentMemories(count)], for an integer [count]. *)
Definition getRecentMemories (count : Z) (st : Store) : list MemoryItem :=
  sliceFrom (memories st) (- count).

Record PhaseDistribution := mkPhaseDistribution {
  plasmaCount : nat;
  gasCount : nat;
  liquidCount : nat;
  solidCount : nat
}.

Record MemoryStats := mkMemoryStats {
  totalMemories : nat;
  phaseDistribution : PhaseDistribution;
  latestBreathCount : Z
}.

(** [getMemoryStats] *)
Definition getMemoryStats (st : Store) : MemoryStats :=
  let count wanted :=
    length (List.filter (fun m => bool_decide (phase (metadata m) = wanted))
              (memories st)) in
  let phaseDistribution :=
    mkPhaseDistribution (count plasma) (count gas) (count liquid) (count solid) in
  mkMemoryStats (length (memories st)) phaseDistribution
    (if (0 <? length (memories st))%nat
     then match memories st !! (length (memories st) - 1)%nat with
          | Some m => breathCount (metadata m)
          | None => 0
          end
     else 0).

End SemanticMemory.

(** ** storage.ts

    The persistence interface, as an in-memory database whose operations
    always settle with a value. *)

Module Storage.

Record Message := mkMessage {
  id : string;
  discussionId : string;
  content : string;
  sender : string;
  llmProvider : option string;
  createdAt : Z
}.

(** The argument of [createMessage]; [insertId] is the [id] property,
    when the caller sets one. *)
Record InsertMessage := mkInsertMessage {
  insertId : option string;
  insertDiscussionId : string;
  insertContent : string;
  insertSender : string;
  insertLlmProvider : option string
}.

Record Discussion := mkDiscussion {
  discussionKey : string;
  currentPhase : option string;
  breathCount : option Z;
  detectedPatterns : list string
}.

Record AgentTemplate := mkAgentTemplate {
  name : string;
  focus : string;
  system_prompt : string
}.

Record Suggestion := mkSuggestion {
  suggestionId : string;
  suggestionDiscussionId : string;
  suggestionTimestamp : Z;
  type : string;
  suggestionContent : string;
  agent_template : AgentTemplate
}.

(** [settings.apiKeys.<name>.key], absent when any link of the chain is. *)
Record ApiKeys := mkApiKeys {
  openaiKey : option string;
  anthropicKey : option string;
  deepseekKey : option string;
  grokKey : option string
}.

(** [settings.companionConfig]; a missing property reads as [false]. *)
Record CompanionConfig := mkCompanionConfig {
  enabled : bool;
  autoSuggest : bool
}.

Record UserSettings := mkUserSettings {
  apiKeys : ApiKeys;
  companionConfig : option CompanionConfig
}.

(** The tables; [messages] is kept in [createdAt] order. *)
Record Database := mkDatabase {
  messages : list Message;
  discussions : list Discussion;
  settings : option UserSettings;
  suggestions : list Suggestion
}.

(** [getMessagesByDiscussion] *)
Definition getMessagesByDiscussion (key : string) (db : Database)
    : list Message :=
  List.filter (fun m => bool_decide (discussionId m = key)) (messages db).

(** [createMessage] at time [now]; a row without an [id] gets a fresh one. *)
Definition createMessage (insertMessage : InsertMessage) (now : Z)
    (db : Database) : Message * Database :=
  let message :=
    mkMessage
      (match insertId insertMessage with
       | Some given => given
       | None => "message-" +:+ pretty (length (messages db))
       end)
      (insertDiscussionId insertMessage) (insertContent insertMessage)
      (insertSender insertMessage) (insertLlmProvider insertMessage) now in
  (message,
   mkDatabase (messages db ++ [message]) (discussions db) (settings db)
     (suggestions db)).

(** [getDiscussion] *)
Definition getDiscussion (key : string) (db : Database) : option Discussion :=
  List.find (fun d => bool_decide (discussionKey d = key)) (discussions db).

(** [updateDiscussion(id, { breathCount, detectedPatterns })] *)
Definition updateDiscussion (key : string) (newBreathCount : Z)
    (newPatterns : list string) (db : Database) : Database :=
  mkDatabase (messages db)
    (map (fun d =>
            if bool_decide (discussionKey d = key)
            then mkDiscussion (discussionKey d) (currentPhase d)
                   (Some newBreathCount) newPatterns
            else d)
         (discussions db))
    (settings db) (suggestions db).

(** [addCompanionSuggestion] *)
Definition addCompanionSuggestion (suggestion : Suggestion) (db : Database)
    : Database :=
  mkDatabase (messages db) (discussions db) (settings db)
    (suggestions db ++ [suggestion]).

(** [getSettings] *)
Definition getSettings (db : Database) : option UserSettings := settings db.

End Storage.

(** ** storage.ts, the agents and the observations of the companion

    The [agents] table and the [observations] of the companion row.  The
    [id] of a new row is generated by the database; it is given to
    [createAgent] as [newId]. *)

Module AgentStorage.

Record InsertAgent := mkInsertAgent {
  insertName : string;
  insertDescription : string;
  insertCurrentMode : string;
  insertLlmProvider : string;
  insertSystemPrompt : string;
  insertCreatedBy : string;
  insertParentDiscussion : string
}.

Record Agent := mkAgent {
  id : string;
  name : string;
  description : string;
  currentMode : string;
  llmProvider : string;
  systemPrompt : string;
  createdBy : string;
  parentDiscussion : string;
  createdAt : Z
}.

Record Observation := mkObservation {
  type : string;
  agent : Agent;
  timestamp : Z
}.

Record Tables := mkTables {
  agents : list Agent;
  observations : list Observation
}.

(** [createAgent] at time [now]. *)
Definition createAgent (newId : string) (agent : InsertAgent) (now : Z)
    (tables : Tables) : Agent * Tables :=
  let newAgent :=
    mkAgent newId (insertName agent) (insertDescription agent)
      (insertCurrentMode agent) (insertLlmProvider agent)
      (insertSystemPrompt agent) (insertCreatedBy agent)
      (insertParentDiscussion agent) now in
  (newAgent, mkTables (agents tables ++ [newAgent]) (observations tables)).

(** [addCompanionObservation] *)
Definition addCompanionObservation (observation : Observation)
    (tables : Tables) : Tables :=
  mkTables (agents tables) (observations tables ++ [observation]).

End AgentStorage.

(** ** routes.ts *)

Module Routes.

Import LLMRouter.

Definition newline : string := String "010"%char EmptyString.

(** The literal [0.8], that is the binary64 number nearest to 8/10. *)
Definition similarityThreshold : float := 0x1.999999999999ap-1%float.

Definition inspect {A} (a : A) : {b : A | a = b} := exist _ a eq_refl.

(** [availableProviders.filter(p => p !== fallbackProvider)] *)
Definition withoutProvider (fallbackProvider : LLMProvider)
    (availableProviders : list LLMProvider) : list LLMProvider :=
  List.filter (fun p => negb (bool_decide (p = fallbackProvider)))
    availableProviders.

Definition unavailablePrefix (provider fallbackProvider : LLMProvider)
    : string :=
  "⚠️ " +:+ providerName provider +:+ " unavailable. Response from "
  +:+ providerName fallbackProvider +:+ ":" +:+ newline +:+ newline.

Definition responseUnavailable (provider : LLMProvider) (error : Error)
    : string :=
  "⚠️ " +:+ providerName provider +:+ " response unavailable: "
  +:+ message error.

(** [fallbackResponse.content = `...${fallbackResponse.content}`] *)
Definition markDegraded (provider fallbackProvider : LLMProvider)
    (fallbackResponse : Storage.Message) : Storage.Message :=
  Storage.mkMessage (Storage.id fallbackResponse)
    (Storage.discussionId fallbackResponse)
    (unavailablePrefix provider fallbackProvider
     +:+ Storage.content fallbackResponse)
    (Storage.sender fallbackResponse) (Storage.llmProvider fallbackResponse)
    (Storage.createdAt fallbackResponse).

Section WithClients.

Context (clients : ProviderClients).

(** The [try] block of [handleLLMResponse]. *)
Definition respond (discussionId message : string) (provider : LLMProvider)
    (senderName apiKey : string) (rt : Runtime) (db : Storage.Database)
    : Completion Storage.Message * (Runtime * Storage.Database) :=
  let '(outcome, rt) :=
    generateLLMResponse clients provider message apiKey rt in
  match outcome with
  | Throw error => (Throw error, (rt, db))
  | Normal response =>
      let '(savedMessage, db) :=
        Storage.createMessage
          (Storage.mkInsertMessage None discussionId response senderName
             (Some (providerName provider)))
          (now rt) db in
      (Normal savedMessage, (rt, db))
  end.

(** The last statements of the [catch] block: the degraded message. *)
Definition degradedResponse (discussionId : string) (provider : LLMProvider)
    (senderName : string) (error : Error) (rt : Runtime)
    (db : Storage.Database)
    : Completion Storage.Message * (Runtime * Storage.Database) :=
  let '(degradedMessage, db) :=
    Storage.createMessage
      (Storage.mkInsertMessage None discussionId
         (responseUnavailable provider error) senderName
         (Some (providerName provider)))
      (now rt) db in
  (Normal degradedMessage, (rt, db)).

(** [handleLLMResponse]; the recursive call runs on a shorter list of
    available providers. *)
Equations? handleLLMResponse (discussionId message : string)
    (provider : LLMProvider) (senderName apiKey : string)
    (availableProviders : list LLMProvider)
    (rt : Runtime) (db : Storage.Database)
    : Completion Storage.Message * (Runtime * Storage.Database)
    by wf (length availableProviders) lt :=
  handleLLMResponse discussionId message provider senderName apiKey
      availableProviders rt db
    with respond discussionId message provider senderName apiKey rt db => {
    | (Normal savedMessage, st) => (Normal savedMessage, st)
    | (Throw error, (rt1, db1))
        with inspect (getFallbackProvider provider availableProviders rt1) => {
        | exist _ (None, rt2) _ =>
            degradedResponse discussionId provider senderName error rt2 db1
        | exist _ (Some fallbackProvider, rt2) found
            with handleLLMResponse discussionId message fallbackProvider
                   senderName apiKey
                   (withoutProvider fallbackProvider availableProviders)
                   rt2 db1 => {
            | (Normal fallbackResponse, st) =>
                (Normal (markDegraded provider fallbackProvider
                           fallbackResponse), st)
            | (Throw fallbackError, (rt3, db3)) =>
                degradedResponse discussionId provider senderName error
                  rt3 db3 } } }.
Proof.
  clear handleLLMResponse.
  assert (Hin : fallbackProvider ∈ availableProviders).
  { unfold getFallbackProvider in found.
    revert rt1 found.
    induction (FALLBACK_HIERARCHY provider) as [|f rest IH];
      intros rt1; simpl; [discriminate|].
    case_bool_decide as Hf; [|apply IH].
    destruct (canAttemptRequest f rt1) as [[] rt']; [|apply IH].
    intros [= <- _]. exact Hf. }
  clear found. unfold withoutProvider.
  induction Hin as [x l|x y l _ IH]; simpl.
  - rewrite bool_decide_eq_true_2 by reflexivity. simpl.
    pose proof (List.filter_length_le
                  (fun p => negb (bool_decide (p = x))) l). lia.
  - destruct (negb (bool_decide (y = x))); simpl; lia.
Qed.

(** One [promises.push(handleLLMResponse(...))] of the handler of
    [POST /api/discussions/:id/messages]. *)
Record FanOutCall := mkFanOutCall {
  callProvider : LLMProvider;
  callSender : string;
  callApiKey : string
}.

(** A key that is present and truthy. *)
Definition configuredKey (key : option string) : option string :=
  match key with
  | Some k => if truthy k then Some k else None
  | None => None
  end.

Definition hasKey (key : option string) : bool :=
  match configuredKey key with
  | Some _ => true
  | None => false
  end.

(** The list [availableProviders] built by the handler. *)
Definition availableProvidersOf (keys : Storage.ApiKeys)
    : list LLMProvider :=
  (if hasKey (Storage.openaiKey keys) then [openai] else [])
  ++ (if hasKey (Storage.anthropicKey keys) then [claude] else [])
  ++ (if hasKey (Storage.deepseekKey keys) then [deepseek] else [])
  ++ (if hasKey (Storage.grokKey keys) then [grok] else []).

Definition fanOutCall (enabledModels : list string) (model : string)
    (provider : LLMProvider) (key : option string) : list FanOutCall :=
  match configuredKey key with
  | Some k =>
      if bool_decide (model ∈ enabledModels)
      then [mkFanOutCall provider model k]
      else []
  | None => []
  end.

(** The calls pushed on [promises], in order. *)
Definition fanOutCalls (enabledModels : list string)
    (keys : Storage.ApiKeys) : list FanOutCall :=
  fanOutCall enabledModels "gpt4" openai (Storage.openaiKey keys)
  ++ fanOutCall enabledModels "claude" claude (Storage.anthropicKey keys)
  ++ fanOutCall enabledModels "deepseek" deepseek (Storage.deepseekKey keys)
  ++ fanOutCall enabledModels "grok" grok (Storage.grokKey keys).

(** [await Promise.allSettled(promises)], the calls settling one
    after the other in the order in which they were started. *)
Fixpoint allSettled (discussionId content : string)
    (availableProviders : list LLMProvider) (calls : list FanOutCall)
    (rt : Runtime) (db : Storage.Database)
    : list (Completion Storage.Message) * (Runtime * Storage.Database) :=
  match calls with
  | [] => ([], (rt, db))
  | call :: rest =>
      let '(result, (rt, db)) :=
        handleLLMResponse discussionId content (callProvider call)
          (callSender call) (callApiKey call) availableProviders rt db in
      let '(results, st) :=
        allSettled discussionId content availableProviders rest rt db in
      (result :: results, st)
  end.

(** [results.forEach(result => { if (fulfilled && value) push })] *)
Definition fulfilledValues (results : list (Completion Storage.Message))
    : list Storage.Message :=
  flat_map (fun result =>
              match result with
              | Normal value => [value]
              | Throw _ => []
              end) results.

(** The fan-out of the handler of [POST /api/discussions/:id/messages]:
    from the construction of [promises] to the filling of [responses]. *)
Definition dispatch (discussionId content : string)
    (enabledModels : list string) (keys : Storage.ApiKeys)
    (rt : Runtime) (db : Storage.Database)
    : list Storage.Message * (Runtime * Storage.Database) :=
  let availableProviders := availableProvidersOf keys in
  let '(results, st) :=
    allSettled discussionId content availableProviders
      (fanOutCalls enabledModels keys) rt db in
  (fulfilledValues results, st).

End WithClients.

(** The pattern check made inline by the same handler, once the
    responses are stored; [discussion] is the row read when the request
    came in. *)
Definition detectPatterns (api : SemanticMemory.EmbeddingsAPI)
    (discussion : Storage.Discussion) (openaiKey : string)
    (db : Storage.Database) (store : SemanticMemory.Store)
    : Storage.Database * SemanticMemory.Store :=
  let key := Storage.discussionKey discussion in
  let allMessages := Storage.getMessagesByDiscussion key db in
  let userMessages :=
    List.filter (fun m => bool_decide (Storage.sender m = "user")) allMessages in
  if (3 <=? length userMessages)%nat
     && bool_decide (length userMessages mod 3 = 0)%nat
  then
    let lastThreeUserMessages := sliceLast 3 userMessages in
    let combinedContent :=
      join " " (map Storage.content lastThreeUserMessages) in
    match SemanticMemory.findPatterns api combinedContent openaiKey
            similarityThreshold 5 store with
    | (Normal patterns, store) =>
        if (2 <=? length patterns)%nat then
          let newBreathCount :=
            match Storage.breathCount discussion with
            | Some n => n
            | None => 0
            end + 1 in
          let detectedPatternTopics :=
            map (fun p =>
                   let joined :=
                     join ", " (SemanticMemory.patterns
                                  (SemanticMemory.resultMetadata p)) in
                   if truthy joined then joined else "pattern")
                patterns in
          (Storage.updateDiscussion key newBreathCount
             (match detectedPatternTopics with
              | [] => ["semantic pattern detected"]
              | _ => detectedPatternTopics
              end) db, store)
        else (db, store)
    | (Throw _, store) => (db, store)
    end
  else (db, store).

End Routes.

(** ** companion-simple.ts *)

Module CompanionSimple.

(** The object [monitorDiscussion] resolves to when it is not [null]. *)
Record CompanionMessage := mkCompanionMessage {
  id : string;
  discussionId : string;
  content : string;
  sender : string;
  llmProvider : string;
  createdAt : Z;
  suggestionId : option string
}.

(** [createCompanionAnnouncement('breathIncrement', ...)] at time [now],
    as the row given to [storage.createMessage]. *)
Definition createCompanionAnnouncement (discussionId : string)
    (breathCount : Z) (now : Z) : Storage.InsertMessage :=
  Storage.mkInsertMessage
    (Some ("companion-announce-" +:+ pretty now))
    discussionId
    ("💨 Breath #" +:+ pretty breathCount
     +:+ " completed. The conversation deepens.")
    "companion" (Some "companion").

Definition undefinedContentError : Error :=
  newError "Cannot read properties of undefined (reading 'content')".

(** [detectTopicFromPatterns] *)
Definition detectTopicFromPatterns
    (patterns : list SemanticMemory.PatternResult) : Completion string :=
  let allPatterns :=
    flat_map (fun p => SemanticMemory.patterns (SemanticMemory.resultMetadata p))
      patterns in
  let uniquePatterns := unique allPatterns in
  match uniquePatterns with
  | first :: _ => Normal first
  | [] =>
      match patterns with
      | [] => Throw undefinedContentError
      | p :: _ =>
          let words :=
            List.filter (fun w => (4 <? String.length w)%nat)
              (JS.words (toLowerCase (SemanticMemory.resultContent p))) in
          match words with
          | w :: _ => Normal w
          | [] => Normal "this topic"
          end
      end
  end.

(** [const confidence = similar.length / 3] *)
Definition confidenceOf (similar : list SemanticMemory.PatternResult)
    : float :=
  (numberOfNat (length similar) / 3)%float.

Definition suggestionText (topic : string) (confidence : float) : string :=
  "🧠 I notice you're exploring " +:+ topic
  +:+ ". Shall I crystallize a specialized agent? (Confidence: "
  +:+ pretty (Math_round (confidence * 100)%float) +:+ "%)".

Definition insightText (messageCount : nat) : string :=
  "🧠 I'm monitoring this discussion (" +:+ pretty messageCount
  +:+ " messages). Semantic pattern detection is active. "
  +:+ "I'll suggest specialized agents when I detect recurring topics.".

Definition State : Type := Storage.Database * SemanticMemory.Store.

(** The statements of [monitorDiscussion] that run when a pattern is
    detected. *)
Definition suggestAgent (discussionId : string)
    (similar : list SemanticMemory.PatternResult) (now : Z)
    (db : Storage.Database) (store : SemanticMemory.Store)
    : Completion (option CompanionMessage) * State :=
  match detectTopicFromPatterns similar with
  | Throw error => (Throw error, (db, store))
  | Normal topic =>
      let confidence := confidenceOf similar in
      let db :=
        match Storage.getDiscussion discussionId db with
        | Some discussion =>
            let newBreathCount :=
              match Storage.breathCount discussion with
              | Some n => n
              | None => 0
              end + 1 in
            let patterns :=
              unique (flat_map (fun p => SemanticMemory.patterns
                                           (SemanticMemory.resultMetadata p))
                        similar) in
            let db :=
              Storage.updateDiscussion discussionId newBreathCount
                (match patterns with [] => [topic] | _ => patterns end) db in
            snd (Storage.createMessage
                   (createCompanionAnnouncement discussionId newBreathCount now)
                   now db)
        | None => db
        end in
      let suggestion :=
        Storage.mkSuggestion ("suggestion-" +:+ pretty now) discussionId now
          "agent_creation" (suggestionText topic confidence)
          (Storage.mkAgentTemplate
             (capitalize topic +:+ " Expert")
             ("Specialized in " +:+ topic +:+ " discussions")
             ("You are an expert in " +:+ topic
              +:+ ". Provide helpful guidance for " +:+ topic
              +:+ "-related questions.")) in
      let db := Storage.addCompanionSuggestion suggestion db in
      (Normal (Some (mkCompanionMessage ("companion-" +:+ pretty now)
                       discussionId (Storage.suggestionContent suggestion)
                       "companion" "companion" now
                       (Some (Storage.suggestionId suggestion)))),
       (db, store))
  end.

(** The periodic insight, or [null]. *)
Definition periodicInsight (discussionId : string) (messageCount : nat)
    (now : Z) : option CompanionMessage :=
  if (0 <? messageCount)%nat && bool_decide (messageCount mod 8 = 0)%nat
  then Some (mkCompanionMessage ("companion-" +:+ pretty now) discussionId
               (insightText messageCount) "companion" "companion" now None)
  else None.

(** The [try] block of [monitorDiscussion], run at time [now]. *)
Definition monitorTry (api : SemanticMemory.EmbeddingsAPI)
    (discussionId : string) (now : Z)
    (db : Storage.Database) (store : SemanticMemory.Store)
    : Completion (option CompanionMessage) * State :=
  let recentMessages := Storage.getMessagesByDiscussion discussionId db in
  let messages := sliceLast 10 recentMessages in
  if (length messages <? 3)%nat then (Normal None, (db, store))
  else
    let settings := Storage.getSettings db in
    let companionConfig :=
      match settings with
      | Some s => Storage.companionConfig s
      | None => None
      end in
    match companionConfig with
    | None => (Normal None, (db, store))
    | Some config =>
        if negb (Storage.enabled config) then (Normal None, (db, store))
        else
          let openaiKey :=
            match settings with
            | Some s => Routes.configuredKey (Storage.openaiKey (Storage.apiKeys s))
            | None => None
            end in
          let fallThrough store :=
            (Normal (periodicInsight discussionId (length messages) now),
             (db, store)) in
          match openaiKey with
          | Some key =>
              if (3 <=? length messages)%nat then
                let lastThree := sliceLast 3 messages in
                let combinedContent :=
                  join " " (map Storage.content lastThree) in
                match SemanticMemory.findPatterns api combinedContent key
                        Routes.similarityThreshold 5 store with
                | (Throw error, store) => (Throw error, (db, store))
                | (Normal similar, store) =>
                    if (2 <=? length similar)%nat && Storage.autoSuggest config
                    then suggestAgent discussionId similar now db store
                    else fallThrough store
                end
              else fallThrough store
          | None => fallThrough store
          end
    end.

(** [monitorDiscussion]: any exception is logged and becomes [null].
    The parameter [newMessage] is never read. *)
Definition monitorDiscussion (api : SemanticMemory.EmbeddingsAPI)
    (discussionId : string) (now : Z)
    (db : Storage.Database) (store : SemanticMemory.Store)
    : option CompanionMessage * State :=
  match monitorTry api discussionId now db store with
  | (Normal result, st) => (result, st)
  | (Throw error, st) => (None, st)
  end.

(** What [createAgentFromSuggestion] resolves to. *)
Record CreationResult := mkCreationResult {
  success : bool;
  resultMessage : string;
  createdAgent : option AgentStorage.Agent
}.

(** [createAgentFromSuggestion] at time [now]; the suggestions are those
    of the companion row of the database.  The storage calls always
    settle with a value, so the [catch] block is never entered. *)
Definition createAgentFromSuggestion (suggestionId : string)
    (userApproval : bool) (newId : string) (now : Z)
    (db : Storage.Database) (tables : AgentStorage.Tables)
    : CreationResult * AgentStorage.Tables :=
  if negb userApproval
  then (mkCreationResult false "Agent creation cancelled by user" None, tables)
  else
    match List.find (fun s => bool_decide (Storage.suggestionId s = suggestionId))
            (Storage.suggestions db) with
    | None => (mkCreationResult false "Suggestion not found" None, tables)
    | Some suggestion =>
        let agentData :=
          AgentStorage.mkInsertAgent
            (Storage.name (Storage.agent_template suggestion))
            (Storage.focus (Storage.agent_template suggestion))
            "plasma" "claude"
            (Storage.system_prompt (Storage.agent_template suggestion))
            "companion" (Storage.suggestionDiscussionId suggestion) in
        let '(newAgent, tables) :=
          AgentStorage.createAgent newId agentData now tables in
        let tables :=
          AgentStorage.addCompanionObservation
            (AgentStorage.mkObservation "agent_created" newAgent now) tables in
        (mkCreationResult true
           ("Created " +:+ AgentStorage.name newAgent
            +:+ " to help with this topic")
           (Some newAgent),
         tables)
    end.

End CompanionSimple.

(** ** Observations and scenarios used in the statements *)

Module Observe.

(** The breaker [getCircuitBreaker] would return for a provider. *)
Definition breakerOf (provider : LLMProvider) (rt : Runtime)
    : CircuitBreakerState :=
  match circuitBreakers rt !! provider with
  | Some breaker => breaker
  | None => freshBreaker
  end.

(** The three operations, as transitions of the one breaker they touch. *)
Definition allows (time : Z) (b : CircuitBreakerState) : bool :=
  match state b with
  | OPEN =>
      match lastFailureTime b with
      | Some t => cooldownMs <? time - t
      | None => true
      end
  | _ => true
  end.

Definition probed (time : Z) (b : CircuitBreakerState) : CircuitBreakerState :=
  match state b with
  | OPEN =>
      if allows time b
      then mkBreaker (failures b) (lastFailureTime b) HALF_OPEN
      else b
  | _ => b
  end.

Definition failed (time : Z) (b : CircuitBreakerState) : CircuitBreakerState :=
  mkBreaker (S (failures b)) (Some time)
    (if (failureThreshold <=? S (failures b))%nat then OPEN else state b).

Definition succeeded (b : CircuitBreakerState) : CircuitBreakerState :=
  mkBreaker 0 (lastFailureTime b) CLOSED.

(** A call made on the circuit breaker interface, or time passing. *)
Inductive BreakerCall :=
| MayAttempt (provider : LLMProvider)
| Success (provider : LLMProvider)
| Failure (provider : LLMProvider)
| Wait (ms : Z).

#[export] Instance BreakerCall_eq_dec : EqDecision BreakerCall.
Proof. solve_decision. Defined.

Definition runCall (rt : Runtime) (call : BreakerCall) : Runtime :=
  match call with
  | MayAttempt p => snd (canAttemptRequest p rt)
  | Success p => recordSuccess p rt
  | Failure p => recordFailure p rt
  | Wait ms => elapse ms rt
  end.

Definition runCalls (calls : list BreakerCall) (rt : Runtime) : Runtime :=
  fold_left runCall calls rt.

Definition failuresIn (provider : LLMProvider) (calls : list BreakerCall)
    : nat :=
  length (List.filter (fun c => bool_decide (c = Failure provider)) calls).

(** Waits for each of the given delays in turn and asks
    [canAttemptRequest] after each. *)
Fixpoint pollAfter (provider : LLMProvider) (waits : list Z) (rt : Runtime)
    : list bool * Runtime :=
  match waits with
  | [] => ([], rt)
  | w :: rest =>
      let '(allowed, rt) := canAttemptRequest provider (elapse w rt) in
      let '(answers, rt) := pollAfter provider rest rt in
      (allowed :: answers, rt)
  end.

Definition total (waits : list Z) : Z := fold_right Z.add 0 waits.

(** The invocations of the operation, and the sleeps, in a trace. *)
Definition invocationsOf (events : list Event) : nat :=
  length (List.filter (fun e => match e with EvInvoke _ _ => true | _ => false end)
            events).

Fixpoint sleepsOf (events : list Event) : list Z :=
  match events with
  | [] => []
  | EvSleep ms :: rest => ms :: sleepsOf rest
  | _ :: rest => sleepsOf rest
  end.

(** The substitutes chosen by [getFallbackProvider], in order. *)
Fixpoint fallbacksOf (events : list Event) : list LLMProvider :=
  match events with
  | [] => []
  | EvFallback _ fallback :: rest => fallback :: fallbacksOf rest
  | _ :: rest => fallbacksOf rest
  end.

(** The providers whose operation was invoked, in order. *)
Fixpoint invokedOf (events : list Event) : list LLMProvider :=
  match events with
  | [] => []
  | EvInvoke provider _ :: rest => provider :: invokedOf rest
  | _ :: rest => invokedOf rest
  end.

Fixpoint nonDecreasing (l : list Z) : bool :=
  match l with
  | x :: ((y :: _) as rest) => (x <=? y) && nonDecreasing rest
  | _ => true
  end.

(** The sleep at the end of the [catch] block of iteration [attempt]. *)
Definition catchSleep (attempt : nat) : list Z :=
  if (attempt <? maxRetries)%nat then [calculateBackoffDelay attempt] else [].

(** The breaker is open and its cooldown is running. *)
Definition cooling (p : LLMProvider) (rt : Runtime) : Prop :=
  state (breakerOf p rt) = OPEN
  /\ exists t, lastFailureTime (breakerOf p rt) = Some t
               /\ now rt - t <= cooldownMs.

(** What holds of a provider's breaker when iteration [attempt >= 1] of
    the loop of [retryWithBackoff] starts after failures only: each
    earlier iteration recorded a failure, the last one a backoff sleep
    ago, and the breaker is open if the threshold was reached. *)
Definition tripped (p : LLMProvider) (attempt : nat) (rt : Runtime) : Prop :=
  (attempt <= failures (breakerOf p rt))%nat
  /\ (exists t, lastFailureTime (breakerOf p rt) = Some t
                /\ now rt - t <= cooldownMs)
  /\ ((failureThreshold <= failures (breakerOf p rt))%nat ->
      state (breakerOf p rt) = OPEN).

(** The sleeps of the iterations [attempt], [attempt + 1], ... of the
    loop of [retryWithBackoff] when each of them fails. *)
Fixpoint backoffSchedule (remaining attempt : nat) : list Z :=
  match remaining with
  | O => []
  | S remaining' =>
      catchSleep attempt ++ backoffSchedule remaining' (S attempt)
  end.

(** An operation that throws whenever it is invoked. *)
Definition alwaysFails {T} (fn : Operation T) : Prop :=
  forall t, isThrow (fst (fn t)) = true.

(** The dot product and the Euclidean norm, as mathematics writes them:
    the products of the components paired up, summed from the left. *)
Definition dot (a b : list float) : float :=
  fold_left (fun sum xy => sum + fst xy * snd xy)%float (combine a b) 0%float.

Definition norm (a : list float) : float :=
  PrimFloat.sqrt (fold_left (fun sum x => sum + x * x)%float a 0%float).

(** A vector all of whose components are zero (of either sign). *)
Definition zeroVector (a : list float) : Prop :=
  Forall (fun x => PrimFloat.is_zero x = true) a.

(** Zero or NaN, on the specification side of a number. *)
Definition zeroOrNaN (x : spec_float) : bool :=
  match x with
  | S754_zero _ | S754_nan => true
  | _ => false
  end.

(** The comparator [(a, b) => key(b) - key(a)], the order it is meant
    to produce, and the elements whose key is not NaN. *)
Definition descendingBy {A} (key : A -> float) (a b : A) : float :=
  (key b - key a)%float.

Definition keyBefore {A} (key : A -> float) (a b : A) : Prop :=
  (key b <=? key a)%float = true.

Definition keyIsNumber {A} (key : A -> float) (a : A) : Prop :=
  Prim2SF (key a) <> S754_nan.

(** The record [findPatterns] builds for a memory. *)
Definition scored (queryEmbedding : list float)
    (memory : SemanticMemory.MemoryItem) : SemanticMemory.PatternResult :=
  SemanticMemory.mkPatternResult (SemanticMemory.content memory)
    (SemanticMemory.cosineSimilarity queryEmbedding
       (SemanticMemory.embedding memory))
    (SemanticMemory.metadata memory).

(** [similarity >= threshold] *)
Definition reaches (threshold : float) (r : SemanticMemory.PatternResult)
    : bool :=
  (threshold <=? SemanticMemory.similarity r)%float.

(** Each result is at least as similar as the one after it. *)
Definition descending (results : list SemanticMemory.PatternResult) : Prop :=
  Sorted (fun r1 r2 =>
            (SemanticMemory.similarity r2 <=? SemanticMemory.similarity r1)%float
            = true) results.

(** A provider whose client answers every call, and clients that all
    throw on every call. *)
Definition alwaysAnswers (clients : LLMRouter.ProviderClients)
    (provider : LLMProvider) : Prop :=
  forall userInput apiKey time,
    isThrow (fst (clients provider userInput apiKey time)) = false.

Definition allThrow (clients : LLMRouter.ProviderClients) : Prop :=
  forall provider userInput apiKey time,
    isThrow (fst (clients provider userInput apiKey time)) = true.

(** The two errors that stand for an open circuit. *)
Definition breakerError (provider : LLMProvider) (error : Error) : Prop :=
  error = circuitOpenError provider
  \/ error = LLMRouter.serviceUnavailableError provider.

(** A text that some provider client returned. *)
Definition responseOf (clients : LLMRouter.ProviderClients) (text : string)
    : Prop :=
  exists provider userInput apiKey time,
    fst (clients provider userInput apiKey time) = Normal text.

(** The text of a degraded message that reports an open circuit. *)
Definition unavailableText (text : string) : Prop :=
  exists provider error,
    breakerError provider error
    /\ text = Routes.responseUnavailable provider error.

(** A text behind the notes of the fallback hops that led to it. *)
Inductive chainText (base : string -> Prop) : string -> Prop :=
| chain_base text : base text -> chainText base text
| chain_hop provider fallbackProvider text :
    chainText base text ->
    chainText base
      (Routes.unavailablePrefix provider fallbackProvider +:+ text).

(** What holds of the outcome in the slot of a fan-out call started in
    state [rt]: it carries the sender name of the slot; its text is a
    client's response or the report of an open circuit, behind the notes
    of the hops taken; when every client throws it is such a report; and
    when the provider of the slot answers and its breaker is closed, it
    is that provider's own response. *)
Definition settled (clients : LLMRouter.ProviderClients) (content : string)
    (rt : Runtime) (call : Routes.FanOutCall) (outcome : Storage.Message)
    : Prop :=
  Storage.sender outcome = Routes.callSender call
  /\ (chainText (responseOf clients) (Storage.content outcome)
      \/ chainText unavailableText (Storage.content outcome))
  /\ (allThrow clients -> chainText unavailableText (Storage.content outcome))
  /\ (alwaysAnswers clients (Routes.callProvider call) ->
      state (breakerOf (Routes.callProvider call) rt) = CLOSED ->
      exists time,
        fst (clients (Routes.callProvider call) content (Routes.callApiKey call)
               time) = Normal (Storage.content outcome)
        /\ Storage.llmProvider outcome
           = Some (providerName (Routes.callProvider call))).

(** The model name under which a provider is enabled, and its key. *)
Definition modelName (provider : LLMProvider) : string :=
  match provider with
  | openai => "gpt4"
  | claude => "claude"
  | deepseek => "deepseek"
  | grok => "grok"
  end.

Definition keyOf (keys : Storage.ApiKeys) (provider : LLMProvider)
    : option string :=
  match provider with
  | openai => Storage.openaiKey keys
  | claude => Storage.anthropicKey keys
  | deepseek => Storage.deepseekKey keys
  | grok => Storage.grokKey keys
  end.

(** An enabled provider with credentials. *)
Definition dispatched (enabledModels : list string) (keys : Storage.ApiKeys)
    (provider : LLMProvider) : bool :=
  Routes.hasKey (keyOf keys provider)
  && bool_decide (modelName provider ∈ enabledModels).

(** The confidence computed for a given number of matches. *)
Definition confidenceAt (matches : nat) : float :=
  (numberOfNat matches / 3)%float.

(** The text the last three messages of a discussion are joined to. *)
Definition combinedContent (discussionId : string) (db : Storage.Database)
    : string :=
  join " " (map Storage.content
              (sliceLast 3 (sliceLast 10
                 (Storage.getMessagesByDiscussion discussionId db)))).

(** The breath count of a discussion, a missing row or value counting
    as zero. *)
Definition breathCountOf (discussionId : string) (db : Storage.Database) : Z :=
  match Storage.getDiscussion discussionId db with
  | Some discussion =>
      match Storage.breathCount discussion with
      | Some n => n
      | None => 0
      end
  | None => 0
  end.

(** A breaker whose fields agree with each other at a given time: it
    is closed exactly when fewer failures than the threshold are counted,
    a breaker that is not closed has a last failure, and no failure lies
    in the future. *)
Definition consistent (time : Z) (b : CircuitBreakerState) : Prop :=
  (state b = CLOSED <-> (failures b < failureThreshold)%nat)
  /\ (state b <> CLOSED -> lastFailureTime b <> None)
  /\ (forall t, lastFailureTime b = Some t -> t <= time).

(** Time does not run backwards. *)
Definition forward (call : BreakerCall) : Prop :=
  match call with
  | Wait ms => 0 <= ms
  | _ => True
  end.

(** A call made for the given provider. *)
Definition concerns (p : LLMProvider) (call : BreakerCall) : bool :=
  match call with
  | MayAttempt q | Success q | Failure q => bool_decide (q = p)
  | Wait _ => false
  end.

(** The entry of [getCircuitBreakerStatus] for a provider, read off the
    state as it is. *)
Definition statusEntry (rt : Runtime) (p : LLMProvider)
    : string * BreakerStatus :=
  (providerName p,
   mkBreakerStatus (state (breakerOf p rt)) (failures (breakerOf p rt))
     (lastFailureTime (breakerOf p rt))).

(** The count that [getMemoryStats] reports for a phase, and the breath
    count of the memory stored last. *)
Definition countOf (wanted : SemanticMemory.Phase)
    (d : SemanticMemory.PhaseDistribution) : nat :=
  match wanted with
  | SemanticMemory.plasma => SemanticMemory.plasmaCount d
  | SemanticMemory.gas => SemanticMemory.gasCount d
  | SemanticMemory.liquid => SemanticMemory.liquidCount d
  | SemanticMemory.solid => SemanticMemory.solidCount d
  end.

Definition latestBreath (st : SemanticMemory.Store) : Z :=
  match last (SemanticMemory.memories st) with
  | Some m => SemanticMemory.breathCount (SemanticMemory.metadata m)
  | None => 0
  end.

(** The notes that the fallback hops of a trace put in front of a
    response, outermost first. *)
Fixpoint notesOf (events : list Event) : string :=
  match events with
  | [] => ""
  | EvFallback failedProvider fallback :: rest =>
      Routes.unavailablePrefix failedProvider fallback +:+ notesOf rest
  | _ :: rest => notesOf rest
  end.

(** The provider at the end of a chain: the last substitute, or the
    provider the chain was started for. *)
Definition chainEnd (provider : LLMProvider) (events : list Event)
    : LLMProvider :=
  List.last (fallbacksOf events) provider.

(** A database with rows added to [messages], and a message with
    another text. *)
Definition withMessages (rows : list Storage.Message) (db : Storage.Database)
    : Storage.Database :=
  Storage.mkDatabase (Storage.messages db ++ rows) (Storage.discussions db)
    (Storage.settings db) (Storage.suggestions db).

Definition withContent (text : string) (row : Storage.Message)
    : Storage.Message :=
  Storage.mkMessage (Storage.id row) (Storage.discussionId row) text
    (Storage.sender row) (Storage.llmProvider row) (Storage.createdAt row).

(** A text that the client of the provider returned for this message
    and this key, or the report that the provider's circuit is open. *)
Definition producedBy (clients : LLMRouter.ProviderClients)
    (provider : LLMProvider) (message apiKey text : string) : Prop :=
  (exists time, fst (clients provider message apiKey time) = Normal text)
  \/ exists error,
       breakerError provider error
       /\ text = Routes.responseUnavailable provider error.

(** The user messages of a discussion. *)
Definition userMessagesOf (key : string) (db : Storage.Database)
    : list Storage.Message :=
  List.filter (fun m => bool_decide (Storage.sender m = "user"))
    (Storage.getMessagesByDiscussion key db).

(** The breath count of a discussion row, a missing value counting as
    zero; and what the inline pattern check may do to a row of the table,
    given the row it read when the request came in. *)
Definition rowBreathCount (discussion : Storage.Discussion) : Z :=
  match Storage.breathCount discussion with
  | Some n => n
  | None => 0
  end.

Definition breathUpdate (discussion old new : Storage.Discussion) : Prop :=
  new = old
  \/ (Storage.discussionKey old = Storage.discussionKey discussion
      /\ Storage.discussionKey new = Storage.discussionKey discussion
      /\ Storage.currentPhase new = Storage.currentPhase old
      /\ Storage.breathCount new = Some (rowBreathCount discussion + 1)
      /\ Storage.detectedPatterns new <> []).

(** No settings, no companion configuration, or a companion that is not
    enabled. *)
Definition companionOff (db : Storage.Database) : Prop :=
  match Storage.getSettings db with
  | None => True
  | Some settings =>
      match Storage.companionConfig settings with
      | None => True
      | Some config => Storage.enabled config = false
      end
  end.

(** The periodic insight for a discussion of eight messages. *)
Definition insightAtEight (discussionId : string) (time : Z)
    : CompanionSimple.CompanionMessage :=
  CompanionSimple.mkCompanionMessage ("companion-" +:+ pretty time) discussionId
    (CompanionSimple.insightText 8) "companion" "companion" time None.

(** The pattern tags of a list of results, in order. *)
Definition tagsOf (patterns : list SemanticMemory.PatternResult) : list string :=
  flat_map (fun p => SemanticMemory.patterns (SemanticMemory.resultMetadata p))
    patterns.

(** The environment variable an adapter falls back on. *)
Definition envKeyOf (remotes : Providers.Remotes) (provider : LLMProvider)
    : option string :=
  match provider with
  | openai => Providers.OPENAI_API_KEY remotes
  | claude => Providers.CLAUDE_API_KEY remotes
  | deepseek => Providers.DEEPSEEK_API_KEY remotes
  | grok => None
  end.

End Observe.

(** ** Concrete systems used as witnesses and counterexamples *)

Module Scenario.

Definition metadata : SemanticMemory.Metadata :=
  SemanticMemory.mkMetadata "gpt4" SemanticMemory.plasma 1 [] 0.

Definition memory (content : string) (embedding : list float)
    : SemanticMemory.MemoryItem :=
  SemanticMemory.mkMemoryItem "gpt4-0" content embedding metadata.

(** An embeddings endpoint that maps every text to the same vector. *)
Definition api : SemanticMemory.EmbeddingsAPI :=
  fun _ _ => Normal [[1; 0]%float].

(** A store with [n] memories that match every query; [n] is 1, 2 or 4. *)
Definition oneMatch : SemanticMemory.Store :=
  SemanticMemory.mkStore
    [memory "Vector databases" [1; 0]%float; memory "Cooking" [0; 1]%float] [].

Definition twoMatches : SemanticMemory.Store :=
  SemanticMemory.mkStore
    [memory "Vector databases" [1; 0]%float; memory "Cooking" [0; 1]%float;
     memory "Indexes" [2; 0]%float] [].

Definition fourMatches : SemanticMemory.Store :=
  SemanticMemory.mkStore
    [memory "Vector databases" [1; 0]%float; memory "Indexes" [2; 0]%float;
     memory "Embeddings" [3; 0.125]%float; memory "Search" [1; 0.0625]%float;
     memory "Cooking" [0; 1]%float] [].

Definition userMessage (content : string) : Storage.Message :=
  Storage.mkMessage "message-0" "d1" content "user" None 0.

(** A discussion with three messages, the companion enabled, and
    [autoSuggest] as given. *)
Definition database (autoSuggest : bool) : Storage.Database :=
  Storage.mkDatabase
    [userMessage "How do vector databases work?";
     userMessage "Which index should I use?";
     userMessage "And how do I search it?"]
    [Storage.mkDiscussion "d1" (Some "plasma") (Some 0) []]
    (Some (Storage.mkUserSettings
             (Storage.mkApiKeys (Some "sk-test") None None None)
             (Some (Storage.mkCompanionConfig true autoSuggest))))
    [].

Definition emptyDatabase : Storage.Database :=
  Storage.mkDatabase [] [] None [].

Definition freshRuntime : Runtime := mkRuntime ∅ 0 [].

(** Clients that all fail: OpenAI at once, the others after 15 seconds. *)
Definition failingClients : LLMRouter.ProviderClients :=
  fun provider _ _ _ =>
    match provider with
    | openai => (Throw (newError "OpenAI API error: 500"), 200)
    | _ => (Throw (newError "Claude API error: timeout"), 15000)
    end.

(** OpenAI fails, Claude answers. *)
Definition mixedClients : LLMRouter.ProviderClients :=
  fun provider _ _ _ =>
    match provider with
    | claude => (Normal "Patterns connect.", 800)
    | _ => (Throw (newError "OpenAI API error: 500"), 200)
    end.

Definition twoKeys : Storage.ApiKeys :=
  Storage.mkApiKeys (Some "sk-openai") (Some "sk-anthropic") None None.

(** An operation that fails when started before time 3000 and answers
    from then on. *)
Definition flaky : Operation string :=
  fun time =>
    if time <? 3000 then (Throw (newError "overloaded"), 100)
    else (Normal "done", 100).

(** Remote services that are down, and remote services that answer
    with nothing. *)
Definition downRemotes : Providers.Remotes :=
  Providers.mkRemotes
    (fun _ _ _ => (Throw (newError "connect ECONNREFUSED"), 30))
    (fun _ _ _ => (Throw (newError "connect ECONNREFUSED"), 30))
    (fun _ _ _ => (Normal (Providers.mkFetchResponse false 503 (Normal None)), 30))
    (fun _ _ _ => (Throw (newError "connect ECONNREFUSED"), 30))
    None None None.

Definition emptyRemotes : Providers.Remotes :=
  Providers.mkRemotes
    (fun _ _ _ => (Normal (Some ""), 30))
    (fun _ _ _ => (Normal (Some (Providers.TextBlock "")), 30))
    (fun _ _ _ => (Normal (Providers.mkFetchResponse true 200 (Normal None)), 30))
    (fun _ _ _ => (Normal None, 30))
    None None None.

(** A discussion with two messages and no settings. *)
Definition shortDatabase : Storage.Database :=
  Storage.mkDatabase [userMessage "first"; userMessage "second"]
    [Storage.mkDiscussion "d1" (Some "plasma") (Some 0) []] None [].

(** A discussion with eight messages, the companion enabled, and no key
    for the embeddings. *)
Definition eightMessages : Storage.Database :=
  Storage.mkDatabase (repeat (userMessage "more") 8)
    [Storage.mkDiscussion "d1" (Some "plasma") (Some 0) []]
    (Some (Storage.mkUserSettings (Storage.mkApiKeys None None None None)
             (Some (Storage.mkCompanionConfig true true))))
    [].

(** What the companion says of [database true] with [twoMatches]. *)
Definition suggested : CompanionSimple.CompanionMessage :=
  match fst (CompanionSimple.monitorDiscussion api "d1" 1000 (database true)
               twoMatches) with
  | Some message => message
  | None => CompanionSimple.mkCompanionMessage "" "" "" "" "" 0 None
  end.

End Scenario.

Import Observe.

(** * Properties *)

(** ** The circuit breaker *)

Section Breaker.

Implicit Types (p q : LLMProvider) (rt : Runtime) (b : CircuitBreakerState).

Lemma breakerOf_putBreaker p q b rt :
  breakerOf q (putBreaker p b rt) = if decide (p = q) then b else breakerOf q rt.
Proof.
  unfold breakerOf, putBreaker, setBreakers; simpl.
  destruct (decide (p = q)) as [->|Hne].
  - by rewrite lookup_insert_eq.
  - by rewrite lookup_insert_ne.
Qed.

Lemma putBreaker_putBreaker p b b' rt :
  putBreaker p b' (putBreaker p b rt) = putBreaker p b' rt.
Proof.
  unfold putBreaker, setBreakers; simpl. by rewrite insert_insert_eq.
Qed.

(** Reading a breaker is the same as writing back what was read. *)
Lemma getCircuitBreaker_put p rt :
  getCircuitBreaker p rt = (breakerOf p rt, putBreaker p (breakerOf p rt) rt).
Proof.
  unfold getCircuitBreaker, breakerOf, putBreaker, setBreakers.
  destruct (circuitBreakers rt !! p) as [b|] eqn:Hp; [|reflexivity].
  rewrite insert_id by exact Hp. by destruct rt.
Qed.

Lemma canAttemptRequest_put p rt :
  canAttemptRequest p rt
  = (allows (now rt) (breakerOf p rt),
     putBreaker p (probed (now rt) (breakerOf p rt)) rt).
Proof.
  unfold canAttemptRequest. rewrite getCircuitBreaker_put.
  unfold probed, allows.
  destruct (breakerOf p rt) as [f l []]; simpl; try reflexivity.
  destruct l as [t|]; simpl.
  - destruct (cooldownMs <? now rt - t); [|reflexivity].
    by rewrite putBreaker_putBreaker.
  - by rewrite putBreaker_putBreaker.
Qed.

Lemma recordFailure_put p rt :
  recordFailure p rt = putBreaker p (failed (now rt) (breakerOf p rt)) rt.
Proof.
  unfold recordFailure. rewrite getCircuitBreaker_put.
  by rewrite putBreaker_putBreaker.
Qed.

Lemma recordSuccess_put p rt :
  recordSuccess p rt = putBreaker p (succeeded (breakerOf p rt)) rt.
Proof.
  unfold recordSuccess. rewrite getCircuitBreaker_put.
  by rewrite putBreaker_putBreaker.
Qed.

End Breaker.

Section BreakerTraces.

Implicit Types (p q : LLMProvider) (rt : Runtime) (b : CircuitBreakerState).

Lemma now_putBreaker p b rt : now (putBreaker p b rt) = now rt.
Proof. reflexivity. Qed.

Lemma trace_putBreaker p b rt : trace (putBreaker p b rt) = trace rt.
Proof. reflexivity. Qed.

Lemma breakerOf_elapse p ms rt : breakerOf p (elapse ms rt) = breakerOf p rt.
Proof. reflexivity. Qed.

Lemma breakerOf_logEvent p e rt : breakerOf p (logEvent e rt) = breakerOf p rt.
Proof. reflexivity. Qed.

(** A call other than [recordSuccess] never lowers the failure count,
    and [recordFailure] raises it. *)
Lemma failures_runCall p rt call :
  call <> Success p ->
  (failures (breakerOf p rt)
   + (if bool_decide (call = Failure p) then 1 else 0)
   <= failures (breakerOf p (runCall rt call)))%nat.
Proof.
  intros Hcall. destruct call as [q|q|q|ms]; cbn [runCall].
  - rewrite canAttemptRequest_put; cbn [snd]. rewrite breakerOf_putBreaker.
    rewrite bool_decide_eq_false_2 by discriminate.
    destruct (decide (q = p)) as [->|]; [|lia].
    unfold probed. destruct (state (breakerOf p rt)); try lia.
    destruct (allows _ _); simpl; lia.
  - rewrite recordSuccess_put, breakerOf_putBreaker.
    rewrite bool_decide_eq_false_2 by discriminate.
    destruct (decide (q = p)) as [->|]; [congruence|lia].
  - rewrite recordFailure_put, breakerOf_putBreaker.
    destruct (decide (q = p)) as [->|Hne].
    + rewrite bool_decide_eq_true_2 by reflexivity. simpl. lia.
    + rewrite bool_decide_eq_false_2 by congruence. lia.
  - rewrite bool_decide_eq_false_2 by discriminate.
    rewrite breakerOf_elapse. lia.
Qed.

Lemma failures_runCalls p calls rt :
  Success p ∉ calls ->
  (failures (breakerOf p rt) + failuresIn p calls
   <= failures (breakerOf p (runCalls calls rt)))%nat.
Proof.
  revert rt. induction calls as [|call calls IH]; intros rt Hno.
  - unfold failuresIn; simpl. lia.
  - apply not_elem_of_cons in Hno as [Hcall Hno].
    specialize (IH (runCall rt call) Hno).
    pose proof (failures_runCall p rt call ltac:(congruence)) as Hstep.
    unfold runCalls in *; simpl. unfold failuresIn in *; simpl.
    destruct (bool_decide (call = Failure p)); simpl; lia.
Qed.

(** After the last of at least three failures the breaker is open, and
    the time of its last failure is the current time. *)
Lemma open_after_failures p calls rt :
  Success p ∉ calls ->
  (3 <= failuresIn p calls)%nat ->
  last calls = Some (Failure p) ->
  state (breakerOf p (runCalls calls rt)) = OPEN
  /\ lastFailureTime (breakerOf p (runCalls calls rt))
     = Some (now (runCalls calls rt)).
Proof.
  intros Hno Hcount Hlast.
  destruct (last_Some calls (Failure p)) as [[pre ->] _]; [exact Hlast|].
  unfold runCalls. rewrite fold_left_app. simpl.
  fold (runCalls pre rt). set (rt1 := runCalls pre rt).
  assert (Hpre : (2 <= failures (breakerOf p rt1))%nat).
  { pose proof (failures_runCalls p pre rt) as H.
    unfold failuresIn in Hcount. rewrite List.filter_app, length_app in Hcount.
    simpl in Hcount. rewrite bool_decide_eq_true_2 in Hcount by reflexivity.
    simpl in Hcount. unfold failuresIn in H. subst rt1.
    assert (Success p ∉ pre) by (intros Hin; apply Hno; set_solver).
    specialize (H ltac:(assumption)). lia. }
  rewrite recordFailure_put, breakerOf_putBreaker.
  rewrite decide_True by reflexivity. unfold failed; simpl.
  split; [|reflexivity].
  destruct (failures (breakerOf p rt1)) as [|[|n]]; try lia. reflexivity.
Qed.

(** While the breaker is open and the cooldown has not elapsed, every
    call is refused and leaves the breaker as it is. *)
Lemma pollAfter_refused p waits : forall rt t,
  state (breakerOf p rt) = OPEN ->
  lastFailureTime (breakerOf p rt) = Some t ->
  Forall (fun w => 0 <= w) waits ->
  now rt - t + total waits <= cooldownMs ->
  fst (pollAfter p waits rt) = repeat false (length waits)
  /\ breakerOf p (snd (pollAfter p waits rt)) = breakerOf p rt
  /\ now (snd (pollAfter p waits rt)) = now rt + total waits.
Proof.
  induction waits as [|w waits IH]; intros rt t Hopen Hlast Hpos Hsum; simpl.
  - repeat split. lia.
  - inversion Hpos as [|? ? Hw Hrest]; subst. simpl in Hsum.
    assert (Htot : 0 <= total waits).
    { clear -Hrest. induction Hrest; simpl; lia. }
    rewrite canAttemptRequest_put, breakerOf_elapse.
    assert (Hallow : allows (now (elapse w rt)) (breakerOf p rt) = false).
    { unfold allows. rewrite Hopen, Hlast. simpl. apply Z.ltb_ge. lia. }
    assert (Hprobe : probed (now (elapse w rt)) (breakerOf p rt)
                     = breakerOf p rt).
    { unfold probed. by rewrite Hopen, Hallow. }
    rewrite Hallow, Hprobe.
    set (rt1 := putBreaker p (breakerOf p rt) (elapse w rt)).
    assert (Hb1 : breakerOf p rt1 = breakerOf p rt).
    { subst rt1. rewrite breakerOf_putBreaker, decide_True by reflexivity.
      reflexivity. }
    destruct (IH rt1 t) as (Hans & Hb & Hnow).
    + by rewrite Hb1.
    + by rewrite Hb1.
    + exact Hrest.
    + subst rt1; simpl. lia.
    + destruct (pollAfter p waits rt1) as [answers rt2]; simpl in *.
      rewrite Hans, Hb, Hb1, Hnow. subst rt1; simpl. repeat split. lia.
Qed.

End BreakerTraces.

(** C7: for every provider, after any sequence of calls that contains at
    least three [recordFailure] for it, no [recordSuccess] for it, and
    ends with one of its failures, [canAttemptRequest] answers false
    immediately and on every later call made no more than the cooldown
    (30000 ms) after that last failure; the first call made after more
    than the cooldown answers true. *)
Theorem breaker_refuses_until_cooldown
    (p : LLMProvider) (calls : list BreakerCall) (rt : Runtime)
    (waits : list Z) :
  Success p ∉ calls ->
  (3 <= failuresIn p calls)%nat ->
  last calls = Some (Failure p) ->
  Forall (fun w => 0 <= w) waits ->
  total waits <= cooldownMs ->
  fst (pollAfter p waits (runCalls calls rt)) = repeat false (length waits)
  /\ forall w, cooldownMs < total waits + w ->
       fst (canAttemptRequest p
              (elapse w (snd (pollAfter p waits (runCalls calls rt))))) = true.
Proof.
  intros Hno Hcount Hlast Hpos Hsum.
  destruct (open_after_failures p calls rt Hno Hcount Hlast) as [Hopen Htime].
  destruct (pollAfter_refused p waits (runCalls calls rt) _ Hopen Htime Hpos)
    as (Hans & Hb & Hnow); [lia|].
  split; [exact Hans|].
  intros w Hw. rewrite canAttemptRequest_put; simpl.
  rewrite breakerOf_elapse, Hb. unfold allows. rewrite Hopen, Htime.
  apply Z.ltb_lt. rewrite Hnow. lia.
Qed.

Lemma breaker_refuses_until_cooldown_witness :
  fst (pollAfter openai [0; 10000; 20000]
         (runCalls [Failure openai; Wait 500; Failure openai; MayAttempt openai;
                    Failure openai]
            (mkRuntime ∅ 0 [])))
  = [false; false; false]
  /\ fst (canAttemptRequest openai
            (elapse 1
               (snd (pollAfter openai [0; 10000; 20000]
                       (runCalls [Failure openai; Wait 500; Failure openai;
                                  MayAttempt openai; Failure openai]
                          (mkRuntime ∅ 0 [])))))) = true.
Proof.
  destruct (breaker_refuses_until_cooldown openai
              [Failure openai; Wait 500; Failure openai; MayAttempt openai;
               Failure openai]
              (mkRuntime ∅ 0 []) [0; 10000; 20000]) as [H1 H2].
  - intros Hin. repeat (apply elem_of_cons in Hin as [Hin|Hin]; [discriminate|]).
    by apply elem_of_nil in Hin.
  - vm_compute. lia.
  - reflexivity.
  - repeat constructor; lia.
  - vm_compute. discriminate.
  - split; [exact H1|]. apply H2. vm_compute. reflexivity.
Defined.

(** ** The retry executor *)

Section Retry.

Context {T : Type} (fn : Operation T) (p : LLMProvider).

Implicit Types (rt : Runtime) (b : CircuitBreakerState).

Lemma calculateBackoffDelay_bounds attempt :
  0 < calculateBackoffDelay attempt <= maxDelayMs.
Proof.
  unfold calculateBackoffDelay, baseDelayMs, maxDelayMs.
  assert (0 < 2 ^ Z.of_nat attempt) by (apply Z.pow_pos_nonneg; lia). lia.
Qed.

Lemma calculateBackoffDelay_mono a1 a2 :
  (a1 <= a2)%nat -> calculateBackoffDelay a1 <= calculateBackoffDelay a2.
Proof.
  intros Hle. unfold calculateBackoffDelay, baseDelayMs.
  assert (2 ^ Z.of_nat a1 <= 2 ^ Z.of_nat a2)
    by (apply Z.pow_le_mono_r; lia).
  lia.
Qed.

Lemma breakerOf_retryCatch q attempt rt :
  breakerOf q (retryCatch p attempt rt)
  = if decide (p = q) then failed (now rt) (breakerOf p rt) else breakerOf q rt.
Proof.
  unfold retryCatch. rewrite recordFailure_put.
  destruct (attempt <? maxRetries)%nat; unfold sleep;
    rewrite ?breakerOf_elapse, ?breakerOf_logEvent, breakerOf_putBreaker;
    by destruct (decide (p = q)) as [->|].
Qed.

Lemma now_retryCatch attempt rt :
  now (retryCatch p attempt rt) = now rt + total (catchSleep attempt).
Proof.
  unfold retryCatch, catchSleep. rewrite recordFailure_put.
  destruct (attempt <? maxRetries)%nat; simpl; lia.
Qed.

Lemma trace_retryCatch attempt rt :
  trace (retryCatch p attempt rt)
  = trace rt ++ map EvSleep (catchSleep attempt).
Proof.
  unfold retryCatch, catchSleep. rewrite recordFailure_put.
  destruct (attempt <? maxRetries)%nat; simpl; [reflexivity|].
  by rewrite app_nil_r.
Qed.

Lemma total_catchSleep attempt : 0 <= total (catchSleep attempt) <= cooldownMs.
Proof.
  unfold catchSleep. pose proof (calculateBackoffDelay_bounds attempt).
  unfold maxDelayMs, cooldownMs in *.
  destruct (attempt <? maxRetries)%nat; simpl; lia.
Qed.

(** One iteration of the loop. *)
Lemma retryLoop_step remaining attempt lastError rt :
  retryLoop fn p (S remaining) attempt lastError rt
  = let rt1 := putBreaker p (probed (now rt) (breakerOf p rt)) rt in
    if allows (now rt) (breakerOf p rt) then
      let rt2 := elapse (snd (fn (now rt))) (logEvent (EvInvoke p attempt) rt1) in
      match fst (fn (now rt)) with
      | Normal result => (Normal result, recordSuccess p rt2)
      | Throw error =>
          retryLoop fn p remaining (S attempt) (Some error)
            (retryCatch p attempt rt2)
      end
    else
      retryLoop fn p remaining (S attempt) (Some (circuitOpenError p))
        (retryCatch p attempt rt1).
Proof.
  cbn [retryLoop]. rewrite canAttemptRequest_put.
  destruct (allows (now rt) (breakerOf p rt)); [|reflexivity].
  rewrite now_putBreaker. by destruct (fn (now rt)) as [[v|e] d].
Qed.

Lemma cooling_refused rt :
  cooling p rt ->
  allows (now rt) (breakerOf p rt) = false
  /\ probed (now rt) (breakerOf p rt) = breakerOf p rt.
Proof.
  intros (Hopen & t & Hlast & Ht).
  assert (Hallow : allows (now rt) (breakerOf p rt) = false).
  { unfold allows. rewrite Hopen, Hlast. apply Z.ltb_ge. lia. }
  split; [exact Hallow|]. unfold probed. by rewrite Hopen, Hallow.
Qed.

Lemma refused_cooling rt :
  fst (canAttemptRequest p rt) = false -> cooling p rt.
Proof.
  rewrite canAttemptRequest_put; simpl. unfold allows, cooling.
  destruct (state (breakerOf p rt)); try discriminate.
  destruct (lastFailureTime (breakerOf p rt)) as [t|]; [|discriminate].
  intros Ht%Z.ltb_ge. split; [reflexivity|]. exists t. split; [reflexivity|lia].
Qed.

(** Once an attempt is refused, every remaining iteration is refused
    too: each one records a failure and sleeps, the operation is not
    invoked again, and the loop ends with the circuit error. *)
Lemma retryLoop_refused remaining : forall attempt lastError rt,
  cooling p rt ->
  let result := retryLoop fn p remaining attempt lastError rt in
  fst result
  = Throw (match remaining, lastError with
           | O, Some e => e
           | O, None => retriesExhaustedError p
           | S _, _ => circuitOpenError p
           end)
  /\ failures (breakerOf p (snd result))
     = (failures (breakerOf p rt) + remaining)%nat
  /\ trace (snd result)
     = trace rt ++ map EvSleep (backoffSchedule remaining attempt)
  /\ now (snd result) = now rt + total (backoffSchedule remaining attempt)
  /\ (remaining <> O ->
      state (breakerOf p (snd result)) = OPEN
      /\ exists last,
           lastFailureTime (breakerOf p (snd result)) = Some last
           /\ now (snd result) = last + total (catchSleep (attempt + remaining - 1))).
Proof.
  induction remaining as [|remaining IH]; intros attempt lastError rt Hcool.
  - simpl. rewrite app_nil_r.
    split; [by destruct lastError|]. repeat split; try lia; done.
  - pose proof (cooling_refused rt Hcool) as [Hallow Hprobe].
    cbv zeta. rewrite retryLoop_step. cbv zeta. rewrite Hallow, Hprobe.
    set (rt1 := putBreaker p (breakerOf p rt) rt).
    set (rt2 := retryCatch p attempt rt1).
    assert (Hb1 : breakerOf p rt1 = breakerOf p rt).
    { subst rt1. by rewrite breakerOf_putBreaker, decide_True. }
    assert (Hb2 : breakerOf p rt2 = failed (now rt) (breakerOf p rt)).
    { subst rt2. rewrite breakerOf_retryCatch, decide_True by reflexivity.
      by rewrite Hb1. }
    assert (Hn2 : now rt2 = now rt + total (catchSleep attempt)).
    { subst rt2. by rewrite now_retryCatch. }
    assert (Hopen2 : state (breakerOf p rt2) = OPEN).
    { rewrite Hb2. unfold failed; cbn [state]. pose proof Hcool as [-> _].
      by destruct (failureThreshold <=? S (failures (breakerOf p rt)))%nat. }
    assert (Hcool2 : cooling p rt2).
    { split; [exact Hopen2|]. exists (now rt). rewrite Hb2, Hn2.
      split; [reflexivity|]. pose proof (total_catchSleep attempt). lia. }
    specialize (IH (S attempt) (Some (circuitOpenError p)) rt2 Hcool2).
    cbv zeta in IH. destruct IH as (Hres & Hfail & Htrace & Hnow & Hlast).
    split; [|split; [|split; [|split]]].
    + rewrite Hres. by destruct remaining.
    + rewrite Hfail, Hb2. unfold failed; simpl. lia.
    + rewrite Htrace. subst rt2. rewrite trace_retryCatch. subst rt1.
      rewrite trace_putBreaker. cbn [backoffSchedule].
      by rewrite map_app, app_assoc.
    + rewrite Hnow, Hn2. cbn [backoffSchedule].
      clear. induction (catchSleep attempt); simpl; lia.
    + intros _. destruct remaining as [|remaining].
      * simpl. split; [exact Hopen2|]. exists (now rt).
        rewrite Hb2, Hn2. split; [reflexivity|].
        by replace (attempt + 1 - 1)%nat with attempt by lia.
      * destruct Hlast as [Ho (last & Hl & Hn)]; [done|].
        split; [exact Ho|]. exists last. split; [exact Hl|].
        rewrite Hn. by replace (S attempt + S remaining - 1)%nat
                        with (attempt + S (S remaining) - 1)%nat by lia.
Qed.

End Retry.

(** The circuit error has no code of its own in the taxonomy: it is
    recognised by its message. *)
Lemma parseError_circuitOpen p rt :
  llmCode (parseError (circuitOpenError p) p None rt) = UNKNOWN
  /\ message (circuitOpenError p) = "Circuit breaker OPEN for " +:+ providerName p.
Proof. by destruct p. Qed.

(** C1: when [canAttemptRequest] refuses an attempt, [retryWithBackoff]
    does end with the circuit error and never invokes the operation, but
    not at once and not for free: the [throw] is caught by the loop's own
    [catch], so every remaining iteration calls [recordFailure] (four more
    failures, the time of the last failure moved forward) and the backoff
    sleeps of 1000, 2000 and 4000 ms are served. *)
Theorem retry_counts_refused_attempts {T} (fn : Operation T)
    (p : LLMProvider) (rt : Runtime) :
  fst (canAttemptRequest p rt) = false ->
  let result := retryWithBackoff fn p rt in
  fst result = Throw (circuitOpenError p)
  /\ failures (breakerOf p (snd result)) = (failures (breakerOf p rt) + 4)%nat
  /\ lastFailureTime (breakerOf p (snd result)) = Some (now rt + 7000)
  /\ trace (snd result) = trace rt ++ [EvSleep 1000; EvSleep 2000; EvSleep 4000]
  /\ now (snd result) = now rt + 7000.
Proof.
  intros Hrefused%refused_cooling.
  pose proof (retryLoop_refused fn p 4 0 None rt Hrefused) as H.
  cbv zeta in *. unfold retryWithBackoff. change (S maxRetries) with 4%nat.
  destruct H as (Hres & Hfail & Htrace & Hnow & Hlast).
  destruct Hlast as (_ & last & Hl & Hn); [done|].
  change (total (backoffSchedule 4 0)) with 7000 in Hnow.
  change (total (catchSleep (0 + 4 - 1))) with 0 in Hn.
  repeat split; try assumption.
  rewrite Hl. f_equal. lia.
Qed.

Lemma retry_counts_refused_attempts_witness :
  let rt := mkRuntime {[ openai := mkBreaker 3 (Some 0) OPEN ]} 1000 [] in
  let result :=
    retryWithBackoff (fun _ => (Normal "never called", 0)) openai rt in
  fst result = Throw (circuitOpenError openai)
  /\ failures (breakerOf openai (snd result)) = 7%nat
  /\ lastFailureTime (breakerOf openai (snd result)) = Some 8000
  /\ trace (snd result) = [EvSleep 1000; EvSleep 2000; EvSleep 4000]
  /\ now (snd result) = 8000.
Proof.
  exact (retry_counts_refused_attempts
           (fun _ => (Normal "never called", 0)) openai
           (mkRuntime {[ openai := mkBreaker 3 (Some 0) OPEN ]} 1000 [])
           eq_refl).
Defined.

Section RetryFailing.

Context {T : Type} (fn : Operation T) (p : LLMProvider).
Hypothesis fn_fails : alwaysFails fn.

Lemma fn_throws t : exists error, fst (fn t) = Throw error.
Proof.
  specialize (fn_fails t). destruct (fst (fn t)) as [v|e]; [discriminate|].
  by exists e.
Qed.

Lemma invocationsOf_app l1 l2 :
  invocationsOf (l1 ++ l2) = (invocationsOf l1 + invocationsOf l2)%nat.
Proof. unfold invocationsOf. by rewrite List.filter_app, length_app. Qed.

Lemma sleepsOf_app l1 l2 : sleepsOf (l1 ++ l2) = sleepsOf l1 ++ sleepsOf l2.
Proof.
  induction l1 as [|[q a|ms|q r] l1 IH]; simpl;
    [reflexivity|exact IH| |exact IH].
  by rewrite IH.
Qed.

Lemma sleepsOf_sleeps l : sleepsOf (map EvSleep l) = l.
Proof. induction l as [|x l IH]; simpl; [reflexivity|by rewrite IH]. Qed.

Lemma invocationsOf_sleeps l : invocationsOf (map EvSleep l) = 0%nat.
Proof. induction l as [|x l IH]; [reflexivity|exact IH]. Qed.

(** A failed invocation at iteration [attempt], in a state whose breaker
    let it through unchanged, leaves the breaker [tripped] for the next
    iteration. *)
Lemma tripped_after_failure attempt rt b elapsed :
  (attempt <= failures b)%nat ->
  let rt1 := putBreaker p b rt in
  let rt2 :=
    retryCatch p attempt (elapse elapsed (logEvent (EvInvoke p attempt) rt1)) in
  tripped p (S attempt) rt2
  /\ trace rt2 = trace rt ++ EvInvoke p attempt :: map EvSleep (catchSleep attempt)
  /\ breakerOf p rt2 = failed (now rt + elapsed) b.
Proof.
  intros Hcount rt1 rt2.
  assert (Hb2 : breakerOf p rt2 = failed (now rt + elapsed) b).
  { subst rt2 rt1. rewrite breakerOf_retryCatch, decide_True by reflexivity.
    rewrite breakerOf_elapse, breakerOf_logEvent, breakerOf_putBreaker.
    by rewrite decide_True. }
  assert (Hn2 : now rt2 = now rt + elapsed + total (catchSleep attempt)).
  { subst rt2 rt1. by rewrite now_retryCatch. }
  split; [|split; [|exact Hb2]].
  - unfold tripped. rewrite Hb2, Hn2.
    unfold failed; cbn [failures lastFailureTime state].
    split; [lia|]. split.
    + exists (now rt + elapsed). split; [reflexivity|].
      pose proof (total_catchSleep attempt). lia.
    + intros Hth. apply Nat.leb_le in Hth. unfold failureThreshold in *.
      by rewrite Hth.
  - subst rt2 rt1. rewrite trace_retryCatch. simpl.
    by rewrite <- app_assoc.
Qed.

(** From the second iteration on: at most one invocation per iteration
    before the last, none in the last, and the circuit error at the end. *)
Lemma retryLoop_failing remaining : forall attempt lastError rt,
  tripped p attempt rt ->
  (attempt + remaining = 4)%nat ->
  let result := retryLoop fn p remaining attempt lastError rt in
  exists added,
    trace (snd result) = trace rt ++ added
    /\ (invocationsOf added <= 3 - attempt)%nat
    /\ (state (breakerOf p rt) = CLOSED ->
        failures (breakerOf p rt) = attempt ->
        invocationsOf added = (3 - attempt)%nat)
    /\ sleepsOf added = backoffSchedule remaining attempt
    /\ (remaining <> O -> fst result = Throw (circuitOpenError p)).
Proof.
  induction remaining as [|remaining IH];
    intros attempt lastError rt Htrip Hsum.
  - exists []. simpl. rewrite app_nil_r.
    repeat split; try done; try lia;
      intros; unfold invocationsOf; simpl; lia.
  - cbv zeta. rewrite retryLoop_step. cbv zeta.
    destruct Htrip as (Hcount & (t & Hlast & Ht) & Hopen).
    destruct (allows (now rt) (breakerOf p rt)) eqn:Hallow.
    + (* the attempt goes through, and fails *)
      assert (Hstate : state (breakerOf p rt) <> OPEN).
      { intros Ho. unfold allows in Hallow. rewrite Ho, Hlast in Hallow.
        apply Z.ltb_lt in Hallow. lia. }
      assert (Hprobe : probed (now rt) (breakerOf p rt) = breakerOf p rt).
      { unfold probed. by destruct (state (breakerOf p rt)). }
      assert (Hbelow : (failures (breakerOf p rt) < 3)%nat).
      { destruct (Nat.lt_ge_cases (failures (breakerOf p rt)) 3);
          [assumption|]. by destruct Hstate; apply Hopen. }
      rewrite Hprobe. destruct (fn_throws (now rt)) as [error ->].
      destruct (tripped_after_failure attempt rt (breakerOf p rt)
                  (snd (fn (now rt))) Hcount) as (Htrip2 & Htrace2 & Hb2).
      destruct (IH (S attempt) (Some error) _ Htrip2 ltac:(lia))
        as (added & Htrace & Hmax & Hexact & Hsleeps & Hres).
      exists (EvInvoke p attempt :: map EvSleep (catchSleep attempt) ++ added).
      split; [|split; [|split; [|split]]].
      * rewrite Htrace, Htrace2. by rewrite <- app_assoc.
      * change (EvInvoke p attempt :: ?l) with ([EvInvoke p attempt] ++ l).
        rewrite !invocationsOf_app, invocationsOf_sleeps.
        change (invocationsOf [EvInvoke p attempt]) with 1%nat. lia.
      * intros Hclosed Hfail.
        change (EvInvoke p attempt :: ?l) with ([EvInvoke p attempt] ++ l).
        rewrite !invocationsOf_app, invocationsOf_sleeps.
        change (invocationsOf [EvInvoke p attempt]) with 1%nat.
        destruct (decide (attempt = 2%nat)) as [->|Hne]; [lia|].
        rewrite Hexact; [lia| |].
        -- rewrite Hb2. unfold failed; cbn [failures lastFailureTime state]. rewrite Hclosed.
           rewrite (proj2 (Nat.leb_gt _ _)); [reflexivity|].
           unfold failureThreshold. lia.
        -- rewrite Hb2. unfold failed; cbn [failures lastFailureTime state]. lia.
      * change (EvInvoke p attempt :: ?l) with ([EvInvoke p attempt] ++ l).
        rewrite !sleepsOf_app, sleepsOf_sleeps, Hsleeps. reflexivity.
      * intros _. apply Hres. lia.
    + (* the attempt is refused, and so are all the later ones *)
      assert (Hcool : cooling p rt).
      { unfold allows in Hallow. unfold cooling.
        destruct (state (breakerOf p rt)); try discriminate.
        split; [reflexivity|]. exists t. by split. }
      pose proof (cooling_refused p rt Hcool) as [_ Hprobe].
      pose proof (retryLoop_refused fn p (S remaining) attempt lastError rt
                    Hcool) as Href.
      cbv zeta in Href. rewrite retryLoop_step in Href. cbv zeta in Href.
      rewrite Hallow in Href.
      destruct Href as (Hres & _ & Htrace & _).
      exists (map EvSleep (backoffSchedule (S remaining) attempt)).
      split; [exact Htrace|]. rewrite invocationsOf_sleeps, sleepsOf_sleeps.
      split; [lia|]. split; [|split; [reflexivity|by intros _]].
      intros Hclosed. destruct Hcool as [Ho _]. congruence.
Qed.

End RetryFailing.




(** ** Numbers *)

Section Numbers.

Implicit Types (x y : float).

Lemma SF2Prim_nan : SF2Prim S754_nan = nan.
Proof. reflexivity. Qed.

Lemma float_of_spec x : Prim2SF x = S754_nan -> x = nan.
Proof. intros H. by rewrite <- (SF2Prim_Prim2SF x), H. Qed.

Lemma add_nan_r x : (x + nan)%float = nan.
Proof.
  apply float_of_spec. rewrite add_spec.
  change (Prim2SF nan) with S754_nan. by destruct (Prim2SF x).
Qed.

Lemma add_nan_l x : (nan + x)%float = nan.
Proof. apply float_of_spec. by rewrite add_spec. Qed.

Lemma mul_nan_r x : (x * nan)%float = nan.
Proof.
  apply float_of_spec. rewrite mul_spec.
  change (Prim2SF nan) with S754_nan. by destruct (Prim2SF x).
Qed.

Lemma div_nan_l x : (nan / x)%float = nan.
Proof. apply float_of_spec. by rewrite div_spec. Qed.

Lemma leb_nan_r x : (x <=? nan)%float = false.
Proof.
  rewrite leb_spec. change (Prim2SF nan) with S754_nan.
  unfold SFleb. by destruct (Prim2SF x).
Qed.

Lemma is_zero_spec x :
  PrimFloat.is_zero x = true -> exists s, Prim2SF x = S754_zero s.
Proof.
  unfold PrimFloat.is_zero. rewrite FloatAxioms.eqb_spec.
  change (Prim2SF 0) with (S754_zero false).
  destruct (Prim2SF x) as [s|s| |s m e]; try destruct s; try discriminate;
    intros _; eauto.
Qed.

Lemma zeroOrNaN_mul_l x y :
  zeroOrNaN (Prim2SF x) = true -> zeroOrNaN (Prim2SF (x * y)) = true.
Proof.
  rewrite mul_spec. destruct (Prim2SF x); try discriminate;
    by destruct (Prim2SF y).
Qed.

Lemma zeroOrNaN_mul_r x y :
  zeroOrNaN (Prim2SF y) = true -> zeroOrNaN (Prim2SF (x * y)) = true.
Proof.
  rewrite mul_spec. destruct (Prim2SF y); try discriminate;
    by destruct (Prim2SF x).
Qed.

Lemma zeroOrNaN_add x y :
  zeroOrNaN (Prim2SF x) = true -> zeroOrNaN (Prim2SF y) = true ->
  zeroOrNaN (Prim2SF (x + y)) = true.
Proof.
  rewrite add_spec.
  destruct (Prim2SF x) as [[]| | |]; try discriminate;
    destruct (Prim2SF y) as [[]| | |]; try discriminate; reflexivity.
Qed.

Lemma zeroOrNaN_sqrt x :
  zeroOrNaN (Prim2SF x) = true -> zeroOrNaN (Prim2SF (PrimFloat.sqrt x)) = true.
Proof. rewrite sqrt_spec. by destruct (Prim2SF x). Qed.

Lemma div_zeroOrNaN x y :
  zeroOrNaN (Prim2SF x) = true -> zeroOrNaN (Prim2SF y) = true ->
  (x / y)%float = nan.
Proof.
  intros Hx Hy. apply float_of_spec. rewrite div_spec.
  destruct (Prim2SF x); try discriminate;
    destruct (Prim2SF y); try discriminate; reflexivity.
Qed.

End Numbers.

(** ** Cosine similarity *)

Section Cosine.

Implicit Types (a b : list float).

Lemma reduceFrom_nan (f : float -> float -> nat -> float) a :
  (forall val i, f nan val i = nan) ->
  forall i, reduceFrom f i a nan = nan.
Proof.
  intros Hf. induction a as [|x a IH]; intros i; simpl; [reflexivity|].
  by rewrite Hf.
Qed.

(** The dot product loop reads past the end of a shorter [b]. *)
Lemma dotProduct_short a b : forall i acc,
  (i <= length b < i + length a)%nat ->
  reduceFrom (fun sum val j => sum + val * numberAt b j)%float i a acc = nan.
Proof.
  induction a as [|x a IH]; intros i acc Hlen; simpl in *.
  - lia.
  - destruct (decide (length b <= i)%nat) as [Hout|Hin].
    + replace (numberAt b i) with nan
        by (unfold numberAt; by rewrite lookup_ge_None_2).
      rewrite mul_nan_r, add_nan_r. apply reduceFrom_nan.
      intros val j. apply add_nan_l.
    + apply IH. lia.
Qed.

(** On the components that both vectors have, the loop computes the dot
    product; what [b] has beyond the length of [a] is never read. *)
Lemma dotProduct_paired a : forall b extra seen acc,
  length a = length b ->
  reduceFrom (fun sum val j => sum + val * numberAt (seen ++ b ++ extra) j)%float
    (length seen) a acc
  = fold_left (fun sum xy => sum + fst xy * snd xy)%float (combine a b) acc.
Proof.
  induction a as [|x a IH]; intros [|y b] extra seen acc Hlen;
    simpl in *; try done.
  injection Hlen as Hlen.
  replace (numberAt (seen ++ y :: b ++ extra) (length seen)) with y.
  - specialize (IH b extra (seen ++ [y]) (acc + x * y)%float Hlen).
    rewrite length_app in IH; simpl in IH.
    replace (length seen + 1)%nat with (S (length seen)) in IH by lia.
    rewrite <- IH. by rewrite <- app_assoc.
  - unfold numberAt. by rewrite list_lookup_middle.
Qed.

Lemma squares_reduce a : forall i acc,
  reduceFrom (fun sum val _ => sum + val * val)%float i a acc
  = fold_left (fun sum x => sum + x * x)%float a acc.
Proof. induction a as [|x a IH]; intros i acc; simpl; [reflexivity|apply IH]. Qed.

Lemma magnitude_norm a :
  PrimFloat.sqrt (reduce (fun sum val _ => sum + val * val)%float a 0%float)
  = norm a.
Proof. unfold reduce, norm. by rewrite squares_reduce. Qed.

Lemma squares_zero a : forall acc,
  zeroVector a -> zeroOrNaN (Prim2SF acc) = true ->
  zeroOrNaN (Prim2SF (fold_left (fun sum x => sum + x * x)%float a acc)) = true.
Proof.
  induction a as [|x a IH]; intros acc Hzero Hacc; simpl; [exact Hacc|].
  inversion Hzero as [|? ? Hx Ha]; subst. apply IH; [exact Ha|].
  apply zeroOrNaN_add; [exact Hacc|]. apply zeroOrNaN_mul_l.
  destruct (is_zero_spec x Hx) as [s ->]. reflexivity.
Qed.

Lemma norm_zero a : zeroVector a -> zeroOrNaN (Prim2SF (norm a)) = true.
Proof.
  intros Hzero. unfold norm. apply zeroOrNaN_sqrt.
  by apply squares_zero.
Qed.

Lemma dotProduct_zero_l a b : forall i acc,
  zeroVector a -> zeroOrNaN (Prim2SF acc) = true ->
  zeroOrNaN
    (Prim2SF (reduceFrom (fun sum val j => sum + val * numberAt b j)%float
                i a acc)) = true.
Proof.
  induction a as [|x a IH]; intros i acc Hzero Hacc; simpl; [exact Hacc|].
  inversion Hzero as [|? ? Hx Ha]; subst. apply IH; [exact Ha|].
  apply zeroOrNaN_add; [exact Hacc|]. apply zeroOrNaN_mul_l.
  destruct (is_zero_spec x Hx) as [s ->]. reflexivity.
Qed.

Lemma numberAt_zero b i :
  zeroVector b -> zeroOrNaN (Prim2SF (numberAt b i)) = true.
Proof.
  intros Hzero. unfold numberAt. destruct (b !! i) as [y|] eqn:Hy; [|reflexivity].
  apply list_elem_of_lookup_2 in Hy. unfold zeroVector in Hzero.
  rewrite List.Forall_forall in Hzero.
  destruct (is_zero_spec y) as [s ->]; [|reflexivity].
  by apply Hzero, list_elem_of_In.
Qed.

Lemma dotProduct_zero_r a b : forall i acc,
  zeroVector b -> zeroOrNaN (Prim2SF acc) = true ->
  zeroOrNaN
    (Prim2SF (reduceFrom (fun sum val j => sum + val * numberAt b j)%float
                i a acc)) = true.
Proof.
  induction a as [|x a IH]; intros i acc Hzero Hacc; simpl; [exact Hacc|].
  apply IH; [exact Hzero|].
  apply zeroOrNaN_add; [exact Hacc|]. by apply zeroOrNaN_mul_r, numberAt_zero.
Qed.

End Cosine.

(** C5 (as the code has it): [cosineSimilarity] computes
    dot(a,b) / (|a| * |b|) and never raises.  When [b] is shorter than [a],
    or when either vector is a zero vector, the result is NaN; when [b] is
    longer than [a], its extra components are left out of the dot product
    but counted in its norm.  A NaN similarity is not [>=] any threshold,
    so [findPatterns] drops such a record without a word. *)
Theorem cosineSimilarity_never_raises (a b : list float) :
  ((length b < length a)%nat -> SemanticMemory.cosineSimilarity a b = nan)
  /\ (zeroVector a \/ zeroVector b -> SemanticMemory.cosineSimilarity a b = nan)
  /\ (forall extra,
        length a = length b ->
        SemanticMemory.cosineSimilarity a (b ++ extra)
        = (dot a b / (norm a * norm (b ++ extra)))%float)
  /\ (forall threshold, (threshold <=? nan)%float = false).
Proof.
  unfold SemanticMemory.cosineSimilarity. rewrite !magnitude_norm.
  split; [|split; [|split]].
  - intros Hshort. unfold reduce. rewrite dotProduct_short by (simpl; lia).
    apply div_nan_l.
  - intros Hzero. apply div_zeroOrNaN.
    + destruct Hzero as [Ha|Hb].
      * by apply dotProduct_zero_l.
      * by apply dotProduct_zero_r.
    + destruct Hzero as [Ha|Hb].
      * by apply zeroOrNaN_mul_l, norm_zero.
      * by apply zeroOrNaN_mul_r, norm_zero.
  - intros extra Hlen. rewrite magnitude_norm. unfold reduce, dot.
    by rewrite <- (dotProduct_paired a b extra [] 0%float Hlen).
  - apply leb_nan_r.
Qed.

Lemma cosineSimilarity_never_raises_witness :
  SemanticMemory.cosineSimilarity [1; 0; 5]%float [1; 0]%float = nan
  /\ SemanticMemory.cosineSimilarity [0; 0]%float [1; 0]%float = nan
  /\ SemanticMemory.cosineSimilarity [1; 0]%float ([1; 0] ++ [5])%float
     = (dot [1; 0] [1; 0] / (norm [1; 0] * norm ([1; 0] ++ [5])))%float.
Proof.
  destruct (cosineSimilarity_never_raises [1; 0; 5]%float [1; 0]%float)
    as (Hshort & _).
  destruct (cosineSimilarity_never_raises [0; 0]%float [1; 0]%float)
    as (_ & Hzero & _).
  destruct (cosineSimilarity_never_raises [1; 0]%float [1; 0]%float)
    as (_ & _ & Hlong & _).
  split; [apply Hshort; simpl; lia|]. split.
  - apply Hzero. left. repeat constructor.
  - apply Hlong. reflexivity.
Defined.

(** C5, as stated, fails: vectors of different lengths and a zero vector
    are compared without any error.  A three-dimensional stored vector is
    scored against a two-dimensional query on its first two components
    and, at 0.992, is returned as a match by [findPatterns]; a zero vector
    scores NaN. *)
Lemma cosineSimilarity_counterexample :
  let api : SemanticMemory.EmbeddingsAPI := fun _ _ => Normal [[1; 0]%float] in
  let memory embedding :=
    SemanticMemory.mkMemoryItem "m" "text" embedding
      (SemanticMemory.mkMetadata "gpt4" SemanticMemory.plasma 1 [] 0) in
  let store :=
    SemanticMemory.mkStore [memory [1; 0; 0.125]%float; memory [0; 0]%float] [] in
  map SemanticMemory.similarity
    (match fst (SemanticMemory.findPatterns api "query" "key"
                  Routes.similarityThreshold 5 store) with
     | Normal results => results
     | Throw _ => []
     end)
  = [SemanticMemory.cosineSimilarity [1; 0]%float [1; 0; 0.125]%float]
  /\ (0.984375 <? SemanticMemory.cosineSimilarity [1; 0]%float [1; 0; 0.125]%float)%float
     = true
  /\ SemanticMemory.cosineSimilarity [1; 0]%float [0; 0]%float = nan.
Proof. vm_compute. repeat split. Qed.

(** ** The embedding store *)

Section Store.

Context (api : SemanticMemory.EmbeddingsAPI).

Lemma createEmbedding_memories apiKey input st :
  SemanticMemory.memories (snd (SemanticMemory.createEmbedding api apiKey input st))
  = SemanticMemory.memories st.
Proof.
  unfold SemanticMemory.createEmbedding.
  by destruct (api apiKey input) as [[|first rest]|error].
Qed.

Lemma createEmbedding_embedded apiKey input st :
  SemanticMemory.embedded (snd (SemanticMemory.createEmbedding api apiKey input st))
  = SemanticMemory.embedded st ++ [input].
Proof.
  unfold SemanticMemory.createEmbedding.
  by destruct (api apiKey input) as [[|first rest]|error].
Qed.

Lemma createEmbedding_throws apiKey input st :
  isThrow (api apiKey input) = true ->
  isThrow (fst (SemanticMemory.createEmbedding api apiKey input st)) = true.
Proof.
  unfold SemanticMemory.createEmbedding.
  by destruct (api apiKey input) as [[|first rest]|error].
Qed.

Lemma storeMemory_normal llmId message context apiKey time st :
  fst (SemanticMemory.storeMemory api llmId message context apiKey time st)
  = Normal tt.
Proof.
  unfold SemanticMemory.storeMemory.
  by destruct (SemanticMemory.createEmbedding api apiKey message st) as [[e|err] st1].
Qed.

Lemma storeMemory_failed llmId message context apiKey time st :
  isThrow (fst (SemanticMemory.createEmbedding api apiKey message st)) = true ->
  SemanticMemory.memories
    (snd (SemanticMemory.storeMemory api llmId message context apiKey time st))
  = SemanticMemory.memories st.
Proof.
  unfold SemanticMemory.storeMemory.
  pose proof (createEmbedding_memories apiKey message st) as Hmem.
  destruct (SemanticMemory.createEmbedding api apiKey message st)
    as [[e|err] st1]; [discriminate|].
  intros _. exact Hmem.
Qed.

Lemma findPatterns_normal query apiKey threshold limit st :
  exists results,
    fst (SemanticMemory.findPatterns api query apiKey threshold limit st)
    = Normal results.
Proof.
  unfold SemanticMemory.findPatterns.
  destruct (SemanticMemory.findPatternsTry api query apiKey threshold limit st)
    as [[results|error] st1]; eauto.
Qed.

Lemma findPatterns_failed query apiKey threshold limit st :
  isThrow (fst (SemanticMemory.findPatternsTry api query apiKey threshold limit st))
  = true ->
  fst (SemanticMemory.findPatterns api query apiKey threshold limit st)
  = Normal [].
Proof.
  unfold SemanticMemory.findPatterns.
  by destruct (SemanticMemory.findPatternsTry api query apiKey threshold limit st)
    as [[results|error] st1].
Qed.

End Store.

(** ** The order of numbers and the sign of a difference

    The comparator given to [sort] decides by the sign of a difference
    of two numbers.  For binary64 numbers that are not NaN the sign of
    [y - x] is positive exactly when [x < y]: a difference of two
    distinct numbers never rounds to zero. *)

Section NumberOrder.

Lemma digits2_pos_bounds (m : positive) :
  2 ^ (Z.pos (digits2_pos m) - 1) <= Z.pos m < 2 ^ Z.pos (digits2_pos m).
Proof.
  induction m as [m IH|m IH|]; cbn [digits2_pos].
  - rewrite Pos2Z.inj_succ.
    replace (Z.succ (Z.pos (digits2_pos m)) - 1)
      with (Z.succ (Z.pos (digits2_pos m) - 1)) by lia.
    rewrite !Z.pow_succ_r by lia. lia.
  - rewrite Pos2Z.inj_succ.
    replace (Z.succ (Z.pos (digits2_pos m)) - 1)
      with (Z.succ (Z.pos (digits2_pos m) - 1)) by lia.
    rewrite !Z.pow_succ_r by lia. lia.
  - simpl. lia.
Qed.

Lemma shr_m_shr_1 (mrs : shr_record) :
  0 <= shr_m mrs -> shr_m (shr_1 mrs) = shr_m mrs / 2.
Proof.
  destruct mrs as [[|[p|p|]|p] r s]; cbn [shr_1 shr_m]; intros H; try lia.
  - reflexivity.
  - apply Z.div_unique with 1; lia.
  - apply Z.div_unique with 0; lia.
  - reflexivity.
Qed.

Lemma shr_m_iter_pos (p : positive) : forall mrs,
  0 <= shr_m mrs ->
  shr_m (SpecFloat.iter_pos shr_1 p mrs) = shr_m mrs / 2 ^ Z.pos p.
Proof.
  induction p as [p IH|p IH|]; intros mrs Hm; cbn [SpecFloat.iter_pos].
  - assert (H1 : 0 <= shr_m (shr_1 mrs)).
    { rewrite shr_m_shr_1 by exact Hm. apply Z.div_pos; lia. }
    assert (H2 : 0 <= shr_m (SpecFloat.iter_pos shr_1 p (shr_1 mrs))).
    { rewrite IH by exact H1. apply Z.div_pos; [exact H1|]. apply Z.pow_pos_nonneg; lia. }
    rewrite IH by exact H2. rewrite IH by exact H1. rewrite shr_m_shr_1 by exact Hm.
    assert (0 < 2 ^ Z.pos p) by (apply Z.pow_pos_nonneg; lia).
    rewrite !Z.div_div by lia. f_equal.
    replace (Z.pos p~1) with (1 + Z.pos p + Z.pos p) by lia.
    rewrite !Z.pow_add_r by lia. lia.
  - assert (H2 : 0 <= shr_m (SpecFloat.iter_pos shr_1 p mrs)).
    { rewrite IH by exact Hm. apply Z.div_pos; [exact Hm|]. apply Z.pow_pos_nonneg; lia. }
    rewrite IH by exact H2. rewrite IH by exact Hm.
    assert (0 < 2 ^ Z.pos p) by (apply Z.pow_pos_nonneg; lia).
    rewrite !Z.div_div by lia. f_equal.
    replace (Z.pos p~0) with (Z.pos p + Z.pos p) by lia.
    rewrite !Z.pow_add_r by lia. lia.
  - rewrite shr_m_shr_1 by exact Hm. reflexivity.
Qed.

Lemma shr_m_of_loc m l : shr_m (shr_record_of_loc m l) = m.
Proof. by destruct l as [|[]]. Qed.

Lemma fexp_eq e : fexp prec emax e = Z.max (e - 53) (-1074).
Proof. reflexivity. Qed.

(** A right shift by the amount the format asks for leaves a positive
    mantissa positive when the exponent is not below the least one. *)
Lemma shr_fexp_pos (m : positive) (e : Z) (l : location) :
  -1074 <= e ->
  0 < shr_m (fst (shr_fexp prec emax (Z.pos m) e l))
  /\ -1074 <= snd (shr_fexp prec emax (Z.pos m) e l).
Proof.
  intros He. unfold shr_fexp, shr. rewrite fexp_eq. cbn [Zdigits2].
  pose proof (digits2_pos_bounds m) as [Hlow _].
  set (d := Z.pos (digits2_pos m)) in *.
  destruct (Z.max (d + e - 53) (-1074) - e) as [|n|n] eqn:Hn; cbn [fst snd];
    rewrite ?shr_m_of_loc; try (split; lia).
  rewrite shr_m_iter_pos by (rewrite shr_m_of_loc; lia).
  rewrite shr_m_of_loc. split; [|lia].
  apply Z.div_str_pos. split; [apply Z.pow_pos_nonneg; lia|].
  etransitivity; [|exact Hlow]. apply Z.pow_le_mono_r; lia.
Qed.

Lemma round_nearest_even_ge m l : m <= round_nearest_even m l.
Proof. destruct l as [|[]]; simpl; try lia. destruct (Z.even m); lia. Qed.

(** Rounding a positive mantissa gives a non-zero number of the same sign. *)
Lemma binary_round_aux_pos sx (m : positive) e l :
  -1074 <= e ->
  SFltb (S754_zero false) (binary_round_aux prec emax sx (Z.pos m) e l)
  = negb sx.
Proof.
  intros He. unfold binary_round_aux.
  destruct (shr_fexp_pos m e l He) as [Hm1 He1].
  destruct (shr_fexp prec emax (Z.pos m) e l) as [mrs1 e1]; cbn [fst snd] in *.
  pose proof (round_nearest_even_ge (shr_m mrs1) (loc_of_shr_record mrs1)) as Hr.
  destruct (round_nearest_even (shr_m mrs1) (loc_of_shr_record mrs1))
    as [|m2|m2]; try lia.
  destruct (shr_fexp_pos m2 e1 loc_Exact He1) as [Hm2 He2].
  destruct (shr_fexp prec emax (Z.pos m2) e1 loc_Exact) as [mrs2 e2];
    cbn [fst snd] in *.
  destruct (shr_m mrs2) as [|m3|m3]; try lia.
  destruct (e2 <=? emax - prec); by destruct sx.
Qed.

Lemma binary_round_pos sx (m : positive) e :
  -1074 <= e ->
  SFltb (S754_zero false) (binary_round prec emax sx m e) = negb sx.
Proof.
  intros He. unfold binary_round, shl_align. rewrite fexp_eq.
  destruct (Z.max (Z.pos (digits2_pos m) + e - 53) (-1074) - e) eqn:Hn;
    apply binary_round_aux_pos; lia.
Qed.

Lemma binary_normalize_sign (m e : Z) :
  -1074 <= e ->
  SFltb (S754_zero false) (binary_normalize prec emax m e false) = (0 <? m).
Proof.
  intros He. destruct m as [|m|m]; cbn [binary_normalize].
  - reflexivity.
  - by rewrite binary_round_pos.
  - by rewrite binary_round_pos.
Qed.

Lemma iter_xO (m d : positive) :
  Z.pos (Pos.iter xO m d) = Z.pos m * 2 ^ Z.pos d.
Proof.
  induction d as [|d IH] using Pos.peano_ind.
  - simpl. lia.
  - rewrite Pos.iter_succ, Pos2Z.inj_succ, Z.pow_succ_r by lia. lia.
Qed.

Lemma shl_align_fst (m : positive) (e e' : Z) :
  e' <= e -> Z.pos (fst (shl_align m e e')) = Z.pos m * 2 ^ (e - e').
Proof.
  intros Hle. unfold shl_align.
  destruct (e' - e) as [|d|d] eqn:Hd; cbn [fst]; try lia.
  - replace (e - e') with 0 by lia. lia.
  - rewrite iter_xO. f_equal. f_equal. lia.
Qed.

Lemma bounded_canonical (m : positive) (e : Z) :
  bounded prec emax m e = true ->
  Z.pos (digits2_pos m) <= 53 /\ -1074 <= e
  /\ (-1074 < e -> Z.pos (digits2_pos m) = 53).
Proof.
  unfold bounded, canonical_mantissa. rewrite fexp_eq.
  intros [Hc _]%andb_prop. apply Z.eqb_eq in Hc. lia.
Qed.

(** A number with the larger exponent is normal, and so has the larger
    mantissa once both are written with the smaller exponent. *)
Lemma aligned_lt (m1 m2 : positive) (e1 e2 : Z) :
  bounded prec emax m1 e1 = true -> bounded prec emax m2 e2 = true ->
  e1 < e2 -> Z.pos m1 < Z.pos m2 * 2 ^ (e2 - e1).
Proof.
  intros (Hd1 & He1 & _)%bounded_canonical (_ & _ & Hn2)%bounded_canonical Hlt.
  pose proof (digits2_pos_bounds m1) as [_ Hup].
  pose proof (digits2_pos_bounds m2) as [Hlow _].
  rewrite Hn2 in Hlow by lia.
  assert (Z.pos m1 < 2 ^ 53).
  { eapply Z.lt_le_trans; [exact Hup|]. apply Z.pow_le_mono_r; lia. }
  assert (2 ^ 1 <= 2 ^ (e2 - e1)) by (apply Z.pow_le_mono_r; lia).
  change (2 ^ (53 - 1)) with 4503599627370496 in Hlow.
  change (2 ^ 53) with 9007199254740992 in *. change (2 ^ 1) with 2 in *.
  nia.
Qed.

Lemma aligned_difference_sign sx mx ex sy my ey :
  bounded prec emax mx ex = true -> bounded prec emax my ey = true ->
  (0 <? cond_Zopp sy (Z.pos (fst (shl_align my ey (Z.min ey ex))))
        - cond_Zopp sx (Z.pos (fst (shl_align mx ex (Z.min ey ex)))))
  = SFltb (S754_finite sx mx ex) (S754_finite sy my ey).
Proof.
  intros Hx Hy. rewrite !shl_align_fst by lia.
  unfold SFltb, SFcompare.
  destruct (Z.compare_spec ex ey) as [->|Hlt|Hgt].
  - rewrite Z.min_id, Z.sub_diag, Z.pow_0_r, !Z.mul_1_r.
    change (Pos.compare_cont Eq mx my) with (Pos.compare mx my).
    destruct (Pos.compare_spec mx my) as [->|Hm|Hm];
      destruct sx, sy; cbn [cond_Zopp CompOpp];
      first [apply Z.ltb_lt; lia | apply Z.ltb_ge; lia].
  - pose proof (aligned_lt mx my ex ey Hx Hy Hlt).
    rewrite Z.min_r by lia. rewrite Z.sub_diag, Z.pow_0_r, Z.mul_1_r.
    assert (0 < Z.pos my * 2 ^ (ey - ex)) by lia.
    destruct sx, sy; cbn [cond_Zopp];
      first [apply Z.ltb_lt; lia | apply Z.ltb_ge; lia].
  - pose proof (aligned_lt my mx ey ex Hy Hx ltac:(lia)).
    rewrite Z.min_l by lia. rewrite Z.sub_diag, Z.pow_0_r, Z.mul_1_r.
    assert (0 < Z.pos mx * 2 ^ (ex - ey)) by lia.
    destruct sx, sy; cbn [cond_Zopp];
      first [apply Z.ltb_lt; lia | apply Z.ltb_ge; lia].
Qed.

(** The sign of a difference is the outcome of the comparison. *)
Lemma SFsub_sign (X Y : spec_float) :
  valid_binary X = true -> valid_binary Y = true ->
  X <> S754_nan -> Y <> S754_nan ->
  SFltb (S754_zero false) (SFsub prec emax Y X) = SFltb X Y.
Proof.
  intros HX HY HnX HnY.
  destruct X as [sx|sx| |sx mx ex]; try congruence;
    destruct Y as [sy|sy| |sy my ey]; try congruence;
    try (by destruct sx, sy).
  unfold valid_binary in *. cbn [SFsub SpecFloat.valid_binary] in *.
  destruct (bounded_canonical mx ex HX) as (_ & Hex & _).
  destruct (bounded_canonical my ey HY) as (_ & Hey & _).
  rewrite binary_normalize_sign by lia.
  by apply aligned_difference_sign.
Qed.

Lemma sub_pos_ltb (x y : float) :
  Prim2SF x <> S754_nan -> Prim2SF y <> S754_nan ->
  (0 <? y - x)%float = (x <? y)%float.
Proof.
  intros Hx Hy. rewrite !ltb_spec, sub_spec.
  apply SFsub_sign; auto using Prim2SF_valid.
Qed.

Lemma SFcompare_antisym (X Y : spec_float) :
  SFcompare Y X = option_map CompOpp (SFcompare X Y).
Proof.
  destruct X as [sx|sx| |sx mx ex], Y as [sy|sy| |sy my ey];
    try reflexivity; try (by destruct sx); try (by destruct sy);
    try (by destruct sx, sy).
  unfold SFcompare. cbn [option_map]. f_equal.
  change (Pos.compare_cont Eq mx my) with (Pos.compare mx my).
  change (Pos.compare_cont Eq my mx) with (Pos.compare my mx).
  destruct (Z.compare_spec ex ey), (Z.compare_spec ey ex); try lia;
    destruct sx, sy; try reflexivity;
    destruct (Pos.compare_spec mx my), (Pos.compare_spec my mx);
    try lia; reflexivity.
Qed.

Lemma ltb_false_leb (x y : float) :
  Prim2SF x <> S754_nan -> Prim2SF y <> S754_nan ->
  (x <? y)%float = false -> (y <=? x)%float = true.
Proof.
  intros Hx Hy. rewrite ltb_spec, leb_spec. unfold SFltb, SFleb.
  rewrite (SFcompare_antisym (Prim2SF x) (Prim2SF y)).
  destruct (SFcompare (Prim2SF x) (Prim2SF y)) as [[]|] eqn:Hc; try done.
  destruct (Prim2SF x), (Prim2SF y); try congruence; discriminate.
Qed.

Lemma ltb_leb (x y : float) : (x <? y)%float = true -> (x <=? y)%float = true.
Proof.
  rewrite ltb_spec, leb_spec. unfold SFltb, SFleb.
  by destruct (SFcompare (Prim2SF x) (Prim2SF y)) as [[]|].
Qed.

Lemma leb_not_nan (t x : float) :
  (t <=? x)%float = true -> Prim2SF x <> S754_nan.
Proof.
  rewrite leb_spec. unfold SFleb. intros H Hx. rewrite Hx in H.
  by destruct (Prim2SF t).
Qed.

End NumberOrder.

(** ** Sorting by descending key *)

Section Sorting.

Context {A : Type} (key : A -> float).


Lemma sortInsert_permutation x l : Permutation (sortInsert (descendingBy key) x l) (x :: l).
Proof.
  induction l as [|y l IH]; simpl; [reflexivity|].
  destruct (0 <? (descendingBy key) x y)%float; [|reflexivity].
  rewrite IH. apply perm_swap.
Qed.

Lemma sort_permutation l : Permutation (JS.sort (descendingBy key) l) l.
Proof.
  induction l as [|x l IH]; simpl; [reflexivity|].
  rewrite sortInsert_permutation. by apply perm_skip.
Qed.

Lemma sortInsert_head x l y :
  HdRel (keyBefore key) y l -> (keyBefore key) y x -> HdRel (keyBefore key) y (sortInsert (descendingBy key) x l).
Proof.
  intros Hl Hx. destruct l as [|z l]; simpl; [by constructor|].
  destruct (0 <? (descendingBy key) x z)%float; constructor; [|exact Hx].
  by inversion Hl.
Qed.

Lemma sortInsert_sorted x l :
  (keyIsNumber key) x -> Forall (keyIsNumber key) l ->
  Sorted (keyBefore key) l -> Sorted (keyBefore key) (sortInsert (descendingBy key) x l).
Proof.
  intros Hx Hnum Hsorted.
  induction Hsorted as [|y l Hs IH Hhd]; simpl.
  - repeat constructor.
  - inversion Hnum as [|? ? Hy Hl]; subst.
    destruct (0 <? (descendingBy key) x y)%float eqn:Hcmp;
      unfold descendingBy in Hcmp; rewrite sub_pos_ltb in Hcmp by assumption.
    + constructor; [by apply IH|].
      apply sortInsert_head; [exact Hhd|]. by apply ltb_leb.
    + constructor; [by constructor|]. constructor.
      by apply ltb_false_leb.
Qed.

Lemma sort_sorted l : Forall (keyIsNumber key) l -> Sorted (keyBefore key) (JS.sort (descendingBy key) l).
Proof.
  induction 1 as [|x l Hx Hl IH]; simpl; [constructor|].
  apply sortInsert_sorted; [exact Hx| |exact IH].
  rewrite List.Forall_forall in *. intros y Hy. apply Hl.
  eapply Permutation_in; [apply sort_permutation|exact Hy].
Qed.

End Sorting.

Lemma sliceTo_take {A} (l : list A) (limit : Z) :
  0 <= limit ->
  sliceTo l limit = take (Z.to_nat limit) l
  /\ Z.of_nat (length (sliceTo l limit)) <= limit.
Proof.
  intros Hlimit. unfold sliceTo.
  rewrite (proj2 (Z.ltb_ge limit 0)) by exact Hlimit.
  split; [reflexivity|]. rewrite length_take. lia.
Qed.

Section Query.

Context (api : SemanticMemory.EmbeddingsAPI).

Lemma findPatterns_empty query apiKey threshold limit st :
  SemanticMemory.memories st = [] ->
  SemanticMemory.findPatterns api query apiKey threshold limit st
  = (Normal [], st).
Proof.
  intros Hempty. unfold SemanticMemory.findPatterns, SemanticMemory.findPatternsTry.
  by rewrite Hempty.
Qed.

(** What a query that was embedded returns. *)
Lemma findPatterns_embedded query apiKey threshold limit st queryEmbedding rest :
  SemanticMemory.memories st <> [] ->
  api apiKey query = Normal (queryEmbedding :: rest) ->
  SemanticMemory.findPatterns api query apiKey threshold limit st
  = (Normal
       (sliceTo
          (JS.sort (fun a b => SemanticMemory.similarity b
                               - SemanticMemory.similarity a)%float
             (List.filter (reaches threshold)
                (map (scored queryEmbedding) (SemanticMemory.memories st))))
          limit),
     SemanticMemory.mkStore (SemanticMemory.memories st)
       (SemanticMemory.embedded st ++ [query])).
Proof.
  intros Hmem Hapi.
  unfold SemanticMemory.findPatterns, SemanticMemory.findPatternsTry,
    SemanticMemory.createEmbedding.
  rewrite bool_decide_eq_false_2
    by (destruct (SemanticMemory.memories st); [done|discriminate]).
  by rewrite Hapi.
Qed.

Lemma filter_none {A} (f : A -> bool) (l : list A) :
  Forall (fun x => f x = false) l -> List.filter f l = [].
Proof.
  induction 1 as [|x l Hx _ IH]; simpl; [reflexivity|]. by rewrite Hx.
Qed.

(** A query that no stored vector matches returns the empty list. *)
Lemma findPatterns_no_match query apiKey threshold limit st queryEmbedding rest :
  SemanticMemory.memories st <> [] ->
  api apiKey query = Normal (queryEmbedding :: rest) ->
  Forall (fun memory => reaches threshold (scored queryEmbedding memory) = false)
    (SemanticMemory.memories st) ->
  fst (SemanticMemory.findPatterns api query apiKey threshold limit st)
  = Normal [].
Proof.
  intros Hmem Hapi Hnone.
  rewrite (findPatterns_embedded _ _ _ _ _ _ _ Hmem Hapi); cbn [fst].
  rewrite filter_none.
  - unfold sliceTo; simpl. by destruct (limit <? 0); rewrite take_nil.
  - rewrite List.Forall_forall in *. intros r Hr.
    apply List.in_map_iff in Hr as (memory & <- & Hin). by apply Hnone.
Qed.

End Query.

(** C8 (as the code has it): on an empty store [findPatterns] returns the
    empty sequence at once, without embedding the query.  On a non-empty
    store, when the embedding call succeeds, it embeds the query text
    exactly once, leaves the store as it is, scores every stored vector
    against the query, keeps exactly the records whose similarity is at
    least the threshold, orders them by descending similarity and returns
    the first [limit] of them (for a limit that is not negative); when no
    stored vector reaches the threshold, the result is empty. *)
Theorem findPatterns_pipeline (api : SemanticMemory.EmbeddingsAPI)
    (query apiKey : string) (threshold : float) (limit : Z)
    (st : SemanticMemory.Store) :
  let result := SemanticMemory.findPatterns api query apiKey threshold limit st in
  (SemanticMemory.memories st = [] -> result = (Normal [], st))
  /\ (forall queryEmbedding rest,
        SemanticMemory.memories st <> [] ->
        api apiKey query = Normal (queryEmbedding :: rest) ->
        SemanticMemory.embedded (snd result) = SemanticMemory.embedded st ++ [query]
        /\ SemanticMemory.memories (snd result) = SemanticMemory.memories st
        /\ exists kept,
             Permutation kept
               (List.filter (reaches threshold)
                  (map (scored queryEmbedding) (SemanticMemory.memories st)))
             /\ descending kept
             /\ fst result = Normal (sliceTo kept limit)
             /\ (0 <= limit ->
                 sliceTo kept limit = take (Z.to_nat limit) kept
                 /\ Z.of_nat (length (sliceTo kept limit)) <= limit)
             /\ (Forall (fun memory =>
                           reaches threshold (scored queryEmbedding memory) = false)
                   (SemanticMemory.memories st) ->
                 fst result = Normal [])).
Proof.
  cbv zeta. split; [apply findPatterns_empty|].
  intros queryEmbedding rest Hmem Hapi.
  rewrite (findPatterns_embedded api query apiKey threshold limit st
             queryEmbedding rest Hmem Hapi); cbn [fst snd].
  split; [reflexivity|]. split; [reflexivity|].
  set (candidates := List.filter (reaches threshold)
                       (map (scored queryEmbedding) (SemanticMemory.memories st))).
  exists (JS.sort (fun a b => SemanticMemory.similarity b
                              - SemanticMemory.similarity a)%float candidates).
  split; [apply (sort_permutation SemanticMemory.similarity)|].
  split.
  - apply (sort_sorted SemanticMemory.similarity).
    subst candidates. rewrite List.Forall_forall. intros r Hr.
    apply List.filter_In in Hr as [_ Hr]. exact (leb_not_nan _ _ Hr).
  - split; [reflexivity|]. split; [apply sliceTo_take|].
    intros Hnone. subst candidates.
    pose proof (findPatterns_no_match api query apiKey threshold limit st
                  queryEmbedding rest Hmem Hapi Hnone) as Hempty.
    rewrite (findPatterns_embedded api query apiKey threshold limit st
               queryEmbedding rest Hmem Hapi) in Hempty.
    exact Hempty.
Qed.

(** C8, as stated, fails on the empty store: the query is not embedded. *)
Lemma findPatterns_counterexample :
  let api : SemanticMemory.EmbeddingsAPI := fun _ _ => Normal [[1; 0]%float] in
  let st := SemanticMemory.mkStore [] [] in
  SemanticMemory.embedded
    (snd (SemanticMemory.findPatterns api "query" "key"
            Routes.similarityThreshold 5 st))
  <> SemanticMemory.embedded st ++ ["query"].
Proof. vm_compute. discriminate. Qed.

Lemma findPatterns_pipeline_witness :
  let api : SemanticMemory.EmbeddingsAPI := fun _ _ => Normal [[1; 0]%float] in
  let memory embedding :=
    SemanticMemory.mkMemoryItem "m" "text" embedding
      (SemanticMemory.mkMetadata "gpt4" SemanticMemory.plasma 1 [] 0) in
  let st :=
    SemanticMemory.mkStore
      [memory [0; 1]%float; memory [3; 1]%float; memory [2; 0]%float] [] in
  let result :=
    SemanticMemory.findPatterns api "query" "key" Routes.similarityThreshold 2 st in
  SemanticMemory.embedded (snd result) = ["query"]
  /\ exists kept,
       Permutation kept
         (List.filter (reaches Routes.similarityThreshold)
            (map (scored [1; 0]%float) (SemanticMemory.memories st)))
       /\ descending kept
       /\ fst result = Normal (take 2 kept).
Proof.
  cbv zeta.
  destruct (findPatterns_pipeline (fun _ _ => Normal [[1; 0]%float])
              "query" "key" Routes.similarityThreshold 2
              (SemanticMemory.mkStore
                 [SemanticMemory.mkMemoryItem "m" "text" [0; 1]%float
                    (SemanticMemory.mkMetadata "gpt4" SemanticMemory.plasma 1 [] 0);
                  SemanticMemory.mkMemoryItem "m" "text" [3; 1]%float
                    (SemanticMemory.mkMetadata "gpt4" SemanticMemory.plasma 1 [] 0);
                  SemanticMemory.mkMemoryItem "m" "text" [2; 0]%float
                    (SemanticMemory.mkMetadata "gpt4" SemanticMemory.plasma 1 [] 0)]
                 [])) as [_ H].
  destruct (H [1; 0]%float [] ltac:(discriminate) eq_refl)
    as (Hemb & _ & kept & Hperm & Hdesc & Hres & _).
  split; [exact Hemb|]. exists kept. split; [exact Hperm|]. split; [exact Hdesc|].
  rewrite Hres. reflexivity.
Defined.

(** C10: the public operations of the embedding store never raise.
    [storeMemory] always returns normally, and when the embedding call
    fails the [memories] list is as it was; [findPatterns] always returns
    a list, and that list is empty whenever anything in its [try] block
    throws, which is also what a query that matches nothing returns. *)
Theorem store_never_raises (api : SemanticMemory.EmbeddingsAPI)
    (llmId message query apiKey : string) (context : SemanticMemory.Context)
    (threshold : float) (limit now : Z) (st : SemanticMemory.Store) :
  fst (SemanticMemory.storeMemory api llmId message context apiKey now st)
  = Normal tt
  /\ (isThrow (fst (SemanticMemory.createEmbedding api apiKey message st)) = true ->
      SemanticMemory.memories
        (snd (SemanticMemory.storeMemory api llmId message context apiKey now st))
      = SemanticMemory.memories st)
  /\ (exists results,
        fst (SemanticMemory.findPatterns api query apiKey threshold limit st)
        = Normal results)
  /\ (isThrow (fst (SemanticMemory.findPatternsTry api query apiKey threshold
                      limit st)) = true ->
      fst (SemanticMemory.findPatterns api query apiKey threshold limit st)
      = Normal []
      /\ forall api' queryEmbedding rest,
           api' apiKey query = Normal (queryEmbedding :: rest) ->
           Forall (fun memory =>
                     reaches threshold (scored queryEmbedding memory) = false)
             (SemanticMemory.memories st) ->
           fst (SemanticMemory.findPatterns api' query apiKey threshold limit st)
           = fst (SemanticMemory.findPatterns api query apiKey threshold limit st)).
Proof.
  split; [apply storeMemory_normal|]. split; [apply storeMemory_failed|].
  split; [apply findPatterns_normal|].
  intros Hfail. pose proof (findPatterns_failed api _ _ _ _ _ Hfail) as Hnone.
  split; [exact Hnone|]. intros api' queryEmbedding rest Hapi Hbelow.
  rewrite Hnone.
  destruct (SemanticMemory.memories st) as [|m ms] eqn:Hmem.
  - by rewrite findPatterns_empty.
  - apply (findPatterns_no_match api' query apiKey threshold limit st
             queryEmbedding rest); [by rewrite Hmem|exact Hapi|by rewrite Hmem].
Qed.

Lemma store_never_raises_witness :
  let failing : SemanticMemory.EmbeddingsAPI :=
    fun _ _ => Throw (newError "401 Incorrect API key provided") in
  let memory :=
    SemanticMemory.mkMemoryItem "m" "text" [1; 0]%float
      (SemanticMemory.mkMetadata "gpt4" SemanticMemory.plasma 1 [] 0) in
  let st := SemanticMemory.mkStore [memory] [] in
  let context := SemanticMemory.mkContext SemanticMemory.plasma 1 [] in
  fst (SemanticMemory.storeMemory failing "gpt4" "hello" context "key" 0 st)
  = Normal tt
  /\ SemanticMemory.memories
       (snd (SemanticMemory.storeMemory failing "gpt4" "hello" context "key" 0 st))
     = [memory]
  /\ fst (SemanticMemory.findPatterns failing "query" "key"
            Routes.similarityThreshold 5 st) = Normal [].
Proof.
  cbv zeta.
  destruct (store_never_raises
              (fun _ _ => Throw (newError "401 Incorrect API key provided"))
              "gpt4" "hello" "query" "key"
              (SemanticMemory.mkContext SemanticMemory.plasma 1 [])
              Routes.similarityThreshold 5 0
              (SemanticMemory.mkStore
                 [SemanticMemory.mkMemoryItem "m" "text" [1; 0]%float
                    (SemanticMemory.mkMetadata "gpt4" SemanticMemory.plasma 1 [] 0)]
                 [])) as (Hstore & Hkept & _ & Hquery).
  split; [exact Hstore|]. split; [apply Hkept; reflexivity|].
  apply Hquery. reflexivity.
Defined.

(** ** The companion *)

Section Companion.

Context (api : SemanticMemory.EmbeddingsAPI).

Implicit Types (db : Storage.Database) (store : SemanticMemory.Store)
  (similar : list SemanticMemory.PatternResult).

Lemma findPatterns_length query apiKey threshold limit store similar :
  0 <= limit ->
  fst (SemanticMemory.findPatterns api query apiKey threshold limit store)
  = Normal similar ->
  Z.of_nat (length similar) <= limit.
Proof.
  intros Hlimit. unfold SemanticMemory.findPatterns, SemanticMemory.findPatternsTry.
  case_bool_decide; [intros [= <-]; simpl; lia|].
  destruct (SemanticMemory.createEmbedding api apiKey query store)
    as [[queryEmbedding|error] store1]; [|intros [= <-]; simpl; lia].
  intros [= <-]. by apply sliceTo_take.
Qed.

Lemma confidenceOf_length similar :
  CompanionSimple.confidenceOf similar = confidenceAt (length similar).
Proof. reflexivity. Qed.

Lemma detectTopicFromPatterns_normal similar :
  similar <> [] ->
  exists topic, CompanionSimple.detectTopicFromPatterns similar = Normal topic.
Proof.
  intros Hne. unfold CompanionSimple.detectTopicFromPatterns.
  destruct (unique _) as [|first rest]; [|by eauto].
  destruct similar as [|p ps]; [done|].
  destruct (List.filter _ _); eauto.
Qed.

Lemma getDiscussion_updateDiscussion key count patterns db discussion :
  Storage.getDiscussion key db = Some discussion ->
  Storage.getDiscussion key (Storage.updateDiscussion key count patterns db)
  = Some (Storage.mkDiscussion (Storage.discussionKey discussion)
            (Storage.currentPhase discussion) (Some count) patterns).
Proof.
  unfold Storage.getDiscussion, Storage.updateDiscussion; simpl.
  induction (Storage.discussions db) as [|d ds IH]; simpl; [discriminate|].
  case_bool_decide as Hd; simpl.
  - intros [= <-]. by rewrite bool_decide_eq_true_2.
  - by rewrite bool_decide_eq_false_2.
Qed.

(** What [suggestAgent] does when a topic is found. *)
Lemma suggestAgent_spec discussionId similar now db store topic :
  CompanionSimple.detectTopicFromPatterns similar = Normal topic ->
  exists message db',
    CompanionSimple.suggestAgent discussionId similar now db store
    = (Normal (Some message), (db', store))
    /\ CompanionSimple.content message
       = CompanionSimple.suggestionText topic (confidenceAt (length similar))
    /\ CompanionSimple.suggestionId message = Some ("suggestion-" +:+ pretty now)
    /\ (exists suggestion,
          last (Storage.suggestions db') = Some suggestion
          /\ Storage.suggestionId suggestion = "suggestion-" +:+ pretty now
          /\ Storage.suggestionContent suggestion
             = CompanionSimple.suggestionText topic (confidenceAt (length similar)))
    /\ (forall discussion,
          Storage.getDiscussion discussionId db = Some discussion ->
          breathCountOf discussionId db' = breathCountOf discussionId db + 1).
Proof.
  intros Htopic. unfold CompanionSimple.suggestAgent. rewrite Htopic.
  eexists _, _. split; [reflexivity|]. cbn [CompanionSimple.content
    CompanionSimple.suggestionId Storage.suggestionContent Storage.suggestionId].
  split; [reflexivity|]. split; [reflexivity|]. split.
  - eexists. split.
    + unfold Storage.addCompanionSuggestion; cbn [Storage.suggestions].
      apply last_snoc.
    + split; reflexivity.
  - intros discussion Hd. unfold breathCountOf. rewrite Hd.
    unfold Storage.addCompanionSuggestion, Storage.createMessage.
    cbn [snd]. unfold Storage.getDiscussion at 1. cbn [Storage.discussions].
    fold (Storage.getDiscussion discussionId
            (Storage.updateDiscussion discussionId
               (match Storage.breathCount discussion with Some n => n | None => 0 end + 1)
               (match unique (flat_map (fun p => SemanticMemory.patterns
                                           (SemanticMemory.resultMetadata p)) similar) with
                | [] => [topic] | _ :: _ => unique (flat_map (fun p => SemanticMemory.patterns
                                           (SemanticMemory.resultMetadata p)) similar) end) db)).
    erewrite getDiscussion_updateDiscussion by exact Hd. reflexivity.
Qed.


(** [monitorTry] once the discussion is long enough, the companion is
    enabled and a key is configured. *)
Lemma monitorTry_query discussionId now db store settings config key :
  (3 <= length (Storage.getMessagesByDiscussion discussionId db))%nat ->
  Storage.getSettings db = Some settings ->
  Storage.companionConfig settings = Some config ->
  Storage.enabled config = true ->
  Routes.configuredKey (Storage.openaiKey (Storage.apiKeys settings)) = Some key ->
  CompanionSimple.monitorTry api discussionId now db store
  = match SemanticMemory.findPatterns api (combinedContent discussionId db) key
            Routes.similarityThreshold 5 store with
    | (Throw error, store1) => (Throw error, (db, store1))
    | (Normal similar, store1) =>
        if (2 <=? length similar)%nat && Storage.autoSuggest config
        then CompanionSimple.suggestAgent discussionId similar now db store1
        else (Normal (CompanionSimple.periodicInsight discussionId
                        (length (sliceLast 10
                                   (Storage.getMessagesByDiscussion discussionId db)))
                        now),
              (db, store1))
    end.
Proof.
  intros Hlen Hsettings Hconfig Henabled Hkey.
  unfold CompanionSimple.monitorTry, combinedContent.
  set (messages := sliceLast 10 (Storage.getMessagesByDiscussion discussionId db)).
  assert (Hm : (3 <= length messages)%nat).
  { subst messages. unfold sliceLast. rewrite length_drop. lia. }
  rewrite (proj2 (Nat.ltb_ge _ _) Hm), Hsettings, Hconfig, Henabled, Hkey.
  cbn [negb]. rewrite (proj2 (Nat.leb_le _ _) Hm). reflexivity.
Qed.

(** A message that carries a suggestion comes from [suggestAgent], run
    on the two or more matches of the query. *)
Lemma monitorDiscussion_suggestion discussionId now db store message :
  fst (CompanionSimple.monitorDiscussion api discussionId now db store)
  = Some message ->
  CompanionSimple.suggestionId message <> None ->
  exists key similar store1,
    SemanticMemory.findPatterns api (combinedContent discussionId db) key
      Routes.similarityThreshold 5 store = (Normal similar, store1)
    /\ (2 <= length similar)%nat
    /\ CompanionSimple.suggestAgent discussionId similar now db store1
       = (Normal (Some message),
          snd (CompanionSimple.monitorDiscussion api discussionId now db store)).
Proof.
  unfold CompanionSimple.monitorDiscussion, CompanionSimple.monitorTry.
  fold (combinedContent discussionId db).
  set (messages := sliceLast 10 (Storage.getMessagesByDiscussion discussionId db)).
  assert (Hinsight : CompanionSimple.periodicInsight discussionId
                       (length messages) now = Some message ->
                     CompanionSimple.suggestionId message = None).
  { unfold CompanionSimple.periodicInsight.
    destruct (_ && _); [|discriminate]. by intros [= <-]. }
  destruct (length messages <? 3)%nat; [discriminate|].
  destruct (Storage.getSettings db) as [settings|]; [|discriminate].
  destruct (Storage.companionConfig settings) as [config|]; [|discriminate].
  destruct (Storage.enabled config); [|discriminate]. cbn [negb].
  destruct (Routes.configuredKey _) as [key|]; cbn [fst];
    [|by intros ?%Hinsight].
  destruct (3 <=? length messages)%nat; cbn [fst]; [|by intros ?%Hinsight].
  destruct (SemanticMemory.findPatterns api (combinedContent discussionId db)
              key Routes.similarityThreshold 5 store)
    as [[similar|error] store1] eqn:Hquery; cbn [fst]; [|discriminate].
  destruct (2 <=? length similar)%nat eqn:Htwo; cbn [andb fst];
    [|by intros ?%Hinsight].
  destruct (Storage.autoSuggest config); cbn [fst]; [|by intros ?%Hinsight].
  intros Hresult _. exists key, similar, store1.
  split; [exact Hquery|]. split; [by apply Nat.leb_le|].
  destruct (CompanionSimple.suggestAgent discussionId similar now db store1)
    as [[result|error] st]; cbn [fst snd] in *; [|discriminate].
  by rewrite Hresult.
Qed.

Lemma confidenceAt_range n :
  (2 <= n <= 5)%nat ->
  (confidenceAt 2 <=? confidenceAt n)%float = true
  /\ (confidenceAt n <=? confidenceAt 5)%float = true
  /\ (confidenceAt n <=? 1)%float = (n <=? 3)%nat.
Proof.
  intros Hn.
  assert (Hcases : n = 2%nat \/ n = 3%nat \/ n = 4%nat \/ n = 5%nat) by lia.
  destruct Hcases as [->|[->|[->| ->]]]; vm_compute; auto.
Qed.

End Companion.




Lemma suggestionText_two_matches topic :
  CompanionSimple.suggestionText topic (confidenceAt 2)
  = "🧠 I notice you're exploring " +:+ topic
    +:+ ". Shall I crystallize a specialized agent? (Confidence: 67%)".
Proof.
  unfold CompanionSimple.suggestionText.
  replace (pretty (Math_round (confidenceAt 2 * 100)%float)) with "67"
    by (vm_compute; reflexivity).
  reflexivity.
Qed.




(** ** One provider call: the retry executor behind the router *)

Section ProviderCall.

Context {T : Type} (fn : Operation T) (p : LLMProvider).

Implicit Types (rt : Runtime) (q : LLMProvider).

(** Whatever the operation does, a call that throws throws the circuit
    error: the fourth attempt is never let through. *)
Lemma retryLoop_throws remaining : forall attempt lastError rt error,
  tripped p attempt rt ->
  (attempt + remaining = 4)%nat ->
  remaining <> O ->
  fst (retryLoop fn p remaining attempt lastError rt) = Throw error ->
  error = circuitOpenError p.
Proof.
  induction remaining as [|remaining IH];
    intros attempt lastError rt error Htrip Hsum Hne; [done|].
  rewrite retryLoop_step. cbv zeta.
  destruct Htrip as (Hcount & (t & Hlast & Ht) & Hopen).
  destruct (allows (now rt) (breakerOf p rt)) eqn:Hallow.
  - assert (Hstate : state (breakerOf p rt) <> OPEN).
    { intros Ho. unfold allows in Hallow. rewrite Ho, Hlast in Hallow.
      apply Z.ltb_lt in Hallow. lia. }
    assert (Hprobe : probed (now rt) (breakerOf p rt) = breakerOf p rt).
    { unfold probed. by destruct (state (breakerOf p rt)). }
    assert (Hbelow : (failures (breakerOf p rt) < 3)%nat).
    { destruct (Nat.lt_ge_cases (failures (breakerOf p rt)) 3);
        [assumption|]. by destruct Hstate; apply Hopen. }
    rewrite Hprobe. destruct (fst (fn (now rt))) as [v|e]; [discriminate|].
    destruct (tripped_after_failure p attempt rt (breakerOf p rt)
                (snd (fn (now rt))) Hcount) as (Htrip2 & _).
    apply IH; [exact Htrip2|lia|lia].
  - assert (Hcool : cooling p rt).
    { unfold allows in Hallow. unfold cooling.
      destruct (state (breakerOf p rt)); try discriminate.
      split; [reflexivity|]. exists t. by split. }
    pose proof (retryLoop_refused fn p (S remaining) attempt lastError rt Hcool)
      as Href.
    cbv zeta in Href. rewrite retryLoop_step in Href. cbv zeta in Href.
    rewrite Hallow in Href. destruct Href as (Hres & _).
    rewrite Hres. by intros [= <-].
Qed.

Lemma retryWithBackoff_throws rt error :
  fst (retryWithBackoff fn p rt) = Throw error -> error = circuitOpenError p.
Proof.
  unfold retryWithBackoff. change (S maxRetries) with 4%nat.
  destruct (allows (now rt) (breakerOf p rt)) eqn:Hallow.
  - rewrite retryLoop_step. cbv zeta. rewrite Hallow.
    destruct (fst (fn (now rt))) as [v|e]; [discriminate|].
    destruct (tripped_after_failure p 0 rt (probed (now rt) (breakerOf p rt))
                (snd (fn (now rt))) ltac:(lia)) as (Htrip & _).
    by apply retryLoop_throws.
  - assert (Hcool : cooling p rt).
    { apply refused_cooling. by rewrite canAttemptRequest_put. }
    pose proof (retryLoop_refused fn p 4 0 None rt Hcool) as (Hres & _).
    rewrite Hres. by intros [= <-].
Qed.

Lemma fallbacksOf_app l1 l2 :
  fallbacksOf (l1 ++ l2) = fallbacksOf l1 ++ fallbacksOf l2.
Proof.
  induction l1 as [|[q a|ms|q r] l1 IH]; simpl; try done. by rewrite IH.
Qed.

Lemma invokedOf_app l1 l2 : invokedOf (l1 ++ l2) = invokedOf l1 ++ invokedOf l2.
Proof.
  induction l1 as [|[q a|ms|q r] l1 IH]; simpl; try done. by rewrite IH.
Qed.

Lemma fallbacksOf_sleeps l : fallbacksOf (map EvSleep l) = [].
Proof. by induction l. Qed.

Lemma invokedOf_sleeps l : invokedOf (map EvSleep l) = [].
Proof. by induction l. Qed.

(** The loop records invocations of its own provider and sleeps only,
    and touches no breaker but its provider's. *)
Lemma retryLoop_frame remaining : forall attempt lastError rt,
  let result := retryLoop fn p remaining attempt lastError rt in
  (exists added,
     trace (snd result) = trace rt ++ added
     /\ fallbacksOf added = []
     /\ Forall (fun q => q = p) (invokedOf added))
  /\ (forall q, q <> p -> breakerOf q (snd result) = breakerOf q rt).
Proof.
  induction remaining as [|remaining IH]; intros attempt lastError rt; cbv zeta.
  - simpl. split; [|done]. exists []. by rewrite app_nil_r.
  - rewrite retryLoop_step. cbv zeta.
    set (rt1 := putBreaker p (probed (now rt) (breakerOf p rt)) rt).
    set (rt2 := elapse (snd (fn (now rt))) (logEvent (EvInvoke p attempt) rt1)).
    assert (Hafter : forall rt0 prefix err,
               trace rt0 = trace rt ++ prefix ->
               fallbacksOf prefix = [] ->
               Forall (fun q => q = p) (invokedOf prefix) ->
               (forall q, q <> p -> breakerOf q rt0 = breakerOf q rt) ->
               let result :=
                 retryLoop fn p remaining (S attempt)
                   err (retryCatch p attempt rt0) in
               (exists added,
                  trace (snd result) = trace rt ++ added
                  /\ fallbacksOf added = []
                  /\ Forall (fun q => q = p) (invokedOf added))
               /\ (forall q, q <> p -> breakerOf q (snd result) = breakerOf q rt)).
    { intros rt0 prefix err Htrace Hfb Hinv Hframe.
      destruct (IH (S attempt) err (retryCatch p attempt rt0))
        as [(added & Hadded & Hfb' & Hinv') Hframe'].
      split.
      - exists (prefix ++ map EvSleep (catchSleep attempt) ++ added).
        rewrite Hadded, trace_retryCatch, Htrace, <- !app_assoc.
        split; [reflexivity|].
        rewrite !fallbacksOf_app, !invokedOf_app, fallbacksOf_sleeps,
          invokedOf_sleeps, Hfb, Hfb'.
        split; [reflexivity|]. by apply Forall_app.
      - intros q Hq. rewrite Hframe' by exact Hq.
        rewrite breakerOf_retryCatch, decide_False by done. by apply Hframe. }
    assert (Hframe1 : forall q, q <> p -> breakerOf q rt1 = breakerOf q rt).
    { intros q Hq. subst rt1. by rewrite breakerOf_putBreaker, decide_False. }
    destruct (allows (now rt) (breakerOf p rt)).
    + destruct (fst (fn (now rt))) as [v|e].
      * cbn [snd]. split.
        -- exists [EvInvoke p attempt]. rewrite recordSuccess_put.
           repeat split. repeat constructor.
        -- intros q Hq. rewrite recordSuccess_put, breakerOf_putBreaker,
             decide_False by done. by apply Hframe1.
      * apply (Hafter rt2 [EvInvoke p attempt]); try done.
        repeat constructor.
    + apply (Hafter rt1 []); try done. by rewrite app_nil_r.
Qed.

(** A value the loop returns is a value the operation returned. *)
Lemma retryLoop_normal remaining : forall attempt lastError rt value,
  fst (retryLoop fn p remaining attempt lastError rt) = Normal value ->
  exists time, fst (fn time) = Normal value.
Proof.
  induction remaining as [|remaining IH]; intros attempt lastError rt value.
  - discriminate.
  - rewrite retryLoop_step. cbv zeta.
    destruct (allows (now rt) (breakerOf p rt)); [|apply IH].
    destruct (fst (fn (now rt))) as [v|e] eqn:Hfn; [|apply IH].
    intros [= <-]. by exists (now rt).
Qed.

(** On a closed breaker an operation that succeeds is invoked once, and
    the breaker stays closed. *)
Lemma retryWithBackoff_closed rt value :
  state (breakerOf p rt) = CLOSED ->
  fst (fn (now rt)) = Normal value ->
  fst (retryWithBackoff fn p rt) = Normal value
  /\ state (breakerOf p (snd (retryWithBackoff fn p rt))) = CLOSED.
Proof.
  intros Hclosed Hfn. unfold retryWithBackoff. rewrite retryLoop_step. cbv zeta.
  unfold allows. rewrite Hclosed, Hfn. cbn [fst snd].
  split; [reflexivity|].
  by rewrite recordSuccess_put, breakerOf_putBreaker, decide_True.
Qed.

End ProviderCall.

Section Router.

Context (clients : LLMRouter.ProviderClients).

Implicit Types (rt : Runtime) (p q : LLMProvider) (db : Storage.Database).

Lemma generateLLMResponse_frame p userInput apiKey rt :
  let result := LLMRouter.generateLLMResponse clients p userInput apiKey rt in
  (exists added,
     trace (snd result) = trace rt ++ added
     /\ fallbacksOf added = []
     /\ Forall (fun q => q = p) (invokedOf added))
  /\ (forall q, q <> p -> breakerOf q (snd result) = breakerOf q rt).
Proof.
  cbv zeta. unfold LLMRouter.generateLLMResponse.
  rewrite canAttemptRequest_put.
  set (rt1 := putBreaker p (probed (now rt) (breakerOf p rt)) rt).
  assert (Hframe1 : forall q, q <> p -> breakerOf q rt1 = breakerOf q rt).
  { intros q Hq. subst rt1. by rewrite breakerOf_putBreaker, decide_False. }
  destruct (allows (now rt) (breakerOf p rt)); cbn [negb].
  - pose proof (retryLoop_frame (clients p userInput apiKey) p 4 0 None rt1)
      as [Htrace Hframe].
    change (retryLoop (clients p userInput apiKey) p 4 0 None rt1)
      with (retryWithBackoff (clients p userInput apiKey) p rt1)
      in Htrace, Hframe.
    change (trace rt1) with (trace rt) in Htrace.
    destruct (retryWithBackoff (clients p userInput apiKey) p rt1)
      as [[response|error] rt2]; cbn [fst snd] in *;
      (split; [exact Htrace|]); intros q Hq; rewrite Hframe by exact Hq;
      by apply Hframe1.
  - cbn [snd]. split; [|exact Hframe1]. exists []. by rewrite app_nil_r.
Qed.

Lemma generateLLMResponse_throws p userInput apiKey rt error :
  fst (LLMRouter.generateLLMResponse clients p userInput apiKey rt) = Throw error ->
  breakerError p error.
Proof.
  unfold LLMRouter.generateLLMResponse. rewrite canAttemptRequest_put.
  destruct (allows (now rt) (breakerOf p rt)); cbn [negb].
  - destruct (retryWithBackoff _ p _) as [[response|error'] rt2] eqn:Hretry;
      [discriminate|].
    intros [= <-]. left.
    apply (retryWithBackoff_throws (clients p userInput apiKey) p
             (putBreaker p (probed (now rt) (breakerOf p rt)) rt)).
    by rewrite Hretry.
  - intros [= <-]. by right.
Qed.

Lemma generateLLMResponse_normal p userInput apiKey rt response :
  fst (LLMRouter.generateLLMResponse clients p userInput apiKey rt)
  = Normal response ->
  responseOf clients response.
Proof.
  unfold LLMRouter.generateLLMResponse. rewrite canAttemptRequest_put.
  destruct (allows (now rt) (breakerOf p rt)); cbn [negb]; [|discriminate].
  destruct (retryWithBackoff _ p _) as [[response'|error] rt2] eqn:Hretry;
    [|discriminate].
  intros [= <-].
  destruct (retryLoop_normal (clients p userInput apiKey) p 4 0 None
              (putBreaker p (probed (now rt) (breakerOf p rt)) rt) response')
    as [time Htime].
  { change (fst (retryWithBackoff (clients p userInput apiKey) p
                   (putBreaker p (probed (now rt) (breakerOf p rt)) rt))
            = Normal response').
    by rewrite Hretry. }
  by exists p, userInput, apiKey, time.
Qed.

Lemma generateLLMResponse_closed p userInput apiKey rt response :
  state (breakerOf p rt) = CLOSED ->
  fst (clients p userInput apiKey (now rt)) = Normal response ->
  fst (LLMRouter.generateLLMResponse clients p userInput apiKey rt)
  = Normal response
  /\ state (breakerOf p
              (snd (LLMRouter.generateLLMResponse clients p userInput apiKey rt)))
     = CLOSED.
Proof.
  intros Hclosed Hfn. unfold LLMRouter.generateLLMResponse.
  rewrite canAttemptRequest_put. unfold allows, probed. rewrite Hclosed.
  cbn [negb].
  set (rt1 := putBreaker p (breakerOf p rt) rt).
  destruct (retryWithBackoff_closed (clients p userInput apiKey) p rt1 response)
    as [Hres Hstate].
  - subst rt1. by rewrite breakerOf_putBreaker, decide_True.
  - exact Hfn.
  - destruct (retryWithBackoff _ p rt1) as [[response'|error] rt2];
      cbn [fst snd] in *; [|discriminate].
    by injection Hres as ->.
Qed.

Lemma canAttemptRequest_closed p q rt :
  state (breakerOf q rt) = CLOSED ->
  state (breakerOf q (snd (canAttemptRequest p rt))) = CLOSED.
Proof.
  intros Hclosed. rewrite canAttemptRequest_put. cbn [snd].
  rewrite breakerOf_putBreaker. destruct (decide (p = q)) as [->|]; [|done].
  unfold probed. by rewrite Hclosed.
Qed.

Lemma firstFallback_spec p fallbacks available : forall rt,
  let result := firstFallback p fallbacks available rt in
  trace (snd result)
  = trace rt ++ match fst result with
                | Some fallback => [EvFallback p fallback]
                | None => []
                end
  /\ match fst result with
     | Some fallback => fallback ∈ available
     | None => True
     end
  /\ (forall q, state (breakerOf q rt) = CLOSED ->
                state (breakerOf q (snd result)) = CLOSED).
Proof.
  induction fallbacks as [|f rest IH]; intros rt; cbv zeta; cbn [firstFallback].
  - cbn [fst snd]. by rewrite app_nil_r.
  - case_bool_decide as Hin; [|apply IH].
    pose proof (fun q => canAttemptRequest_closed f q rt) as Hclosed.
    assert (Htrace : trace (snd (canAttemptRequest f rt)) = trace rt)
      by (by rewrite canAttemptRequest_put).
    destruct (canAttemptRequest f rt) as [[] rt1]; cbn [fst snd] in *.
    + unfold logEvent; cbn [trace]. rewrite Htrace.
      repeat split; [exact Hin|]. intros q Hq. by apply Hclosed.
    + destruct (IH rt1) as (Ht & Hmem & Hc). rewrite Ht, Htrace.
      repeat split; [exact Hmem|]. intros q Hq. by apply Hc, Hclosed.
Qed.

Lemma getFallbackProvider_spec p available rt :
  let result := getFallbackProvider p available rt in
  trace (snd result)
  = trace rt ++ match fst result with
                | Some fallback => [EvFallback p fallback]
                | None => []
                end
  /\ match fst result with
     | Some fallback => fallback ∈ available
     | None => True
     end
  /\ (forall q, state (breakerOf q rt) = CLOSED ->
                state (breakerOf q (snd result)) = CLOSED).
Proof. apply firstFallback_spec. Qed.

(** What the [try] block of [handleLLMResponse] leaves behind. *)
Lemma respond_spec discussionId message p senderName apiKey rt db :
  let result :=
    Routes.respond clients discussionId message p senderName apiKey rt db in
  (exists added,
     trace (fst (snd result)) = trace rt ++ added
     /\ fallbacksOf added = []
     /\ Forall (fun q => q = p) (invokedOf added))
  /\ (forall q, alwaysAnswers clients q ->
       state (breakerOf q rt) = CLOSED ->
       state (breakerOf q (fst (snd result))) = CLOSED)
  /\ match fst result with
     | Normal savedMessage =>
         Storage.sender savedMessage = senderName
         /\ responseOf clients (Storage.content savedMessage)
     | Throw error => breakerError p error
     end
  /\ (alwaysAnswers clients p ->
      state (breakerOf p rt) = CLOSED ->
      exists savedMessage,
        fst result = Normal savedMessage
        /\ fst (clients p message apiKey (now rt))
           = Normal (Storage.content savedMessage)
        /\ Storage.llmProvider savedMessage = Some (providerName p)).
Proof.
  cbv zeta. unfold Routes.respond.
  pose proof (generateLLMResponse_frame p message apiKey rt) as [Htrace Hframe].
  pose proof (generateLLMResponse_throws p message apiKey rt) as Hthrows.
  pose proof (generateLLMResponse_normal p message apiKey rt) as Hnormal.
  pose proof (generateLLMResponse_closed p message apiKey rt) as Hclosed.
  cbv zeta in *.
  destruct (LLMRouter.generateLLMResponse clients p message apiKey rt)
    as [[response|error] rt1]; cbn [fst snd] in *.
  - split; [exact Htrace|]. split; [|split].
    + intros q Hq Hstate. destruct (decide (q = p)) as [->|Hne].
      * specialize (Hq message apiKey (now rt)).
        destruct (fst (clients p message apiKey (now rt))) as [value|]
          eqn:Hvalue; [|discriminate].
        by destruct (Hclosed value Hstate eq_refl).
      * by rewrite Hframe.
    + split; [reflexivity|]. by apply Hnormal.
    + intros Hp Hstate. eexists. split; [reflexivity|]. cbn.
      specialize (Hp message apiKey (now rt)).
      destruct (fst (clients p message apiKey (now rt))) as [value|]
        eqn:Hvalue; [|discriminate].
      destruct (Hclosed value Hstate eq_refl) as [[= ->] _]. done.
  - split; [exact Htrace|]. split; [|split].
    + intros q Hq Hstate. destruct (decide (q = p)) as [->|Hne].
      * specialize (Hq message apiKey (now rt)).
        destruct (fst (clients p message apiKey (now rt))) as [value|]
          eqn:Hvalue; [|discriminate].
        by destruct (Hclosed value Hstate eq_refl).
      * by rewrite Hframe.
    + by apply Hthrows.
    + intros Hp Hstate. specialize (Hp message apiKey (now rt)).
      destruct (fst (clients p message apiKey (now rt))) as [value|]
        eqn:Hvalue; [|discriminate].
      by destruct (Hclosed value Hstate eq_refl).
Qed.

End Router.

(** ** One fan-out unit: a provider and its fallback chain *)

Section Unit.

Context (clients : LLMRouter.ProviderClients).

Lemma withoutProvider_elem fb available q :
  q ∈ Routes.withoutProvider fb available -> q ∈ available /\ q <> fb.
Proof.
  unfold Routes.withoutProvider. rewrite list_elem_of_In, List.filter_In.
  intros [Hin Hq]. split; [by apply list_elem_of_In|].
  intros ->. by rewrite bool_decide_eq_true_2 in Hq.
Qed.

Lemma responseOf_allThrow text :
  allThrow clients -> responseOf clients text -> False.
Proof.
  intros Hall (p & input & key & time & Hresponse).
  specialize (Hall p input key time). by rewrite Hresponse in Hall.
Qed.

(** [handleLLMResponse] always resolves to a message, in the slot of the
    provider it was called for; the message is a client's response or
    the report of an open circuit, behind one note per fallback hop; the
    substitutes of the chain are distinct available providers; and it
    leaves closed the breaker of every provider that answers. *)
Lemma handleLLMResponse_spec discussionId message p senderName apiKey
    available rt db :
  exists outcome,
    fst (Routes.handleLLMResponse clients discussionId message p senderName
           apiKey available rt db) = Normal outcome
    /\ Storage.sender outcome = senderName
    /\ (chainText (responseOf clients) (Storage.content outcome)
        \/ chainText unavailableText (Storage.content outcome))
    /\ (allThrow clients -> chainText unavailableText (Storage.content outcome))
    /\ (exists added,
          trace (fst (snd (Routes.handleLLMResponse clients discussionId message
                             p senderName apiKey available rt db)))
          = trace rt ++ added
          /\ NoDup (fallbacksOf added)
          /\ Forall (fun q => q ∈ available) (fallbacksOf added))
    /\ (forall q, alwaysAnswers clients q ->
          state (breakerOf q rt) = CLOSED ->
          state (breakerOf q
                   (fst (snd (Routes.handleLLMResponse clients discussionId
                                message p senderName apiKey available rt db))))
          = CLOSED).
Proof.
  funelim (Routes.handleLLMResponse clients discussionId message p senderName
             apiKey available rt db);
    try clear Heqcall;
    pose proof (respond_spec clients discussionId message0 provider senderName
                  apiKey rt db) as (Htrace & Hclosed & Houtcome & _);
    cbv zeta in Htrace, Hclosed, Houtcome;
    match goal with
    | Hresp : Routes.respond _ _ _ _ _ _ _ _ = _ |- _ =>
        rewrite Hresp in Htrace, Hclosed, Houtcome
    end;
    cbn [fst snd] in Htrace, Hclosed, Houtcome;
    try match goal with
        | Hcall : Routes.handleLLMResponse _ _ _ _ _ _ _ _ _ = _ |- _ =>
            rewrite Hcall in Hind; cbn [fst snd] in Hind
        end.
  - (* the provider answered *)
    destruct Houtcome as [Hsender Hresponse].
    exists savedMessage. cbn [fst snd]. split; [reflexivity|].
    split; [exact Hsender|]. split; [left; by constructor|].
    split; [intros Hall; by destruct (responseOf_allThrow _ Hall Hresponse)|].
    split; [|exact Hclosed].
    destruct Htrace as (added & Hadded & Hfb & _). exists added.
    rewrite Hfb. repeat split; [exact Hadded|constructor|constructor].
  - (* it failed and there is no substitute *)
    pose proof (getFallbackProvider_spec provider availableProviders rt1)
      as (Hgt & _ & Hgc).
    cbv zeta in Hgt, Hgc. rewrite e in Hgt, Hgc. cbn [fst snd] in Hgt, Hgc.
    unfold Routes.degradedResponse, Storage.createMessage. cbn [fst snd].
    eexists. split; [reflexivity|]. cbn [Storage.sender Storage.content].
    assert (Hun : chainText unavailableText
                    (Routes.responseUnavailable provider error)).
    { constructor. by exists provider, error. }
    split; [reflexivity|]. split; [by right|]. split; [done|].
    split; [|intros q Hq Hstate; by apply Hgc, Hclosed].
    destruct Htrace as (added & Hadded & Hfb & _). exists added.
    rewrite Hgt, Hadded, app_nil_r, Hfb.
    repeat split; constructor.
  - (* it failed and the substitute's chain gave a message *)
    pose proof (getFallbackProvider_spec provider availableProviders rt1)
      as (Hgt & Hmem & Hgc).
    cbv zeta in Hgt, Hmem, Hgc. rewrite found in Hgt, Hmem, Hgc.
    cbn [fst snd] in Hgt, Hmem, Hgc.
    destruct Hind as (outcome & [= <-] & Hsender & Htext & Hall & Hrec & Hrc).
    eexists. cbn [fst snd]. split; [reflexivity|].
    unfold Routes.markDegraded. cbn [Storage.sender Storage.content].
    split; [exact Hsender|]. split; [|split; [|split]].
    + destruct Htext as [Htext|Htext]; [left|right]; by apply chain_hop.
    + intros Hthrow. apply chain_hop. by apply Hall.
    + destruct Htrace as (added & Hadded & Hfb & _).
      destruct Hrec as (added' & Hadded' & Hnodup & Hsub).
      exists (added ++ [EvFallback provider fallbackProvider] ++ added').
      rewrite Hadded', Hgt, Hadded, <- !app_assoc.
      split; [reflexivity|].
      rewrite !fallbacksOf_app, Hfb. cbn [fallbacksOf app].
      split.
      * constructor; [|exact Hnodup]. intros Hin.
        rewrite Forall_forall in Hsub.
        by destruct (withoutProvider_elem _ _ _ (Hsub _ Hin)).
      * constructor; [exact Hmem|].
        eapply Forall_impl; [exact Hsub|].
        intros q Hq. by destruct (withoutProvider_elem _ _ _ Hq).
    + intros q Hq Hstate. by apply Hrc, Hgc, Hclosed.
  - (* the substitute's chain cannot throw *)
    by destruct Hind as (outcome & [=] & _).
Qed.

End Unit.

Section FanOut.

Context (clients : LLMRouter.ProviderClients).

(** A provider that answers, asked while its breaker is closed, gives
    its own response, with no note of any fallback. *)
Lemma handleLLMResponse_answers discussionId message p senderName apiKey
    available rt db :
  alwaysAnswers clients p ->
  state (breakerOf p rt) = CLOSED ->
  exists outcome,
    fst (Routes.handleLLMResponse clients discussionId message p senderName
           apiKey available rt db) = Normal outcome
    /\ fst (clients p message apiKey (now rt)) = Normal (Storage.content outcome)
    /\ Storage.llmProvider outcome = Some (providerName p).
Proof.
  intros Hanswers Hstate.
  pose proof (respond_spec clients discussionId message p senderName apiKey rt db)
    as (_ & _ & _ & Hown).
  destruct (Hown Hanswers Hstate) as (saved & Hsaved & Htext & Hprovider).
  funelim (Routes.handleLLMResponse clients discussionId message p senderName
             apiKey available rt db);
    try clear Heqcall;
    match goal with
    | Hresp : Routes.respond _ _ _ _ _ _ _ _ = _ |- _ =>
        rewrite Hresp in Hsaved; cbn [fst] in Hsaved
    end; try discriminate.
  injection Hsaved as ->. by exists saved.
Qed.

Lemma allSettled_spec discussionId content available calls : forall rt db,
  Forall2 (fun call result =>
             exists outcome,
               result = Normal outcome /\ settled clients content rt call outcome)
    calls
    (fst (Routes.allSettled clients discussionId content available calls rt db)).
Proof.
  induction calls as [|call calls IH]; intros rt db; cbn [Routes.allSettled].
  - constructor.
  - pose proof (handleLLMResponse_spec clients discussionId content
                  (Routes.callProvider call) (Routes.callSender call)
                  (Routes.callApiKey call) available rt db)
      as (outcome & Hout & Hsender & Htext & Hall & _ & Hclosed).
    pose proof (handleLLMResponse_answers discussionId content
                  (Routes.callProvider call) (Routes.callSender call)
                  (Routes.callApiKey call) available rt db) as Hanswers.
    destruct (Routes.handleLLMResponse clients discussionId content
                (Routes.callProvider call) (Routes.callSender call)
                (Routes.callApiKey call) available rt db)
      as [result [rt1 db1]]; cbn [fst snd] in *.
    specialize (IH rt1 db1).
    destruct (Routes.allSettled clients discussionId content available calls
                rt1 db1) as [results st]; cbn [fst] in *.
    constructor.
    + exists outcome. split; [exact Hout|]. split; [exact Hsender|].
      split; [exact Htext|]. split; [exact Hall|].
      intros Ha Hs. destruct (Hanswers Ha Hs) as (outcome' & Ho & Ht & Hp).
      rewrite Hout in Ho. injection Ho as <-. by exists (now rt).
    + eapply Forall2_impl; [exact IH|].
      intros call' result' (outcome' & -> & Hs' & Ht' & Ha' & Hq').
      exists outcome'. split; [reflexivity|]. split; [exact Hs'|].
      split; [exact Ht'|]. split; [exact Ha'|].
      intros Ha Hs. apply Hq'; [exact Ha|]. by apply Hclosed.
Qed.

Lemma fulfilledValues_normal (calls : list Routes.FanOutCall)
    (results : list (Completion Storage.Message))
    (P : Routes.FanOutCall -> Storage.Message -> Prop) :
  Forall2 (fun call result => exists outcome, result = Normal outcome /\ P call outcome)
    calls results ->
  Forall (fun result => isThrow result = false) results
  /\ Forall2 P calls (Routes.fulfilledValues results).
Proof.
  induction 1 as [|call result calls results (outcome & -> & HP) _ [IH1 IH2]].
  - split; constructor.
  - split; constructor; done.
Qed.

Lemma fanOutCalls_providers enabledModels keys :
  map Routes.callProvider (Routes.fanOutCalls enabledModels keys)
  = List.filter (dispatched enabledModels keys) [openai; claude; deepseek; grok]
  /\ Forall (fun call => Routes.callSender call = modelName (Routes.callProvider call)
                         /\ Routes.configuredKey (keyOf keys (Routes.callProvider call))
                            = Some (Routes.callApiKey call))
       (Routes.fanOutCalls enabledModels keys).
Proof.
  unfold Routes.fanOutCalls, Routes.fanOutCall, dispatched, Routes.hasKey.
  cbn [List.filter keyOf modelName].
  destruct (Routes.configuredKey (Storage.openaiKey keys)) eqn:H1;
    destruct (Routes.configuredKey (Storage.anthropicKey keys)) eqn:H2;
    destruct (Routes.configuredKey (Storage.deepseekKey keys)) eqn:H3;
    destruct (Routes.configuredKey (Storage.grokKey keys)) eqn:H4;
    cbn [andb];
    repeat case_bool_decide; cbn [map app Routes.callProvider];
    (split; [reflexivity|]); repeat constructor; done.
Qed.

End FanOut.



(** Within one chain the substitutes are distinct providers taken from
    the available ones, so a chain has at most as many fallback hops as
    there are available providers. *)
Lemma fallback_substitutes_distinct (clients : LLMRouter.ProviderClients)
    (discussionId message : string) (p : LLMProvider)
    (senderName apiKey : string) (available : list LLMProvider)
    (rt : Runtime) (db : Storage.Database) :
  exists added,
    trace (fst (snd (Routes.handleLLMResponse clients discussionId message p
                       senderName apiKey available rt db)))
    = trace rt ++ added
    /\ NoDup (fallbacksOf added)
    /\ Forall (fun q => q ∈ available) (fallbacksOf added).
Proof.
  by destruct (handleLLMResponse_spec clients discussionId message p senderName
                 apiKey available rt db) as (_ & _ & _ & _ & _ & H & _).
Qed.

(** C4: the chain started for OpenAI, with OpenAI and Claude available
    and both failing, falls back to Claude and from Claude back to
    OpenAI: the list handed down the chain loses each substitute but
    never the provider the chain was started for, and by the time Claude
    has failed the cooldown of OpenAI's breaker is over.  OpenAI's client
    is invoked again, and the message reads as a cycle. *)
Theorem fallback_chain_returns_to_origin :
  let result :=
    Routes.handleLLMResponse Scenario.failingClients "d1" "hello" openai "gpt4"
      "sk-openai" [openai; claude] Scenario.freshRuntime Scenario.emptyDatabase in
  fallbacksOf (trace (fst (snd result))) = [claude; openai]
  /\ invokedOf (trace (fst (snd result)))
     = [openai; openai; openai; claude; claude; claude; openai]
  /\ match fst result with
     | Normal outcome =>
         Storage.content outcome
         = Routes.unavailablePrefix openai claude
           +:+ Routes.unavailablePrefix claude openai
           +:+ Routes.responseUnavailable openai (circuitOpenError openai)
     | Throw _ => False
     end.
Proof. vm_compute. repeat split. Qed.

(** * Further properties of the code *)

(** ** The life of a circuit breaker *)

Section BreakerLife.

Implicit Types (p q : LLMProvider) (rt : Runtime) (b : CircuitBreakerState).

Lemma consistent_runCall rt call :
  forward call ->
  (forall p, consistent (now rt) (breakerOf p rt)) ->
  forall p, consistent (now (runCall rt call)) (breakerOf p (runCall rt call)).
Proof.
  intros Hforward Hinv p. specialize (Hinv p).
  pose proof Hinv as (Hclosed & Hsome & Htime).
  destruct call as [q|q|q|ms]; cbn [runCall].
  - rewrite canAttemptRequest_put; cbn [snd].
    rewrite breakerOf_putBreaker, now_putBreaker.
    destruct (decide (q = p)) as [->|]; [|done].
    unfold probed. destruct (state (breakerOf p rt)) eqn:Hstate;
      try exact Hinv.
    destruct (allows (now rt) (breakerOf p rt)); [|exact Hinv].
    unfold consistent; cbn [state failures lastFailureTime].
    split; [|split; [|exact Htime]].
    + split; [discriminate|]. intros Hlt. apply Hclosed in Hlt. congruence.
    + intros _. apply Hsome. congruence.
  - rewrite recordSuccess_put, breakerOf_putBreaker, now_putBreaker.
    destruct (decide (q = p)) as [->|]; [|done].
    unfold consistent, succeeded; cbn [state failures lastFailureTime].
    split; [|split; [done|exact Htime]].
    split; [intros _; unfold failureThreshold; lia|done].
  - rewrite recordFailure_put, breakerOf_putBreaker, now_putBreaker.
    destruct (decide (q = p)) as [->|]; [|done].
    unfold consistent, failed; cbn [state failures lastFailureTime].
    destruct (failureThreshold <=? S (failures (breakerOf p rt)))%nat eqn:Hth.
    + apply Nat.leb_le in Hth.
      split; [split; [discriminate|lia]|]. split; [done|].
      intros t [= <-]. lia.
    + apply Nat.leb_gt in Hth.
      split; [|split; [done|intros t [= <-]; lia]].
      split; [intros _; exact Hth|]. intros _. apply Hclosed. lia.
  - rewrite breakerOf_elapse. cbn [elapse now]. simpl in Hforward.
    split; [exact Hclosed|]. split; [exact Hsome|].
    intros t Ht. specialize (Htime t Ht). lia.
Qed.

Lemma consistent_fresh time p :
  consistent time (breakerOf p (mkRuntime ∅ time [])).
Proof.
  unfold breakerOf; cbn. rewrite lookup_empty.
  unfold consistent, freshBreaker, failureThreshold; cbn.
  split; [split; [lia|done]|]. split; done.
Qed.

(** A half-open breaker lets every request through, and stays as it is. *)
Lemma pollAfter_half_open p waits : forall rt,
  state (breakerOf p rt) = HALF_OPEN ->
  fst (pollAfter p waits rt) = repeat true (length waits)
  /\ breakerOf p (snd (pollAfter p waits rt)) = breakerOf p rt.
Proof.
  induction waits as [|w waits IH]; intros rt Hhalf; simpl; [done|].
  rewrite canAttemptRequest_put, breakerOf_elapse.
  unfold allows, probed. rewrite Hhalf.
  set (rt1 := putBreaker p (breakerOf p rt) (elapse w rt)).
  assert (Hb1 : breakerOf p rt1 = breakerOf p rt).
  { subst rt1. by rewrite breakerOf_putBreaker, decide_True. }
  destruct (IH rt1) as [Hans Hb]; [by rewrite Hb1|].
  destruct (pollAfter p waits rt1) as [answers rt2]; simpl in *.
  by rewrite Hans, Hb, Hb1.
Qed.

(** A closed breaker stays closed while the failures counted stay below
    the threshold. *)
Lemma closed_while_below p calls : forall rt,
  state (breakerOf p rt) = CLOSED ->
  (failures (breakerOf p rt) + failuresIn p calls < failureThreshold)%nat ->
  state (breakerOf p (runCalls calls rt)) = CLOSED
  /\ (failures (breakerOf p (runCalls calls rt))
      <= failures (breakerOf p rt) + failuresIn p calls)%nat.
Proof.
  induction calls as [|call calls IH]; intros rt Hclosed Hbelow.
  - unfold runCalls, failuresIn; simpl. split; [done|lia].
  - unfold runCalls; cbn [fold_left]. fold (runCalls calls (runCall rt call)).
    unfold failuresIn in *; cbn [List.filter] in Hbelow |- *.
    assert (Hstep : state (breakerOf p (runCall rt call)) = CLOSED
                    /\ (failures (breakerOf p (runCall rt call))
                        <= failures (breakerOf p rt)
                           + (if bool_decide (call = Failure p) then 1 else 0))%nat).
    { destruct call as [q|q|q|ms]; cbn [runCall].
      - rewrite canAttemptRequest_put; cbn [snd]. rewrite breakerOf_putBreaker.
        destruct (decide (q = p)) as [->|]; [|split; [done|lia]].
        unfold probed. rewrite Hclosed. split; [done|lia].
      - rewrite recordSuccess_put, breakerOf_putBreaker.
        destruct (decide (q = p)) as [->|]; [|split; [done|lia]].
        simpl. split; [done|lia].
      - rewrite recordFailure_put, breakerOf_putBreaker.
        destruct (decide (q = p)) as [->|Hne].
        + rewrite bool_decide_eq_true_2 in * by reflexivity.
          cbn [length] in Hbelow. unfold failed; cbn [state failures].
          destruct (failureThreshold <=? S (failures (breakerOf p rt)))%nat
            eqn:Hth; [apply Nat.leb_le in Hth; lia|]. split; [done|lia].
        + split; [done|lia].
      - rewrite breakerOf_elapse. split; [done|lia]. }
    destruct Hstep as [Hc Hf].
    destruct (bool_decide (call = Failure p)); cbn [length] in *;
      (destruct (IH (runCall rt call) Hc ltac:(lia)) as [Hc' Hf'];
       split; [exact Hc'|lia]).
Qed.

End BreakerLife.

(** X1: the fields of a breaker stay consistent.  When every breaker is
    consistent at the start (as in a fresh process), then after any
    sequence of [canAttemptRequest], [recordSuccess] and [recordFailure]
    calls for any providers, with time moving forward in between, every
    breaker is closed exactly when it counts fewer than three failures,
    has a last failure time whenever it is not closed, and no last
    failure time lies in the future. *)
Theorem breaker_invariant (calls : list BreakerCall) (rt : Runtime) :
  (forall p, consistent (now rt) (breakerOf p rt)) ->
  Forall forward calls ->
  forall p, consistent (now (runCalls calls rt)) (breakerOf p (runCalls calls rt)).
Proof.
  intros Hinv Hforward. revert rt Hinv.
  induction Hforward as [|call calls Hcall _ IH]; intros rt Hinv; [exact Hinv|].
  unfold runCalls; cbn [fold_left]. apply IH.
  by apply consistent_runCall.
Qed.

Lemma breaker_invariant_witness :
  consistent 31000
    (breakerOf openai
       (runCalls [Failure openai; Failure openai; Wait 500; Failure openai;
                  Wait 30500; MayAttempt openai]
          (mkRuntime ∅ 0 []))).
Proof.
  exact (breaker_invariant
           [Failure openai; Failure openai; Wait 500; Failure openai;
            Wait 30500; MayAttempt openai] (mkRuntime ∅ 0 [])
           (consistent_fresh 0)
           ltac:(repeat constructor; simpl; lia) openai).
Defined.

(** X2: once the cooldown of an open breaker is over, the first
    [canAttemptRequest] moves it to HALF_OPEN and every later one is
    answered true as well, however many are made and whenever: the
    [halfOpenAttempts] limit of the configuration is not enforced.  The
    failure count and the time of the last failure stay as they were. *)
Theorem half_open_admits_every_request (p : LLMProvider) (rt : Runtime)
    (t : Z) (waits : list Z) :
  state (breakerOf p rt) = OPEN ->
  lastFailureTime (breakerOf p rt) = Some t ->
  cooldownMs < now rt - t ->
  Forall (fun w => 0 <= w) waits ->
  waits <> [] ->
  let result := pollAfter p waits rt in
  fst result = repeat true (length waits)
  /\ state (breakerOf p (snd result)) = HALF_OPEN
  /\ failures (breakerOf p (snd result)) = failures (breakerOf p rt)
  /\ lastFailureTime (breakerOf p (snd result)) = Some t.
Proof.
  intros Hopen Hlast Hcool Hpos Hne. destruct waits as [|w waits]; [done|].
  inversion Hpos as [|? ? Hw _]; subst. cbv zeta. cbn [pollAfter].
  rewrite canAttemptRequest_put, breakerOf_elapse.
  assert (Hallow : allows (now (elapse w rt)) (breakerOf p rt) = true).
  { unfold allows. rewrite Hopen, Hlast. apply Z.ltb_lt. simpl. lia. }
  unfold probed. rewrite Hallow, Hopen.
  set (b := mkBreaker (failures (breakerOf p rt)) (lastFailureTime (breakerOf p rt))
              HALF_OPEN).
  set (rt1 := putBreaker p b (elapse w rt)).
  assert (Hb1 : breakerOf p rt1 = b).
  { subst rt1. by rewrite breakerOf_putBreaker, decide_True. }
  destruct (pollAfter_half_open p waits rt1) as [Hans Hb]; [by rewrite Hb1|].
  destruct (pollAfter p waits rt1) as [answers rt2]; cbn [fst snd] in *.
  rewrite Hans, Hb, Hb1. subst b. cbn. by rewrite Hlast.
Qed.

Lemma half_open_admits_every_request_witness :
  let rt := mkRuntime {[ claude := mkBreaker 3 (Some 1000) OPEN ]} 31001 [] in
  fst (pollAfter claude [0; 0; 5; 100000] rt) = [true; true; true; true]
  /\ state (breakerOf claude (snd (pollAfter claude [0; 0; 5; 100000] rt)))
     = HALF_OPEN.
Proof.
  cbv zeta.
  destruct (half_open_admits_every_request claude
              (mkRuntime {[ claude := mkBreaker 3 (Some 1000) OPEN ]} 31001 [])
              1000 [0; 0; 5; 100000]) as (H1 & H2 & _).
  - reflexivity.
  - reflexivity.
  - vm_compute. reflexivity.
  - repeat constructor; lia.
  - discriminate.
  - split; [exact H1|exact H2].
Defined.

(** X3: a success forgives everything.  After [recordSuccess] for a
    provider, whatever the state of its breaker was, the breaker is
    closed and stays closed, and [canAttemptRequest] answers true, after
    any later calls among which fewer than three are failures of that
    provider: failures are counted since the last success, not in
    a window of time. *)
Theorem success_forgives_failures (p : LLMProvider) (rt : Runtime)
    (calls : list BreakerCall) :
  (failuresIn p calls < failureThreshold)%nat ->
  fst (canAttemptRequest p (runCalls calls (recordSuccess p rt))) = true
  /\ state (breakerOf p (runCalls calls (recordSuccess p rt))) = CLOSED.
Proof.
  intros Hbelow.
  destruct (closed_while_below p calls (recordSuccess p rt)) as [Hclosed _].
  - by rewrite recordSuccess_put, breakerOf_putBreaker, decide_True.
  - by rewrite recordSuccess_put, breakerOf_putBreaker, decide_True.
  - split; [|exact Hclosed].
    rewrite canAttemptRequest_put; cbn [fst]. unfold allows. by rewrite Hclosed.
Qed.

Lemma success_forgives_failures_witness :
  fst (canAttemptRequest grok
         (runCalls [Failure grok; Wait 5; Failure grok; Failure openai;
                    Failure openai; Failure openai]
            (recordSuccess grok
               (mkRuntime {[ grok := mkBreaker 7 (Some 0) HALF_OPEN ]} 40000 []))))
  = true.
Proof.
  exact (proj1 (success_forgives_failures grok
                  (mkRuntime {[ grok := mkBreaker 7 (Some 0) HALF_OPEN ]} 40000 [])
                  [Failure grok; Wait 5; Failure grok; Failure openai;
                   Failure openai; Failure openai]
                  ltac:(vm_compute; lia))).
Defined.

(** X4: the breakers of different providers are independent: calls
    made for other providers, and the passing of time, leave the breaker
    of a provider exactly as it was. *)
Theorem breakers_are_independent (p : LLMProvider) (calls : list BreakerCall)
    (rt : Runtime) :
  Forall (fun call => concerns p call = false) calls ->
  breakerOf p (runCalls calls rt) = breakerOf p rt.
Proof.
  intros Hother. revert rt.
  induction Hother as [|call calls Hcall _ IH]; intros rt; [reflexivity|].
  unfold runCalls; cbn [fold_left]. fold (runCalls calls (runCall rt call)).
  rewrite IH. destruct call as [q|q|q|ms]; cbn [runCall concerns] in *;
    try apply bool_decide_eq_false in Hcall.
  - rewrite canAttemptRequest_put; cbn [snd].
    by rewrite breakerOf_putBreaker, decide_False.
  - by rewrite recordSuccess_put, breakerOf_putBreaker, decide_False.
  - by rewrite recordFailure_put, breakerOf_putBreaker, decide_False.
  - apply breakerOf_elapse.
Qed.

Lemma breakers_are_independent_witness :
  breakerOf claude
    (runCalls [Failure openai; Failure openai; Failure openai; Wait 10;
               MayAttempt grok; Success deepseek]
       (mkRuntime {[ claude := mkBreaker 2 (Some 5) CLOSED ]} 10 []))
  = mkBreaker 2 (Some 5) CLOSED.
Proof.
  exact (breakers_are_independent claude
           [Failure openai; Failure openai; Failure openai; Wait 10;
            MayAttempt grok; Success deepseek]
           (mkRuntime {[ claude := mkBreaker 2 (Some 5) CLOSED ]} 10 [])
           ltac:(repeat constructor)).
Defined.

(** X5: the backoff delay is 1000 ms doubled with each attempt, up to
    attempt 3, and 10000 ms from attempt 4 on; it lies between 1000 and
    10000 ms and never decreases.  For the attempts after which the loop
    of [retryWithBackoff] sleeps (those before [maxRetries]) the delay is
    below the cap. *)
Theorem backoff_delay_schedule (attempt : nat) :
  ((attempt <= 3)%nat ->
   calculateBackoffDelay attempt = baseDelayMs * 2 ^ Z.of_nat attempt)
  /\ ((4 <= attempt)%nat -> calculateBackoffDelay attempt = maxDelayMs)
  /\ baseDelayMs <= calculateBackoffDelay attempt <= maxDelayMs
  /\ calculateBackoffDelay attempt <= calculateBackoffDelay (S attempt)
  /\ ((attempt < maxRetries)%nat -> calculateBackoffDelay attempt < maxDelayMs).
Proof.
  unfold calculateBackoffDelay, baseDelayMs, maxDelayMs, maxRetries.
  assert (Hmono : forall a b : nat, (a <= b)%nat -> 2 ^ Z.of_nat a <= 2 ^ Z.of_nat b)
    by (intros a b Hab; apply Z.pow_le_mono_r; lia).
  split; [|split; [|split; [|split]]].
  - intros Hle. pose proof (Hmono attempt 3%nat Hle). simpl in *. lia.
  - intros Hge. pose proof (Hmono 4%nat attempt Hge). simpl in *. lia.
  - pose proof (Hmono 0%nat attempt ltac:(lia)). simpl in *. lia.
  - pose proof (Hmono attempt (S attempt) ltac:(lia)). lia.
  - intros Hlt. pose proof (Hmono attempt 2%nat ltac:(lia)). simpl in *. lia.
Qed.

Lemma backoff_delay_schedule_witness :
  calculateBackoffDelay 2 = 4000
  /\ calculateBackoffDelay 7 = 10000
  /\ calculateBackoffDelay 2 < maxDelayMs.
Proof.
  destruct (backoff_delay_schedule 2) as (Hearly & _ & _ & _ & Hbelow).
  destruct (backoff_delay_schedule 7) as (_ & Hlate & _).
  split; [exact (Hearly ltac:(lia))|]. split; [exact (Hlate ltac:(lia))|].
  apply Hbelow. unfold maxRetries. lia.
Defined.

(** ** The choice of a substitute *)

Section Fallback.

Implicit Types (p q : LLMProvider) (rt : Runtime).

Lemma canAttemptRequest_refused p rt :
  fst (canAttemptRequest p rt) = false ->
  cooling p rt
  /\ now (snd (canAttemptRequest p rt)) = now rt
  /\ forall q, breakerOf q (snd (canAttemptRequest p rt)) = breakerOf q rt.
Proof.
  intros Hrefused. pose proof (refused_cooling p rt Hrefused) as Hcool.
  split; [exact Hcool|].
  destruct (cooling_refused p rt Hcool) as [_ Hprobe].
  rewrite canAttemptRequest_put; cbn [snd]. rewrite Hprobe.
  split; [reflexivity|]. intros q. rewrite breakerOf_putBreaker.
  by destruct (decide (p = q)) as [->|].
Qed.

Lemma cooling_ext p rt rt' :
  now rt' = now rt -> breakerOf p rt' = breakerOf p rt ->
  cooling p rt' -> cooling p rt.
Proof. unfold cooling. by intros -> ->. Qed.

Lemma firstFallback_choice failedProvider fallbacks available : forall rt,
  let result := firstFallback failedProvider fallbacks available rt in
  now (snd result) = now rt
  /\ match fst result with
     | Some fallback =>
         exists skipped rest,
           fallbacks = skipped ++ fallback :: rest
           /\ fallback ∈ available
           /\ allows (now rt) (breakerOf fallback rt) = true
           /\ Forall (fun q => q ∈ available -> cooling q rt) skipped
     | None => Forall (fun q => q ∈ available -> cooling q rt) fallbacks
     end.
Proof.
  induction fallbacks as [|f rest IH]; intros rt; cbv zeta; cbn [firstFallback].
  - cbn [fst snd]. split; [reflexivity|constructor].
  - case_bool_decide as Hin.
    + destruct (canAttemptRequest f rt) as [[] rt1] eqn:Hcan.
      * cbn [fst snd]. pose proof (canAttemptRequest_put f rt) as Hput.
        rewrite Hcan in Hput. injection Hput as Hallow ->.
        split; [reflexivity|]. exists [], rest. by repeat split.
      * destruct (canAttemptRequest_refused f rt) as (Hcool & Hnow & Hsame);
          [by rewrite Hcan|].
        rewrite Hcan in Hnow, Hsame. cbn [snd] in Hnow, Hsame.
        specialize (IH rt1). cbv zeta in IH. destruct IH as [Hn IH].
        split; [by rewrite Hn|].
        assert (Hback : forall q, cooling q rt1 -> cooling q rt).
        { intros q. apply cooling_ext; [exact Hnow|apply Hsame]. }
        destruct (fst (firstFallback failedProvider rest available rt1))
          as [fallback|].
        -- destruct IH as (skipped & rest' & -> & Hmem & Hallow & Hskipped).
           exists (f :: skipped), rest'. rewrite Hnow, Hsame in Hallow.
           repeat split; try done. constructor; [done|].
           eapply Forall_impl; [exact Hskipped|]. intros q Hq Hav. auto.
        -- constructor; [done|].
           eapply Forall_impl; [exact IH|]. intros q Hq Hav. auto.
    + specialize (IH rt). cbv zeta in IH. destruct IH as [Hn IH].
      split; [exact Hn|].
      destruct (fst (firstFallback failedProvider rest available rt))
        as [fallback|].
      * destruct IH as (skipped & rest' & -> & Hmem & Hallow & Hskipped).
        exists (f :: skipped), rest'. repeat split; try done.
        constructor; [done|exact Hskipped].
      * constructor; [done|exact IH].
Qed.

Lemma hierarchy_others p q : q <> p -> q ∈ FALLBACK_HIERARCHY p.
Proof.
  destruct p, q; intros H; try done; cbn [FALLBACK_HIERARCHY];
    repeat (first [apply list_elem_of_here | apply list_elem_of_further]).
Qed.

Lemma hierarchy_not_self p : p ∉ FALLBACK_HIERARCHY p.
Proof.
  destruct p; cbn [FALLBACK_HIERARCHY]; intros Hin;
    repeat (apply elem_of_cons in Hin as [Hin|Hin]; [discriminate|]);
    by apply elem_of_nil in Hin.
Qed.

End Fallback.

(** X6: what [getFallbackProvider] chooses.  The substitute is never the
    provider that failed; it is one of the available providers, its
    breaker lets a request through at that moment, and every provider
    before it in the fallback order of the failed provider is either not
    available or has an open breaker that is still cooling down.  The
    answer is [null] exactly when every other available provider is
    cooling down.  No time passes. *)
Theorem fallback_choice (failedProvider : LLMProvider)
    (availableProviders : list LLMProvider) (rt : Runtime) :
  let result := getFallbackProvider failedProvider availableProviders rt in
  now (snd result) = now rt
  /\ match fst result with
     | Some fallback =>
         fallback <> failedProvider
         /\ fallback ∈ availableProviders
         /\ allows (now rt) (breakerOf fallback rt) = true
         /\ exists skipped rest,
              FALLBACK_HIERARCHY failedProvider = skipped ++ fallback :: rest
              /\ Forall (fun q => q ∈ availableProviders -> cooling q rt) skipped
     | None =>
         forall q, q ∈ availableProviders -> q <> failedProvider -> cooling q rt
     end.
Proof.
  cbv zeta. unfold getFallbackProvider.
  pose proof (firstFallback_choice failedProvider
                (FALLBACK_HIERARCHY failedProvider) availableProviders rt)
    as [Hnow Hchoice].
  cbv zeta in Hnow, Hchoice. split; [exact Hnow|].
  destruct (fst (firstFallback failedProvider (FALLBACK_HIERARCHY failedProvider)
                   availableProviders rt)) as [fallback|].
  - destruct Hchoice as (skipped & rest & Heq & Hmem & Hallow & Hskipped).
    split.
    + intros ->. apply (hierarchy_not_self failedProvider).
      rewrite Heq. apply elem_of_app. right. apply list_elem_of_here.
    + repeat split; try done. by exists skipped, rest.
  - intros q Hav Hne. rewrite Forall_forall in Hchoice.
    apply Hchoice; [|exact Hav]. by apply hierarchy_others.
Qed.

(** ** The status report *)

Section Status.

Implicit Types (p q : LLMProvider) (rt : Runtime).

Lemma getCircuitBreaker_same p rt :
  fst (getCircuitBreaker p rt) = breakerOf p rt
  /\ now (snd (getCircuitBreaker p rt)) = now rt
  /\ trace (snd (getCircuitBreaker p rt)) = trace rt
  /\ (forall q, breakerOf q (snd (getCircuitBreaker p rt)) = breakerOf q rt)
  /\ is_Some (circuitBreakers (snd (getCircuitBreaker p rt)) !! p)
  /\ (forall q, is_Some (circuitBreakers rt !! q) ->
                is_Some (circuitBreakers (snd (getCircuitBreaker p rt)) !! q)).
Proof.
  rewrite getCircuitBreaker_put; cbn [fst snd].
  split; [reflexivity|]. split; [reflexivity|]. split; [reflexivity|].
  split; [|split].
  - intros q. rewrite breakerOf_putBreaker. by destruct (decide (p = q)) as [->|].
  - unfold putBreaker, setBreakers; cbn. by rewrite lookup_insert_eq.
  - intros q Hq. unfold putBreaker, setBreakers; cbn.
    destruct (decide (p = q)) as [->|Hne].
    + by rewrite lookup_insert_eq.
    + by rewrite lookup_insert_ne.
Qed.

Lemma statusOf_spec providers : forall rt,
  fst (statusOf providers rt) = map (statusEntry rt) providers
  /\ now (snd (statusOf providers rt)) = now rt
  /\ trace (snd (statusOf providers rt)) = trace rt
  /\ (forall q, breakerOf q (snd (statusOf providers rt)) = breakerOf q rt)
  /\ (forall q, q ∈ providers \/ is_Some (circuitBreakers rt !! q) ->
                is_Some (circuitBreakers (snd (statusOf providers rt)) !! q)).
Proof.
  induction providers as [|p providers IH]; intros rt; cbn [statusOf map].
  - cbn [fst snd]. repeat split; try done. intros q [Hq|Hq]; [|done].
    by apply elem_of_nil in Hq.
  - destruct (getCircuitBreaker_same p rt) as (Hb & Hn & Ht & Hsame & Hp & Hkeep).
    destruct (getCircuitBreaker p rt) as [breaker rt1]; cbn [fst snd] in *.
    destruct (IH rt1) as (Hs & Hn' & Ht' & Hsame' & Hdom).
    destruct (statusOf providers rt1) as [status rt2]; cbn [fst snd] in *.
    split; [|split; [congruence|split; [congruence|split]]].
    + rewrite Hs, Hb. unfold statusEntry at 2. f_equal.
      apply map_ext. intros q. unfold statusEntry. by rewrite Hsame.
    + intros q. by rewrite Hsame', Hsame.
    + intros q [Hq|Hq].
      * apply elem_of_cons in Hq as [->|Hq]; apply Hdom; [by right|by left].
      * apply Hdom. right. by apply Hkeep.
Qed.

End Status.

(** X7: [getCircuitBreakerStatus] only observes.  It reports the four
    providers in the order openai, claude, deepseek, grok, each with the
    state, failure count and last failure time its breaker has at that
    moment (a provider never used reads CLOSED, 0, null; an open breaker
    whose cooldown is over still reads OPEN); it changes no breaker and
    does not touch the clock, and afterwards all four providers have an
    entry in the map. *)
Theorem status_report_observes (rt : Runtime) :
  let result := getCircuitBreakerStatus rt in
  fst result = map (statusEntry rt) [openai; claude; deepseek; grok]
  /\ (forall p, breakerOf p (snd result) = breakerOf p rt)
  /\ (forall p, is_Some (circuitBreakers (snd result) !! p))
  /\ now (snd result) = now rt
  /\ trace (snd result) = trace rt.
Proof.
  cbv zeta. unfold getCircuitBreakerStatus, allProviders.
  destruct (statusOf_spec [openai; claude; deepseek; grok] rt)
    as (Hs & Hn & Ht & Hsame & Hdom).
  repeat split; try done. intros p. apply Hdom. left.
  destruct p; repeat (first [apply list_elem_of_here | apply list_elem_of_further]).
Qed.

(** ** What the router reports and when it succeeds *)



Section RetrySuccess.

Context {T : Type} (fn : Operation T) (p : LLMProvider).

Lemma catchSleep_early attempt :
  (attempt <= 2)%nat -> catchSleep attempt = [calculateBackoffDelay attempt].
Proof.
  intros Hle. unfold catchSleep.
  by rewrite (proj2 (Nat.ltb_lt attempt maxRetries)) by (unfold maxRetries; lia).
Qed.

Lemma retryLoop_success remaining : forall attempt lastError rt value,
  tripped p attempt rt ->
  (attempt + remaining = 4)%nat ->
  let result := retryLoop fn p remaining attempt lastError rt in
  fst result = Normal value ->
  exists k added,
    (attempt + k <= 2)%nat
    /\ trace (snd result) = trace rt ++ added
    /\ invocationsOf added = S k
    /\ sleepsOf added = map calculateBackoffDelay (seq attempt k)
    /\ breakerOf p (snd result)
       = mkBreaker 0 (lastFailureTime (breakerOf p (snd result))) CLOSED
    /\ exists time, fst (fn time) = Normal value.
Proof.
  induction remaining as [|remaining IH];
    intros attempt lastError rt value Htrip Hsum; cbv zeta; [discriminate|].
  rewrite retryLoop_step. cbv zeta.
  destruct Htrip as (Hcount & (t & Hlast & Ht) & Hopen).
  destruct (allows (now rt) (breakerOf p rt)) eqn:Hallow.
  - assert (Hstate : state (breakerOf p rt) <> OPEN).
    { intros Ho. unfold allows in Hallow. rewrite Ho, Hlast in Hallow.
      apply Z.ltb_lt in Hallow. lia. }
    assert (Hprobe : probed (now rt) (breakerOf p rt) = breakerOf p rt).
    { unfold probed. by destruct (state (breakerOf p rt)). }
    assert (Hbelow : (failures (breakerOf p rt) < 3)%nat).
    { destruct (Nat.lt_ge_cases (failures (breakerOf p rt)) 3);
        [assumption|]. by destruct Hstate; apply Hopen. }
    rewrite Hprobe. destruct (fst (fn (now rt))) as [v|error] eqn:Hfn.
    + cbn [fst snd]. intros [= ->]. exists 0%nat, [EvInvoke p attempt].
      rewrite recordSuccess_put, breakerOf_putBreaker, decide_True by reflexivity.
      repeat split; try done; [lia|]. by exists (now rt).
    + intros Hresult.
      destruct (tripped_after_failure p attempt rt (breakerOf p rt)
                  (snd (fn (now rt))) Hcount) as (Htrip2 & Htrace2 & _).
      destruct (IH (S attempt) (Some error) _ value Htrip2 ltac:(lia) Hresult)
        as (k & added & Hk & Htrace & Hinv & Hsleeps & Hb & Hvalue).
      exists (S k), (EvInvoke p attempt :: map EvSleep (catchSleep attempt) ++ added).
      split; [lia|]. split; [by rewrite Htrace, Htrace2, <- app_assoc|].
      change (EvInvoke p attempt :: ?l) with ([EvInvoke p attempt] ++ l).
      rewrite !invocationsOf_app, invocationsOf_sleeps, !sleepsOf_app,
        sleepsOf_sleeps, Hinv, Hsleeps, catchSleep_early by lia.
      by repeat split.
  - assert (Hcool : cooling p rt).
    { unfold allows in Hallow. unfold cooling.
      destruct (state (breakerOf p rt)); try discriminate.
      split; [reflexivity|]. exists t. by split. }
    pose proof (retryLoop_refused fn p (S remaining) attempt lastError rt Hcool)
      as Href.
    cbv zeta in Href. rewrite retryLoop_step in Href. cbv zeta in Href.
    rewrite Hallow in Href. destruct Href as (Hres & _).
    rewrite Hres. discriminate.
Qed.

End RetrySuccess.



(** ** The memory store: statistics, recent memories, recall *)

Section Memories.

Lemma phase_partition (l : list SemanticMemory.MemoryItem) :
  let count wanted :=
    length (List.filter
              (fun m => bool_decide
                          (SemanticMemory.phase (SemanticMemory.metadata m) = wanted))
              l) in
  (count SemanticMemory.plasma + count SemanticMemory.gas
   + count SemanticMemory.liquid + count SemanticMemory.solid = length l)%nat.
Proof.
  cbv zeta. induction l as [|m l IH]; [reflexivity|]. cbn [List.filter length].
  destruct (SemanticMemory.phase (SemanticMemory.metadata m));
    repeat case_bool_decide; try congruence; cbn [length]; lia.
Qed.

Lemma SFmul_comm (X Y : spec_float) : SFmul prec emax X Y = SFmul prec emax Y X.
Proof.
  destruct X as [sx|sx| |sx mx ex], Y as [sy|sy| |sy my ey]; simpl;
    try reflexivity; try (by rewrite xorb_comm).
  by rewrite xorb_comm, Pos.mul_comm, Z.add_comm.
Qed.

Lemma float_mul_comm (x y : float) : (x * y = y * x)%float.
Proof.
  rewrite <- (SF2Prim_Prim2SF (x * y)), <- (SF2Prim_Prim2SF (y * x)).
  by rewrite !mul_spec, SFmul_comm.
Qed.

Lemma dot_comm a : forall b acc,
  fold_left (fun sum xy => sum + fst xy * snd xy)%float (combine a b) acc
  = fold_left (fun sum xy => sum + fst xy * snd xy)%float (combine b a) acc.
Proof.
  induction a as [|x a IH]; intros [|y b] acc; simpl; try reflexivity.
  by rewrite IH, float_mul_comm.
Qed.

Lemma cosineSimilarity_paired a b :
  length a = length b ->
  SemanticMemory.cosineSimilarity a b = (dot a b / (norm a * norm b))%float.
Proof.
  intros Hlen. unfold SemanticMemory.cosineSimilarity. rewrite !magnitude_norm.
  unfold reduce, dot.
  pose proof (dotProduct_paired a b [] [] 0%float Hlen) as H.
  simpl in H. rewrite app_nil_r in H. by rewrite H.
Qed.

Lemma sliceTo_sublist {A} (l : list A) (limit : Z) :
  exists n, sliceTo l limit = take n l.
Proof. unfold sliceTo. destruct (limit <? 0); eauto. Qed.

Lemma findPatterns_memories api query apiKey threshold limit st :
  SemanticMemory.memories
    (snd (SemanticMemory.findPatterns api query apiKey threshold limit st))
  = SemanticMemory.memories st.
Proof.
  unfold SemanticMemory.findPatterns, SemanticMemory.findPatternsTry.
  case_bool_decide; [reflexivity|].
  pose proof (createEmbedding_memories api apiKey query st) as Hmem.
  by destruct (SemanticMemory.createEmbedding api apiKey query st)
    as [[queryEmbedding|error] st1].
Qed.

End Memories.

(** X10: the statistics of the store add up.  [getMemoryStats] reports
    the number of memories; the four phase counts sum to that number and
    each equals the number of memories [getMemoriesByPhase] returns for
    the phase; [latestBreathCount] is the breath count of the memory
    stored last, and zero for an empty store. *)
Theorem memory_stats_partition (st : SemanticMemory.Store) :
  let stats := SemanticMemory.getMemoryStats st in
  let distribution := SemanticMemory.phaseDistribution stats in
  SemanticMemory.totalMemories stats = length (SemanticMemory.memories st)
  /\ (SemanticMemory.plasmaCount distribution + SemanticMemory.gasCount distribution
      + SemanticMemory.liquidCount distribution
      + SemanticMemory.solidCount distribution
      = SemanticMemory.totalMemories stats)%nat
  /\ (forall wanted,
        countOf wanted distribution
        = length (SemanticMemory.getMemoriesByPhase wanted st))
  /\ SemanticMemory.latestBreathCount stats = latestBreath st.
Proof.
  cbv zeta. unfold SemanticMemory.getMemoryStats; cbn.
  split; [reflexivity|]. split; [apply phase_partition|].
  split; [by intros []|].
  unfold latestBreath. rewrite last_lookup.
  destruct (SemanticMemory.memories st) as [|m l]; [reflexivity|].
  cbn [length]. replace (0 <? S (length l))%nat with true by reflexivity.
  by replace (Init.Nat.pred (S (length l))) with (S (length l) - 1)%nat by lia.
Qed.

(** X11: [getRecentMemories(count)] returns the last [count] memories,
    or all of them when there are fewer, for a count of at least one;
    for a count of zero it returns every memory, not none ([slice(-0)]
    is [slice(0)]); for a negative count [-k] it drops the first [k]. *)
Theorem recent_memories (count : Z) (st : SemanticMemory.Store) :
  let all := SemanticMemory.memories st in
  let recent := SemanticMemory.getRecentMemories count st in
  (1 <= count ->
   length recent = Nat.min (Z.to_nat count) (length all)
   /\ exists older, all = older ++ recent)
  /\ (count = 0 -> recent = all)
  /\ (count < 0 -> recent = drop (Z.to_nat (- count)) all).
Proof.
  cbv zeta. unfold SemanticMemory.getRecentMemories, sliceFrom.
  split; [|split].
  - intros Hcount. rewrite (proj2 (Z.ltb_lt (- count) 0)) by lia.
    split.
    + rewrite length_drop. lia.
    + eexists. symmetry. apply take_drop.
  - intros ->. simpl. rewrite Z.min_l by lia. apply drop_0.
  - intros Hcount. rewrite (proj2 (Z.ltb_ge (- count) 0)) by lia.
    destruct (Z.le_ge_cases (- count) (Z.of_nat (length (SemanticMemory.memories st))))
      as [Hle|Hge].
    + by rewrite Z.min_l.
    + rewrite Z.min_r by lia. rewrite Nat2Z.id.
      rewrite !drop_ge; [done|lia|lia].
Qed.

Lemma recent_memories_witness :
  let memory n :=
    SemanticMemory.mkMemoryItem "m" "text" []
      (SemanticMemory.mkMetadata "gpt4" SemanticMemory.plasma n [] 0) in
  let st := SemanticMemory.mkStore [memory 1; memory 2; memory 3] [] in
  length (SemanticMemory.getRecentMemories 2 st) = 2%nat
  /\ SemanticMemory.getRecentMemories 0 st = [memory 1; memory 2; memory 3]
  /\ SemanticMemory.getRecentMemories (-1) st = [memory 2; memory 3].
Proof.
  cbv zeta.
  set (st := SemanticMemory.mkStore _ _).
  destruct (recent_memories 2 st) as ([H2 _] & _); [lia|].
  destruct (recent_memories 0 st) as (_ & H0 & _).
  destruct (recent_memories (-1) st) as (_ & _ & Hneg).
  split; [exact H2|]. split; [exact (H0 eq_refl)|].
  exact (Hneg ltac:(lia)).
Defined.

(** X12: what is stored can be recalled.  When the embedding call
    returns a vector, [storeMemory] appends exactly one memory, made of
    the message, that vector and the context, with the id
    [<llmId>-<time>]; it is what [getRecentMemories(1)] returns, the
    last of [getMemoriesByPhase] for the phase of the context, it raises
    [totalMemories] by one, and [latestBreathCount] becomes the breath
    number of the context. *)
Theorem store_then_recall (api : SemanticMemory.EmbeddingsAPI)
    (llmId message apiKey : string) (context : SemanticMemory.Context)
    (time : Z) (st : SemanticMemory.Store) (embedding : list float)
    (rest : list (list float)) :
  api apiKey message = Normal (embedding :: rest) ->
  let st' :=
    snd (SemanticMemory.storeMemory api llmId message context apiKey time st) in
  let memory :=
    SemanticMemory.mkMemoryItem (llmId +:+ "-" +:+ pretty time) message embedding
      (SemanticMemory.mkMetadata llmId (SemanticMemory.currentPhase context)
         (SemanticMemory.breathNumber context)
         (SemanticMemory.detectedPatterns context) time) in
  SemanticMemory.memories st' = SemanticMemory.memories st ++ [memory]
  /\ SemanticMemory.getRecentMemories 1 st' = [memory]
  /\ SemanticMemory.getMemoriesByPhase (SemanticMemory.currentPhase context) st'
     = SemanticMemory.getMemoriesByPhase (SemanticMemory.currentPhase context) st
       ++ [memory]
  /\ SemanticMemory.totalMemories (SemanticMemory.getMemoryStats st')
     = S (SemanticMemory.totalMemories (SemanticMemory.getMemoryStats st))
  /\ SemanticMemory.latestBreathCount (SemanticMemory.getMemoryStats st')
     = SemanticMemory.breathNumber context.
Proof.
  intros Hapi. cbv zeta.
  unfold SemanticMemory.storeMemory, SemanticMemory.createEmbedding.
  rewrite Hapi. cbn [snd SemanticMemory.memories SemanticMemory.embedded].
  set (memory := SemanticMemory.mkMemoryItem _ _ _ _).
  split; [reflexivity|]. split; [|split; [|split]].
  - unfold SemanticMemory.getRecentMemories, sliceFrom.
    cbn [SemanticMemory.memories]. rewrite length_app. cbn [length].
    change (- (1) <? 0) with true. cbv iota.
    replace (Z.to_nat (Z.max (Z.of_nat (length (SemanticMemory.memories st) + 1)
                              + - (1)) 0))
      with (length (SemanticMemory.memories st)) by lia.
    by rewrite drop_app_length.
  - unfold SemanticMemory.getMemoriesByPhase. cbn [SemanticMemory.memories].
    rewrite List.filter_app. cbn [List.filter].
    by rewrite bool_decide_eq_true_2.
  - unfold SemanticMemory.getMemoryStats.
    cbn [SemanticMemory.totalMemories SemanticMemory.memories].
    rewrite length_app. cbn [length]. lia.
  - unfold SemanticMemory.getMemoryStats.
    cbn [SemanticMemory.latestBreathCount SemanticMemory.memories].
    rewrite length_app. cbn [length].
    replace (0 <? length (SemanticMemory.memories st) + 1)%nat with true
      by (symmetry; apply Nat.ltb_lt; lia).
    replace (length (SemanticMemory.memories st) + 1 - 1)%nat
      with (length (SemanticMemory.memories st)) by lia.
    by rewrite list_lookup_middle.
Qed.

Lemma store_then_recall_witness :
  let st :=
    snd (SemanticMemory.storeMemory Scenario.api "claude" "Indexes matter"
           (SemanticMemory.mkContext SemanticMemory.gas 4 ["indexes"]) "sk-test"
           1700 Scenario.oneMatch) in
  length (SemanticMemory.memories st) = 3%nat
  /\ map SemanticMemory.id (SemanticMemory.getRecentMemories 1 st) = ["claude-1700"]
  /\ SemanticMemory.latestBreathCount (SemanticMemory.getMemoryStats st) = 4.
Proof.
  cbv zeta.
  destruct (store_then_recall Scenario.api "claude" "Indexes matter" "sk-test"
              (SemanticMemory.mkContext SemanticMemory.gas 4 ["indexes"])
              1700 Scenario.oneMatch [1; 0]%float [] eq_refl)
    as (Hmem & Hrecent & _ & _ & Hbreath).
  rewrite Hmem, Hrecent. split; [reflexivity|]. split; [reflexivity|exact Hbreath].
Defined.

(** X13: for two vectors of the same length [cosineSimilarity] is
    symmetric: it gives the same number, bit for bit, whichever of the
    two is the query. *)
Theorem cosine_symmetric (a b : list float) :
  length a = length b ->
  SemanticMemory.cosineSimilarity a b = SemanticMemory.cosineSimilarity b a.
Proof.
  intros Hlen. rewrite !cosineSimilarity_paired by done.
  unfold dot. by rewrite dot_comm, (float_mul_comm (norm a)).
Qed.

Lemma cosine_symmetric_witness :
  SemanticMemory.cosineSimilarity [1; 2; 0.5]%float [3; 0.25; 7]%float
  = SemanticMemory.cosineSimilarity [3; 0.25; 7]%float [1; 2; 0.5]%float.
Proof. exact (cosine_symmetric [1; 2; 0.5]%float [3; 0.25; 7]%float eq_refl). Defined.

(** X14: after [clearMemories] the store is empty for every reader:
    [findPatterns] returns the empty list without calling the embeddings
    endpoint, [getRecentMemories] and [getMemoriesByPhase] return
    nothing, and [getMemoryStats] reports zero everywhere. *)
Theorem clear_then_query (api : SemanticMemory.EmbeddingsAPI)
    (query apiKey : string) (threshold : float) (limit count : Z)
    (st : SemanticMemory.Store) :
  let cleared := SemanticMemory.clearMemories st in
  SemanticMemory.findPatterns api query apiKey threshold limit cleared
  = (Normal [], cleared)
  /\ SemanticMemory.getRecentMemories count cleared = []
  /\ (forall wanted, SemanticMemory.getMemoriesByPhase wanted cleared = [])
  /\ SemanticMemory.getMemoryStats cleared
     = SemanticMemory.mkMemoryStats 0
         (SemanticMemory.mkPhaseDistribution 0 0 0 0) 0.
Proof.
  cbv zeta. split; [by apply findPatterns_empty|].
  split; [|split; [done|reflexivity]].
  unfold SemanticMemory.getRecentMemories, sliceFrom, SemanticMemory.clearMemories.
  cbn [SemanticMemory.memories]. by destruct (- count <? 0); rewrite drop_nil.
Qed.

(** X15: whatever the embeddings endpoint does, [findPatterns] leaves
    the memories as they are, embeds the query at most once, and returns
    a list: every result has a similarity of at least the threshold and
    carries the content and metadata of a stored memory; there are no
    more results than memories, and no more than [limit] when the limit
    is not negative. *)
Theorem findPatterns_sound (api : SemanticMemory.EmbeddingsAPI)
    (query apiKey : string) (threshold : float) (limit : Z)
    (st : SemanticMemory.Store) :
  let result := SemanticMemory.findPatterns api query apiKey threshold limit st in
  SemanticMemory.memories (snd result) = SemanticMemory.memories st
  /\ (SemanticMemory.embedded (snd result) = SemanticMemory.embedded st
      \/ SemanticMemory.embedded (snd result)
         = SemanticMemory.embedded st ++ [query])
  /\ exists results,
       fst result = Normal results
       /\ Forall (fun r =>
                    (threshold <=? SemanticMemory.similarity r)%float = true
                    /\ exists memory,
                         memory ∈ SemanticMemory.memories st
                         /\ SemanticMemory.resultContent r
                            = SemanticMemory.content memory
                         /\ SemanticMemory.resultMetadata r
                            = SemanticMemory.metadata memory)
            results
       /\ (length results <= length (SemanticMemory.memories st))%nat
       /\ (0 <= limit -> Z.of_nat (length results) <= limit).
Proof.
  cbv zeta.
  unfold SemanticMemory.findPatterns, SemanticMemory.findPatternsTry.
  case_bool_decide as Hempty.
  { cbn [fst snd]. split; [reflexivity|]. split; [by left|].
    exists []. repeat split; try constructor; simpl; lia. }
  pose proof (createEmbedding_memories api apiKey query st) as Hmem.
  pose proof (createEmbedding_embedded api apiKey query st) as Hemb.
  destruct (SemanticMemory.createEmbedding api apiKey query st)
    as [[queryEmbedding|error] st1]; cbn [fst snd] in *.
  2:{ split; [exact Hmem|]. split; [by right|].
      exists []. repeat split; try constructor; simpl; lia. }
  split; [exact Hmem|]. split; [by right|].
  eexists. split; [reflexivity|]. rewrite Hmem.
  set (candidates := List.filter _ _).
  set (sorted := JS.sort _ candidates).
  assert (Hperm : Permutation sorted candidates)
    by apply (sort_permutation SemanticMemory.similarity).
  assert (Hcand : Forall (fun r =>
                    (threshold <=? SemanticMemory.similarity r)%float = true
                    /\ exists memory,
                         memory ∈ SemanticMemory.memories st
                         /\ SemanticMemory.resultContent r
                            = SemanticMemory.content memory
                         /\ SemanticMemory.resultMetadata r
                            = SemanticMemory.metadata memory) candidates).
  { subst candidates. rewrite List.Forall_forall. intros r Hr.
    apply List.filter_In in Hr as [Hr Hreach]. split; [exact Hreach|].
    apply List.in_map_iff in Hr as (memory & <- & Hin).
    exists memory. split; [by apply list_elem_of_In|done]. }
  assert (Hlen : (length candidates <= length (SemanticMemory.memories st))%nat).
  { subst candidates. etransitivity; [apply List.filter_length_le|].
    by rewrite length_map. }
  destruct (sliceTo_sublist sorted limit) as [n Hn].
  split; [|split].
  - rewrite Hn. apply Forall_take. by rewrite Hperm.
  - rewrite Hn, length_take, (Permutation_length Hperm). lia.
  - intros Hlimit. by destruct (sliceTo_take sorted limit Hlimit) as [_ H].
Qed.

Lemma findPatterns_sound_witness :
  exists results,
    fst (SemanticMemory.findPatterns Scenario.api "query" "sk-test"
           Routes.similarityThreshold 3 Scenario.fourMatches) = Normal results
    /\ Z.of_nat (length results) <= 3.
Proof.
  destruct (findPatterns_sound Scenario.api "query" "sk-test"
              Routes.similarityThreshold 3 Scenario.fourMatches)
    as (_ & _ & results & Hres & _ & _ & Hlimit).
  exists results. split; [exact Hres|]. apply Hlimit. lia.
Defined.

(** ** What a fallback chain and the fan-out leave in the database *)

Section Chain.

Context (clients : LLMRouter.ProviderClients).

Lemma append_assoc (s1 s2 s3 : string) : (s1 +:+ s2) +:+ s3 = s1 +:+ (s2 +:+ s3).
Proof.
  induction s1 as [|c s1 IH]; [reflexivity|].
  change (String c ((s1 +:+ s2) +:+ s3) = String c (s1 +:+ (s2 +:+ s3))).
  by rewrite IH.
Qed.

Lemma notesOf_app l1 l2 : notesOf (l1 ++ l2) = notesOf l1 +:+ notesOf l2.
Proof.
  induction l1 as [|[q a|ms|q r] l1 IH]; cbn [notesOf app]; try done.
  by rewrite IH, append_assoc.
Qed.

Lemma notesOf_none l : fallbacksOf l = [] -> notesOf l = "".
Proof. induction l as [|[q a|ms|q r] l IH]; simpl; try done. Qed.

Lemma last_cons_default (l : list LLMProvider) (f p : LLMProvider) :
  List.last (f :: l) p = List.last l f.
Proof.
  revert f p. induction l as [|x l IH]; intros f p; [reflexivity|].
  change (List.last (f :: x :: l) p) with (List.last (x :: l) p).
  by rewrite (IH x p), (IH x f).
Qed.

(** A response of the router is a response of the provider's own
    client, called with the user input and the key it was given. *)
Lemma generateLLMResponse_own p userInput apiKey rt response :
  fst (LLMRouter.generateLLMResponse clients p userInput apiKey rt)
  = Normal response ->
  exists time, fst (clients p userInput apiKey time) = Normal response.
Proof.
  unfold LLMRouter.generateLLMResponse. rewrite canAttemptRequest_put.
  destruct (allows (now rt) (breakerOf p rt)); cbn [negb]; [|discriminate].
  destruct (retryWithBackoff _ p _) as [[response'|error] rt2] eqn:Hretry;
    [|discriminate].
  intros [= <-].
  apply (retryLoop_normal (clients p userInput apiKey) p 4 0 None
           (putBreaker p (probed (now rt) (breakerOf p rt)) rt) response').
  change (fst (retryWithBackoff (clients p userInput apiKey) p
                 (putBreaker p (probed (now rt) (breakerOf p rt)) rt))
          = Normal response').
  by rewrite Hretry.
Qed.

(** What the [try] block of [handleLLMResponse] stores. *)
Lemma respond_effects discussionId message p senderName apiKey rt db :
  let result :=
    Routes.respond clients discussionId message p senderName apiKey rt db in
  exists added,
    trace (fst (snd result)) = trace rt ++ added
    /\ fallbacksOf added = []
    /\ Forall (fun q => q = p) (invokedOf added)
    /\ match fst result with
       | Normal row =>
           snd (snd result) = withMessages [row] db
           /\ Storage.discussionId row = discussionId
           /\ Storage.sender row = senderName
           /\ Storage.llmProvider row = Some (providerName p)
           /\ exists time,
                fst (clients p message apiKey time) = Normal (Storage.content row)
       | Throw error => snd (snd result) = db /\ breakerError p error
       end.
Proof.
  cbv zeta. unfold Routes.respond.
  pose proof (generateLLMResponse_frame clients p message apiKey rt)
    as [(added & Htrace & Hfb & Hinv) _].
  pose proof (generateLLMResponse_throws clients p message apiKey rt) as Hthrows.
  pose proof (generateLLMResponse_own p message apiKey rt) as Hown.
  cbv zeta in *.
  destruct (LLMRouter.generateLLMResponse clients p message apiKey rt)
    as [[response|error] rt1]; cbn [fst snd] in *;
    exists added; repeat split; try done.
  - by apply Hown.
  - by apply Hthrows.
Qed.

Lemma handleLLMResponse_effects discussionId message p senderName apiKey
    available rt db :
  let result :=
    Routes.handleLLMResponse clients discussionId message p senderName apiKey
      available rt db in
  exists outcome row added,
    fst result = Normal outcome
    /\ trace (fst (snd result)) = trace rt ++ added
    /\ snd (snd result) = withMessages [row] db
    /\ Storage.discussionId row = discussionId
    /\ Storage.sender row = senderName
    /\ Storage.llmProvider row = Some (providerName (chainEnd p added))
    /\ outcome = withContent (notesOf added +:+ Storage.content row) row
    /\ producedBy clients (chainEnd p added) message apiKey (Storage.content row)
    /\ Forall (fun q => q = p \/ q ∈ available) (invokedOf added).
Proof.
  funelim (Routes.handleLLMResponse clients discussionId message p senderName
             apiKey available rt db);
    try clear Heqcall;
    pose proof (respond_effects discussionId message0 provider senderName
                  apiKey rt db) as (added & Htrace & Hfb & Hinv & Hresult);
    cbv zeta in Htrace, Hresult;
    match goal with
    | Hresp : Routes.respond _ _ _ _ _ _ _ _ = _ |- _ =>
        rewrite Hresp in Htrace, Hresult
    end;
    cbn [fst snd] in Htrace, Hresult;
    try match goal with
        | Hcall : Routes.handleLLMResponse _ _ _ _ _ _ _ _ _ = _ |- _ =>
            rewrite Hcall in Hind; cbn [fst snd] in Hind
        end;
    cbv zeta; cbn [fst snd].
  - (* the provider answered *)
    destruct st as [rt1 db1]; cbn [fst snd] in *.
    destruct Hresult as (Hdb & Hdisc & Hsender & Hprov & Hown).
    exists savedMessage, savedMessage, added. unfold chainEnd. rewrite Hfb.
    rewrite (notesOf_none added Hfb). cbn [List.last].
    repeat split; try done.
    + by destruct savedMessage.
    + by left.
    + eapply Forall_impl; [exact Hinv|]. intros q ->. by left.
  - (* it failed and there is no substitute *)
    destruct Hresult as [-> Herror].
    pose proof (getFallbackProvider_spec provider availableProviders rt1)
      as (Hgt & _).
    cbv zeta in Hgt. rewrite e in Hgt. cbn [fst snd] in Hgt.
    unfold Routes.degradedResponse, Storage.createMessage. cbn [fst snd].
    eexists _, _, added. rewrite Hgt, Htrace, app_nil_r.
    unfold chainEnd. rewrite Hfb, (notesOf_none added Hfb). cbn [List.last].
    split; [reflexivity|]. split; [reflexivity|]. split; [reflexivity|].
    cbn. repeat split; try done.
    + right. by exists error.
    + eapply Forall_impl; [exact Hinv|]. intros q ->. by left.
  - (* it failed and the substitute's chain gave a message *)
    destruct Hresult as [-> Herror].
    pose proof (getFallbackProvider_spec provider availableProviders rt1)
      as (Hgt & Hmem & _).
    cbv zeta in Hgt, Hmem. rewrite found in Hgt, Hmem.
    cbn [fst snd] in Hgt, Hmem.
    destruct st as [rt3 db3]; cbn [fst snd] in *.
    destruct Hind as (outcome & row & added' & [= <-] & Htrace' & Hdb & Hdisc
                      & Hsender & Hprov & Hout & Hprod & Hinv').
    exists (Routes.markDegraded provider fallbackProvider fallbackResponse), row,
      (added ++ [EvFallback provider fallbackProvider] ++ added').
    assert (Hend : chainEnd provider
                     (added ++ [EvFallback provider fallbackProvider] ++ added')
                   = chainEnd fallbackProvider added').
    { unfold chainEnd. rewrite !fallbacksOf_app, Hfb. cbn [fallbacksOf app].
      apply last_cons_default. }
    rewrite Hend.
    split; [reflexivity|]. split.
    { rewrite Htrace', Hgt, Htrace. by rewrite <- !app_assoc. }
    split; [exact Hdb|]. split; [exact Hdisc|]. split; [exact Hsender|].
    split; [exact Hprov|]. split; [|split; [exact Hprod|]].
    + rewrite Hout. unfold Routes.markDegraded, withContent. cbn.
      rewrite !notesOf_app, (notesOf_none added Hfb). cbn [notesOf].
      f_equal. change ("" +:+ ?s) with s. by rewrite !append_assoc.
    + rewrite !invokedOf_app. cbn [invokedOf app]. apply Forall_app. split.
      * eapply Forall_impl; [exact Hinv|]. intros q ->. by left.
      * eapply Forall_impl; [exact Hinv'|]. intros q [->|Hq]; right;
          [exact Hmem|]. by destruct (withoutProvider_elem _ _ _ Hq).
  - (* the substitute's chain cannot throw *)
    by destruct Hind as (outcome & row & added' & [=] & _).
Qed.

Lemma allSettled_effects discussionId content available calls : forall rt db,
  let result :=
    Routes.allSettled clients discussionId content available calls rt db in
  exists rows added,
    trace (fst (snd result)) = trace rt ++ added
    /\ Forall (fun q => q ∈ map Routes.callProvider calls \/ q ∈ available)
         (invokedOf added)
    /\ snd (snd result) = withMessages rows db
    /\ map Storage.id (Routes.fulfilledValues (fst result)) = map Storage.id rows
    /\ map Storage.sender rows = map Routes.callSender calls
    /\ Forall (fun row => Storage.discussionId row = discussionId) rows.
Proof.
  induction calls as [|call calls IH]; intros rt db; cbv zeta;
    cbn [Routes.allSettled].
  - cbn [fst snd]. exists [], []. unfold withMessages.
    rewrite !app_nil_r. destruct db. repeat split; constructor.
  - destruct (handleLLMResponse_effects discussionId content
                (Routes.callProvider call) (Routes.callSender call)
                (Routes.callApiKey call) available rt db)
      as (outcome & row & added & Hout & Htrace & Hdb & Hdisc & Hsender & _
          & Hcontent & _ & Hinv).
    destruct (Routes.handleLLMResponse clients discussionId content
                (Routes.callProvider call) (Routes.callSender call)
                (Routes.callApiKey call) available rt db)
      as [result [rt1 db1]]; cbn [fst snd] in *.
    specialize (IH rt1 db1). cbv zeta in IH.
    destruct IH as (rows & added' & Htrace' & Hinv' & Hdb' & Hids & Hsenders
                    & Hdiscs).
    destruct (Routes.allSettled clients discussionId content available calls
                rt1 db1) as [results [rt2 db2]]; cbn [fst snd] in *.
    exists (row :: rows), (added ++ added'). subst result.
    split; [by rewrite Htrace', Htrace, app_assoc|]. split.
    { rewrite invokedOf_app. apply Forall_app. split.
      - eapply Forall_impl; [exact Hinv|]. intros q [->|Hq]; [left|by right].
        cbn [map]. apply list_elem_of_here.
      - eapply Forall_impl; [exact Hinv'|]. intros q [Hq|Hq]; [left|by right].
        cbn [map]. by apply list_elem_of_further. }
    split.
    { rewrite Hdb', Hdb. unfold withMessages. cbn.
      by rewrite <- app_assoc. }
    split.
    { cbn [Routes.fulfilledValues flat_map app map]. rewrite Hcontent.
      cbn [withContent Storage.id]. f_equal. exact Hids. }
    split; [cbn [map]; by rewrite Hsender, Hsenders|].
    by constructor.
Qed.

Lemma availableProvidersOf_elem keys p :
  p ∈ Routes.availableProvidersOf keys <-> Routes.hasKey (keyOf keys p) = true.
Proof.
  unfold Routes.availableProvidersOf.
  rewrite !elem_of_app.
  destruct (Routes.hasKey (Storage.openaiKey keys)) eqn:H1,
    (Routes.hasKey (Storage.anthropicKey keys)) eqn:H2,
    (Routes.hasKey (Storage.deepseekKey keys)) eqn:H3,
    (Routes.hasKey (Storage.grokKey keys)) eqn:H4;
    rewrite ?list_elem_of_singleton, ?elem_of_nil;
    destruct p; cbn [keyOf]; rewrite ?H1, ?H2, ?H3, ?H4;
    intuition congruence.
Qed.

End Chain.



(** ** The inline pattern check and the companion *)

Section Patterns.

Lemma Forall2_same {A} (R : A -> A -> Prop) (l : list A) :
  (forall x, R x x) -> Forall2 R l l.
Proof. intros HR. induction l; constructor; auto. Qed.

Lemma periodicInsight_eight {A} discussionId (l : list A) time :
  CompanionSimple.periodicInsight discussionId (length (sliceLast 10 l)) time
  = if bool_decide (length l = 8%nat)
    then Some (insightAtEight discussionId time)
    else None.
Proof.
  unfold CompanionSimple.periodicInsight, sliceLast. rewrite length_drop.
  destruct (Nat.le_gt_cases (length l) 10) as [Hle|Hgt].
  - replace (length l - (length l - 10))%nat with (length l) by lia.
    remember (length l) as n eqn:Hn. clear Hn.
    do 11 (destruct n as [|n]; [by vm_compute|]). lia.
  - replace (length l - (length l - 10))%nat with 10%nat by lia.
    rewrite (bool_decide_eq_false_2 (length l = 8%nat)) by lia. reflexivity.
Qed.

Lemma suggestAgent_suggestion discussionId similar time db store message st :
  CompanionSimple.suggestAgent discussionId similar time db store
  = (Normal (Some message), st) ->
  CompanionSimple.suggestionId message <> None.
Proof.
  unfold CompanionSimple.suggestAgent.
  destruct (CompanionSimple.detectTopicFromPatterns similar); [|discriminate].
  by intros [= <- _].
Qed.

End Patterns.

(** X18: the inline pattern check of the message handler.  It never
    touches the messages, the settings, the suggestions or the stored
    memories.  Unless the number of user messages of the discussion is a
    multiple of three and at least three, it changes nothing and asks
    for no embedding.  When it does update, only rows of this discussion
    change: they keep their phase, get a list of patterns that is not
    empty, and their breath count becomes one more than the breath count
    of the row that was read when the request came in. *)
Theorem detectPatterns_gate (api : SemanticMemory.EmbeddingsAPI)
    (discussion : Storage.Discussion) (openaiKey : string)
    (db : Storage.Database) (store : SemanticMemory.Store) :
  let users := length (userMessagesOf (Storage.discussionKey discussion) db) in
  let result := Routes.detectPatterns api discussion openaiKey db store in
  Storage.messages (fst result) = Storage.messages db
  /\ Storage.settings (fst result) = Storage.settings db
  /\ Storage.suggestions (fst result) = Storage.suggestions db
  /\ SemanticMemory.memories (snd result) = SemanticMemory.memories store
  /\ Forall2 (breathUpdate discussion) (Storage.discussions db)
       (Storage.discussions (fst result))
  /\ ((users < 3)%nat \/ (users mod 3)%nat <> 0%nat -> result = (db, store)).
Proof.
  cbv zeta. unfold Routes.detectPatterns, userMessagesOf.
  set (users := length _).
  assert (Hsame : Forall2 (breathUpdate discussion) (Storage.discussions db)
                    (Storage.discussions db))
    by (apply Forall2_same; by left).
  destruct ((3 <=? users)%nat && bool_decide ((users mod 3)%nat = 0%nat))
    eqn:Hgate.
  2:{ cbn [fst snd]. repeat split; try done. }
  apply andb_true_iff in Hgate as [Hge%Nat.leb_le Hmod%bool_decide_eq_true].
  pose proof (findPatterns_memories api
                (join " " (map Storage.content
                             (sliceLast 3
                                (List.filter
                                   (fun m => bool_decide (Storage.sender m = "user"))
                                   (Storage.getMessagesByDiscussion
                                      (Storage.discussionKey discussion) db)))))
                openaiKey Routes.similarityThreshold 5 store) as Hmem.
  destruct (SemanticMemory.findPatterns _ _ _ _ _ store)
    as [[patterns|error] store1]; cbn [fst snd] in *.
  2:{ repeat split; try done. intros [H|H]; lia. }
  destruct (2 <=? length patterns)%nat.
  2:{ cbn [fst snd]. repeat split; try done. intros [H|H]; lia. }
  cbn [fst snd]. unfold Storage.updateDiscussion.
  cbn [Storage.messages Storage.settings Storage.suggestions Storage.discussions].
  repeat split; try done; [|intros [H|H]; lia].
  clear Hsame. induction (Storage.discussions db) as [|d l IH]; cbn [map];
    constructor; [|exact IH].
  case_bool_decide as Hkey; [|by left]. right.
  cbn. repeat split; try done.
  by destruct (map _ patterns).
Qed.

Lemma detectPatterns_gate_witness :
  Routes.detectPatterns Scenario.api
    (Storage.mkDiscussion "d1" (Some "plasma") (Some 0) []) "sk-test"
    Scenario.shortDatabase Scenario.twoMatches
  = (Scenario.shortDatabase, Scenario.twoMatches).
Proof.
  destruct (detectPatterns_gate Scenario.api
              (Storage.mkDiscussion "d1" (Some "plasma") (Some 0) []) "sk-test"
              Scenario.shortDatabase Scenario.twoMatches)
    as (_ & _ & _ & _ & _ & H).
  apply H. left. vm_compute. lia.
Defined.

(** X19: when the discussion has fewer than three messages, or there
    are no settings, no companion configuration, or the companion is not
    enabled, [monitorDiscussion] returns null, embeds nothing and leaves
    the database and the memory store as they are. *)
Theorem monitor_skips (api : SemanticMemory.EmbeddingsAPI)
    (discussionId : string) (time : Z) (db : Storage.Database)
    (store : SemanticMemory.Store) :
  (length (Storage.getMessagesByDiscussion discussionId db) < 3)%nat
  \/ companionOff db ->
  CompanionSimple.monitorDiscussion api discussionId time db store
  = (None, (db, store)).
Proof.
  intros Hskip.
  unfold CompanionSimple.monitorDiscussion, CompanionSimple.monitorTry.
  destruct (length (sliceLast 10 (Storage.getMessagesByDiscussion discussionId db))
            <? 3)%nat eqn:Hlen; [reflexivity|].
  apply Nat.ltb_ge in Hlen. unfold sliceLast in Hlen. rewrite length_drop in Hlen.
  destruct Hskip as [Hfew|Hoff]; [lia|].
  unfold companionOff in Hoff.
  destruct (Storage.getSettings db) as [settings|]; [|reflexivity].
  destruct (Storage.companionConfig settings) as [config|]; [|reflexivity].
  by rewrite Hoff.
Qed.

Lemma monitor_skips_witness :
  CompanionSimple.monitorDiscussion Scenario.api "d1" 1000
    Scenario.shortDatabase Scenario.twoMatches
  = (None, (Scenario.shortDatabase, Scenario.twoMatches)).
Proof.
  apply (monitor_skips Scenario.api "d1" 1000 Scenario.shortDatabase
           Scenario.twoMatches).
  left. vm_compute. lia.
Defined.

(** X20: the periodic insight comes once.  A message that
    [monitorDiscussion] returns without a suggestion is the insight text
    for eight messages, the discussion has exactly eight messages, and
    the database is unchanged: because only the last ten messages are
    counted, a discussion of 16, 24, ... messages gets none.  With the
    companion enabled and no OpenAI key, the insight is returned exactly
    when the discussion has eight messages. *)
Theorem periodic_insight_only_at_eight (api : SemanticMemory.EmbeddingsAPI)
    (discussionId : string) (time : Z) (db : Storage.Database)
    (store : SemanticMemory.Store) :
  let result := CompanionSimple.monitorDiscussion api discussionId time db store in
  let count := length (Storage.getMessagesByDiscussion discussionId db) in
  (forall message,
     fst result = Some message ->
     CompanionSimple.suggestionId message = None ->
     count = 8%nat
     /\ message = insightAtEight discussionId time
     /\ fst (snd result) = db)
  /\ (forall settings config,
        Storage.getSettings db = Some settings ->
        Storage.companionConfig settings = Some config ->
        Storage.enabled config = true ->
        Routes.configuredKey (Storage.openaiKey (Storage.apiKeys settings)) = None ->
        result
        = (if bool_decide (count = 8%nat)
           then Some (insightAtEight discussionId time)
           else None,
           (db, store))).
Proof.
  cbv zeta.
  unfold CompanionSimple.monitorDiscussion, CompanionSimple.monitorTry.
  set (l := Storage.getMessagesByDiscussion discussionId db).
  assert (Hinsight : forall message,
            CompanionSimple.periodicInsight discussionId
              (length (sliceLast 10 l)) time = Some message ->
            length l = 8%nat /\ message = insightAtEight discussionId time).
  { intros message. rewrite periodicInsight_eight.
    case_bool_decide; [|discriminate]. by intros [= <-]. }
  split.
  - intros message.
    destruct (length (sliceLast 10 l) <? 3)%nat; [discriminate|].
    destruct (Storage.getSettings db) as [settings|]; [|discriminate].
    destruct (Storage.companionConfig settings) as [config|]; [|discriminate].
    destruct (negb (Storage.enabled config)); [discriminate|].
    destruct (Routes.configuredKey _) as [key|].
    2:{ cbn [fst snd]. intros H _. by destruct (Hinsight _ H). }
    destruct (3 <=? length (sliceLast 10 l))%nat.
    2:{ cbn [fst snd]. intros H _. by destruct (Hinsight _ H). }
    destruct (SemanticMemory.findPatterns _ _ _ _ _ store)
      as [[similar|error] store1]; [|discriminate].
    destruct ((2 <=? length similar)%nat && Storage.autoSuggest config).
    + destruct (CompanionSimple.suggestAgent discussionId similar time db store1)
        as [[result|error] st] eqn:Hsuggest; [|discriminate].
      cbn [fst]. intros -> Hnone.
      by destruct (suggestAgent_suggestion _ _ _ _ _ _ _ Hsuggest).
    + cbn [fst snd]. intros H _. by destruct (Hinsight _ H).
  - intros settings config -> -> -> ->. cbn [negb].
    destruct (length (sliceLast 10 l) <? 3)%nat eqn:Hshort.
    + apply Nat.ltb_lt in Hshort. unfold sliceLast in Hshort.
      rewrite length_drop in Hshort.
      rewrite bool_decide_eq_false_2 by lia. reflexivity.
    + by rewrite periodicInsight_eight.
Qed.

Lemma periodic_insight_only_at_eight_witness :
  CompanionSimple.monitorDiscussion Scenario.api "d1" 1000
    Scenario.eightMessages Scenario.twoMatches
  = (Some (insightAtEight "d1" 1000),
     (Scenario.eightMessages, Scenario.twoMatches))
  /\ length (Storage.getMessagesByDiscussion "d1" Scenario.eightMessages) = 8%nat.
Proof.
  destruct (periodic_insight_only_at_eight Scenario.api "d1" 1000
              Scenario.eightMessages Scenario.twoMatches) as [Honly Hwhen].
  pose proof (Hwhen _ _ eq_refl eq_refl eq_refl eq_refl) as Hresult.
  split; [exact Hresult|].
  apply (Honly (insightAtEight "d1" 1000)); [by rewrite Hresult|reflexivity].
Defined.

(** ** The provider adapters behind the router *)

Section Adapters.

Lemma allows_probed time b :
  allows time b = true -> allows time (probed time b) = true.
Proof.
  unfold probed. intros Hallow. destruct (state b) eqn:Hstate; try done.
  by rewrite Hallow.
Qed.

Lemma retryWithBackoff_first_attempt {T} (fn : Operation T) p rt value :
  allows (now rt) (breakerOf p rt) = true ->
  fst (fn (now rt)) = Normal value ->
  retryWithBackoff fn p rt
  = (Normal value,
     putBreaker p (succeeded (probed (now rt) (breakerOf p rt)))
       (elapse (snd (fn (now rt))) (logEvent (EvInvoke p 0) rt))).
Proof.
  intros Hallow Hfn. unfold retryWithBackoff. rewrite retryLoop_step. cbv zeta.
  rewrite Hallow, Hfn. f_equal. rewrite recordSuccess_put.
  unfold putBreaker, setBreakers, elapse, logEvent, breakerOf; cbn.
  rewrite lookup_insert_eq. by rewrite insert_insert_eq.
Qed.

(** A client that answers at once is invoked once, and the breaker is
    closed with no failure counted. *)
Lemma generateLLMResponse_first_attempt (clients : LLMRouter.ProviderClients)
    p userInput apiKey rt response :
  fst (canAttemptRequest p rt) = true ->
  fst (clients p userInput apiKey (now rt)) = Normal response ->
  let result := LLMRouter.generateLLMResponse clients p userInput apiKey rt in
  fst result = Normal response
  /\ trace (snd result) = trace rt ++ [EvInvoke p 0]
  /\ now (snd result) = now rt + snd (clients p userInput apiKey (now rt))
  /\ state (breakerOf p (snd result)) = CLOSED
  /\ failures (breakerOf p (snd result)) = 0%nat
  /\ forall q, q <> p -> breakerOf q (snd result) = breakerOf q rt.
Proof.
  rewrite canAttemptRequest_put; cbn [fst]. intros Hallow Hfn. cbv zeta.
  unfold LLMRouter.generateLLMResponse. rewrite canAttemptRequest_put, Hallow.
  cbn [negb].
  set (rt1 := putBreaker p (probed (now rt) (breakerOf p rt)) rt).
  assert (Hb1 : breakerOf p rt1 = probed (now rt) (breakerOf p rt)).
  { subst rt1. by rewrite breakerOf_putBreaker, decide_True. }
  rewrite (retryWithBackoff_first_attempt (clients p userInput apiKey) p rt1
             response).
  - cbn [fst snd]. rewrite breakerOf_putBreaker, decide_True by reflexivity.
    repeat split; try done. intros q Hq.
    rewrite breakerOf_putBreaker, decide_False by done.
    rewrite breakerOf_elapse, breakerOf_logEvent. subst rt1.
    by rewrite breakerOf_putBreaker, decide_False.
  - rewrite Hb1. by apply allows_probed.
  - exact Hfn.
Qed.

Lemma truthy_orElse content fallback :
  truthy fallback = true -> truthy (Providers.orElse content fallback) = true.
Proof.
  intros Hfallback. unfold Providers.orElse.
  destruct content as [text|]; [|exact Hfallback].
  by destruct (truthy text) eqn:Htext.
Qed.

Lemma keyOrEnv_truthy apiKey env :
  truthy apiKey = true -> Providers.keyOrEnv apiKey env = Some apiKey.
Proof. unfold Providers.keyOrEnv. by intros ->. Qed.

Lemma deepseekTry_truthy response text :
  Providers.deepseekTry response = Normal text -> truthy text = true.
Proof.
  unfold Providers.deepseekTry.
  destruct response as [r|e]; [|discriminate].
  destruct (negb (Providers.ok r)); [discriminate|].
  destruct (Providers.json r) as [content|e]; [|discriminate].
  intros [= <-]. by apply truthy_orElse.
Qed.

Lemma deepseek_answers fetch env prompt apiKey time :
  truthy apiKey = true ->
  exists text,
    fst (Providers.deepseekGenerateResponse fetch env prompt apiKey time)
    = Normal text
    /\ truthy text = true
    /\ (isThrow (Providers.deepseekTry (fst (fetch apiKey prompt time))) = true ->
        text = Providers.errorWhileGenerating).
Proof.
  intros Hkey. unfold Providers.deepseekGenerateResponse.
  rewrite (keyOrEnv_truthy _ _ Hkey).
  destruct (fetch apiKey prompt time) as [response elapsed]; cbn [fst].
  destruct (Providers.deepseekTry response) as [text|error] eqn:Htry.
  - exists text. cbn [fst]. split; [reflexivity|]. split; [|discriminate].
    by apply (deepseekTry_truthy response).
  - by exists Providers.errorWhileGenerating.
Qed.

End Adapters.

(** X21: a failure of DeepSeek is an answer.  With a key, the DeepSeek
    adapter never throws: a failed request, an HTTP error status or a
    body that cannot be parsed all become the text "I encountered an
    error while generating a response. Please try again.".  So whenever
    the breaker lets the request through, [generateLLMResponse] for
    deepseek returns a text that is not empty after a single invocation,
    records a success and leaves the breaker closed with no failure
    counted: a DeepSeek failure is not retried and does not open the
    circuit. *)
Theorem deepseek_failures_are_answers (remotes : Providers.Remotes)
    (globalContext : list Providers.GlobalContextItem)
    (context : list Providers.ContextItem) (userInput apiKey : string)
    (rt : Runtime) :
  truthy apiKey = true ->
  fst (canAttemptRequest deepseek rt) = true ->
  let clients := Providers.clients remotes globalContext context in
  let result :=
    LLMRouter.generateLLMResponse clients deepseek userInput apiKey rt in
  exists text,
    fst result = Normal text
    /\ truthy text = true
    /\ (isThrow (Providers.deepseekTry
                   (fst (Providers.deepseekFetch remotes apiKey
                           (Providers.fullPrompt globalContext context userInput)
                           (now rt)))) = true ->
        text = Providers.errorWhileGenerating)
    /\ trace (snd result) = trace rt ++ [EvInvoke deepseek 0]
    /\ state (breakerOf deepseek (snd result)) = CLOSED
    /\ failures (breakerOf deepseek (snd result)) = 0%nat.
Proof.
  intros Hkey Hallowed. cbv zeta.
  destruct (deepseek_answers (Providers.deepseekFetch remotes)
              (Providers.DEEPSEEK_API_KEY remotes)
              (Providers.fullPrompt globalContext context userInput) apiKey
              (now rt) Hkey) as (text & Htext & Htruthy & Hfailed).
  destruct (generateLLMResponse_first_attempt
              (Providers.clients remotes globalContext context) deepseek
              userInput apiKey rt text Hallowed Htext)
    as (Hres & Htrace & _ & Hstate & Hfailures & _).
  exists text. repeat split; done.
Qed.

Lemma deepseek_failures_are_answers_witness :
  let result :=
    LLMRouter.generateLLMResponse (Providers.clients Scenario.downRemotes [] [])
      deepseek "hello" "sk-deepseek" Scenario.freshRuntime in
  fst result = Normal Providers.errorWhileGenerating
  /\ state (breakerOf deepseek (snd result)) = CLOSED.
Proof.
  cbv zeta.
  destruct (deepseek_failures_are_answers Scenario.downRemotes [] [] "hello"
              "sk-deepseek" Scenario.freshRuntime eq_refl eq_refl)
    as (text & Hres & _ & Hfailed & _ & Hstate & _).
  rewrite Hres, (Hfailed eq_refl). by split.
Defined.

(** X22: the OpenAI, DeepSeek and Grok adapters never return an empty
    text: an empty or missing content is replaced by a fixed sentence.
    (The Claude adapter returns the text of the first block as it is,
    the empty string included.) *)
Theorem replies_are_never_empty (remotes : Providers.Remotes)
    (globalContext : list Providers.GlobalContextItem)
    (context : list Providers.ContextItem) (provider : LLMProvider)
    (userInput apiKey : string) (time : Z) (text : string) :
  provider <> claude ->
  fst (Providers.clients remotes globalContext context provider userInput apiKey
         time) = Normal text ->
  text <> "".
Proof.
  intros Hprovider Htext.
  assert (Htruthy : truthy text = true); [|by intros ->].
  unfold Providers.clients in Htext.
  set (prompt := Providers.fullPrompt globalContext context userInput) in *.
  destruct provider; [| done | |].
  - unfold Providers.openaiGenerateResponse in Htext.
    destruct (Providers.keyOrEnv _ _) as [key|]; [|discriminate].
    destruct (Providers.openaiCreate remotes key prompt time)
      as [[content|error] elapsed]; [|discriminate].
    injection Htext as <-. by apply truthy_orElse.
  - unfold Providers.deepseekGenerateResponse in Htext.
    destruct (Providers.keyOrEnv _ _) as [key|]; [|discriminate].
    destruct (Providers.deepseekFetch remotes key prompt time)
      as [response elapsed].
    destruct (Providers.deepseekTry response) as [text'|error] eqn:Htry.
    + injection Htext as <-. by apply (deepseekTry_truthy response).
    + by injection Htext as <-.
  - unfold Providers.grokGenerateResponse in Htext.
    destruct (negb (truthy apiKey)); [discriminate|].
    destruct (Providers.grokCreate remotes apiKey prompt time)
      as [[content|error] elapsed]; [|discriminate].
    injection Htext as <-. by apply truthy_orElse.
Qed.

Lemma replies_are_never_empty_witness :
  fst (Providers.clients Scenario.emptyRemotes [] [] grok "hello" "xai-key" 0)
  = Normal "No response generated"
  /\ "No response generated" <> ""
  /\ fst (Providers.clients Scenario.emptyRemotes [] [] claude "hello" "sk-ant" 0)
     = Normal "".
Proof.
  split; [reflexivity|]. split; [|reflexivity].
  exact (replies_are_never_empty Scenario.emptyRemotes [] [] grok "hello"
           "xai-key" 0 "No response generated" ltac:(discriminate) eq_refl).
Defined.

(** X23: an adapter called without a key, neither as argument nor (for
    OpenAI, Claude and DeepSeek) in the environment, throws at once,
    without calling the remote service, and [parseError] classifies the
    error as INVALID_KEY. *)
Theorem missing_key_is_invalid_key (remotes : Providers.Remotes)
    (globalContext : list Providers.GlobalContextItem)
    (context : list Providers.ContextItem) (provider : LLMProvider)
    (userInput apiKey : string) (time : Z) (rt : Runtime) :
  Providers.keyOrEnv apiKey (envKeyOf remotes provider) = None ->
  exists error,
    Providers.clients remotes globalContext context provider userInput apiKey time
    = (Throw error, 0)
    /\ llmCode (parseError error provider None rt) = INVALID_KEY.
Proof.
  intros Hkey. unfold Providers.clients.
  destruct provider; cbn [envKeyOf] in Hkey.
  - unfold Providers.openaiGenerateResponse. rewrite Hkey. by eexists.
  - unfold Providers.claudeGenerateResponse. rewrite Hkey. by eexists.
  - unfold Providers.deepseekGenerateResponse. rewrite Hkey. by eexists.
  - unfold Providers.grokGenerateResponse. unfold Providers.keyOrEnv in Hkey.
    destruct (truthy apiKey); [discriminate|]. by eexists.
Qed.

Lemma missing_key_is_invalid_key_witness :
  exists error,
    Providers.clients Scenario.downRemotes [] [] openai "hello" "" 0
    = (Throw error, 0)
    /\ llmCode (parseError error openai None Scenario.freshRuntime) = INVALID_KEY.
Proof.
  exact (missing_key_is_invalid_key Scenario.downRemotes [] [] openai "hello" "" 0
           Scenario.freshRuntime eq_refl).
Defined.

(** ** From a suggestion to an agent *)

Section Agents.

Lemma find_last_fresh {A} (f : A -> bool) (l : list A) (x : A) :
  f x = true ->
  exists y, List.find f (l ++ [x]) = Some y /\ f y = true
            /\ (Forall (fun z => f z = false) l -> y = x).
Proof.
  intros Hx. induction l as [|z l IH]; cbn [app List.find].
  - rewrite Hx. by exists x.
  - destruct (f z) eqn:Hz.
    + exists z. repeat split; try done. intros H. inversion H; congruence.
    + destruct IH as (y & Hy & Hfy & Hfresh). exists y.
      repeat split; try done. intros H. inversion H; auto.
Qed.

End Agents.



(** ** More edges of the breaker, the router, the companion and the fan-out *)

(** X25: a probe that fails re-opens the circuit.  For a breaker that is
    consistent (as every breaker reached from a fresh process is) and
    HALF_OPEN, one [recordFailure] opens it again with the cooldown
    starting at that moment: requests are refused for the next 30000 ms
    and let through after that.  One [recordSuccess] instead closes it
    and resets the failure count. *)
Theorem half_open_failure_reopens (p : LLMProvider) (rt : Runtime) :
  consistent (now rt) (breakerOf p rt) ->
  state (breakerOf p rt) = HALF_OPEN ->
  let rt' := recordFailure p rt in
  state (breakerOf p rt') = OPEN
  /\ lastFailureTime (breakerOf p rt') = Some (now rt)
  /\ (forall w, 0 <= w <= cooldownMs ->
        fst (canAttemptRequest p (elapse w rt')) = false)
  /\ (forall w, cooldownMs < w ->
        fst (canAttemptRequest p (elapse w rt')) = true)
  /\ state (breakerOf p (recordSuccess p rt)) = CLOSED
  /\ failures (breakerOf p (recordSuccess p rt)) = 0%nat.
Proof.
  intros (Hclosed & _ & _) Hhalf. cbv zeta.
  assert (Hfull : (failureThreshold <= failures (breakerOf p rt))%nat).
  { destruct (Nat.lt_ge_cases (failures (breakerOf p rt)) failureThreshold)
      as [Hlt|Hge]; [|exact Hge].
    apply Hclosed in Hlt. congruence. }
  rewrite recordFailure_put, recordSuccess_put.
  rewrite !breakerOf_putBreaker, !decide_True by reflexivity.
  unfold failed; cbn [state failures lastFailureTime].
  rewrite (proj2 (Nat.leb_le _ _)) by lia.
  split; [reflexivity|]. split; [reflexivity|].
  split; [|split; [|by split]].
  - intros w Hw. rewrite canAttemptRequest_put; cbn [fst].
    rewrite breakerOf_elapse, breakerOf_putBreaker, decide_True by reflexivity.
    unfold allows; cbn. apply Z.ltb_ge. lia.
  - intros w Hw. rewrite canAttemptRequest_put; cbn [fst].
    rewrite breakerOf_elapse, breakerOf_putBreaker, decide_True by reflexivity.
    unfold allows; cbn. apply Z.ltb_lt. lia.
Qed.

Lemma half_open_failure_reopens_witness :
  let rt := mkRuntime {[ grok := mkBreaker 3 (Some 0) HALF_OPEN ]} 40000 [] in
  state (breakerOf grok (recordFailure grok rt)) = OPEN
  /\ fst (canAttemptRequest grok (elapse 30000 (recordFailure grok rt))) = false
  /\ fst (canAttemptRequest grok (elapse 30001 (recordFailure grok rt))) = true.
Proof.
  cbv zeta.
  destruct (half_open_failure_reopens grok
              (mkRuntime {[ grok := mkBreaker 3 (Some 0) HALF_OPEN ]} 40000 []))
    as (Hopen & _ & Hrefused & Hallowed & _).
  - replace (breakerOf grok _) with (mkBreaker 3 (Some 0) HALF_OPEN)
      by (vm_compute; reflexivity).
    unfold consistent, failureThreshold; cbn.
    split; [split; [discriminate|lia]|]. split; [done|].
    intros t [= <-]. lia.
  - reflexivity.
  - split; [exact Hopen|]. split; [apply Hrefused|apply Hallowed];
      unfold cooldownMs; lia.
Defined.

(** X26: the guard of [generateLLMResponse] fails fast.  When the
    breaker refuses the request, [generateLLMResponse] throws the
    "service temporarily unavailable" error at once: the client is not
    invoked, nothing sleeps, no time passes, no failure is recorded and
    every breaker keeps its values. *)
Theorem router_guard_fails_fast (clients : LLMRouter.ProviderClients)
    (p : LLMProvider) (userInput apiKey : string) (rt : Runtime) :
  fst (canAttemptRequest p rt) = false ->
  let result := LLMRouter.generateLLMResponse clients p userInput apiKey rt in
  fst result = Throw (LLMRouter.serviceUnavailableError p)
  /\ trace (snd result) = trace rt
  /\ now (snd result) = now rt
  /\ forall q, breakerOf q (snd result) = breakerOf q rt.
Proof.
  intros Hrefused. cbv zeta. unfold LLMRouter.generateLLMResponse.
  destruct (canAttemptRequest_refused p rt Hrefused) as (_ & Hnow & Hsame).
  pose proof (canAttemptRequest_put p rt) as Hput.
  destruct (canAttemptRequest p rt) as [allowed rt1]; cbn [fst snd] in *.
  subst allowed. cbn [negb fst snd]. repeat split; try done.
  injection Hput as _ ->. reflexivity.
Qed.

Lemma router_guard_fails_fast_witness :
  let rt := mkRuntime {[ openai := mkBreaker 3 (Some 0) OPEN ]} 1000 [] in
  LLMRouter.generateLLMResponse Scenario.mixedClients openai "hello" "sk-openai" rt
  = (Throw (LLMRouter.serviceUnavailableError openai), rt).
Proof.
  cbv zeta.
  destruct (router_guard_fails_fast Scenario.mixedClients openai "hello"
              "sk-openai"
              (mkRuntime {[ openai := mkBreaker 3 (Some 0) OPEN ]} 1000 []))
    as (Hres & _).
  - reflexivity.
  - vm_compute. reflexivity.
Defined.

Lemma unique_head x l : exists rest, unique (x :: l) = x :: rest.
Proof.
  unfold unique; cbn [uniqueFrom].
  rewrite bool_decide_eq_false_2 by apply not_elem_of_nil. eauto.
Qed.





(** X29: when no provider is both enabled and configured with a key
    (no model enabled, no key, or only empty keys), the fan-out makes no
    call: it returns no response and leaves the breakers, the clock and
    the database as they are. *)
Theorem dispatch_without_calls (clients : LLMRouter.ProviderClients)
    (discussionId content : string) (enabledModels : list string)
    (keys : Storage.ApiKeys) (rt : Runtime) (db : Storage.Database) :
  (forall p, dispatched enabledModels keys p = false) ->
  Routes.dispatch clients discussionId content enabledModels keys rt db
  = ([], (rt, db)).
Proof.
  intros Hnone. unfold Routes.dispatch.
  destruct (fanOutCalls_providers enabledModels keys) as [Hp _].
  assert (Hcalls : Routes.fanOutCalls enabledModels keys = []).
  { apply (f_equal (@length _)) in Hp. rewrite length_map in Hp.
    cbn [List.filter] in Hp. rewrite !Hnone in Hp.
    by destruct (Routes.fanOutCalls enabledModels keys). }
  by rewrite Hcalls.
Qed.

Lemma dispatch_without_calls_witness :
  Routes.dispatch Scenario.failingClients "d1" "hello" ["gpt4"; "grok"]
    (Storage.mkApiKeys (Some "") (Some "sk-anthropic") None None)
    Scenario.freshRuntime Scenario.emptyDatabase
  = ([], (Scenario.freshRuntime, Scenario.emptyDatabase)).
Proof.
  apply (dispatch_without_calls Scenario.failingClients "d1" "hello"
           ["gpt4"; "grok"]
           (Storage.mkApiKeys (Some "") (Some "sk-anthropic") None None)).
  by intros [].
Defined.
